(** * Composer: the compiler to a flat FSM and the conductor interpreter

    A shallow embedding of the conductor part of the composer module.  The
    repository carries two variants of that code:

    - the [conductor] function (module [Conductor] below): the compiler
      emits arrays of states whose jumps are offsets relative to the
      emitting state, and the interpreter adds them to the current index;
    - [__init__] and [main] of [composer.js] (module [Main] below): the
      compiler links state objects by reference, [__init__] replaces the
      references by absolute indices, and the interpreter jumps to them.

    [inspect], [run] and [set] are the same text in both and are embedded
    once.  [encodeError] is embedded twice: on the failures of the
    interpreter ([encodeError]) and on any value ([encode]).

    Of the builder of [composer.js] (module [Composer] below) the
    embedding has [validate], the constructor of [Composition] on an array
    and on the object of a node, [task], [sequence], [if], [while], [try],
    [finally], [let], [literal], [function], and [action] called with a
    name only.  [action] with options (it reads files), [retain], [repeat]
    and [retry] (written with the functions above and the text of helper
    functions), [named] (it prints the source of the conductor) and
    [deploy] are not embedded.

    Modelling boundaries, stated once:
    - a JS value is [value]; finite numbers are integers (the program only
      does index arithmetic on them), [NaN] stands for the result of adding
      [undefined];
    - an object is its list of own properties in insertion order (the
      order of [for ... in] and of [JSON.stringify]; keys that look like
      array indices, which JS enumerates first, are not variable names);
      what is reached through a prototype ([constructor], [toString],
      array methods) and the properties of functions are not modelled; a
      string is a sequence of code units, one character each;
    - user code is a function of [params] and the environment object that
      gives a completion and the environment object it leaves: the
      completion carries the params object as the code leaves it, which it
      was given itself, and the environment has each variable with the
      value it ends with; an object that a variable shares with a frame
      is taken to change when the variable is written back, not before;
    - in [composer.js] the frame of a [let] state holds [json.let] itself
      and a [literal] state makes [json.value] itself the params, so the
      write-back and user code can write into the states of the FSM;
      [main] is embedded on the states as [__init__] gives them, and these
      writes are not modelled;
    - the text of an exception raised by the JS engine is not modelled,
      only its kind. *)

From Stdlib Require Import List String Ascii ZArith Bool Lia DecimalString.
From Stdlib Require Nnat DecimalNat DecimalPos DecimalFacts.
Import ListNotations.
Local Open Scope string_scope.
Local Open Scope Z_scope.

Set Implicit Arguments.

(** ** JS values *)

Inductive number : Type :=
| Int (z : Z)
| NaN.

(** [value] and [composition] below are nested in [list]: their induction
    principles are written out. *)
#[local] Unset Elimination Schemes.

Inductive value : Type :=
| VUndef
| VNull
| VBool (b : bool)
| VNum (n : number)
| VStr (s : string)
| VArr (items : list value)
| VObj (props : list (string * value))
| VFun (source : string).

#[local] Set Elimination Schemes.

(** The induction principle that reaches the elements of arrays and the
    values of properties. *)
Section value_ind_nested.
Variable P : value -> Prop.
Hypothesis Hundef : P VUndef.
Hypothesis Hnull : P VNull.
Hypothesis Hbool : forall b, P (VBool b).
Hypothesis Hnum : forall n, P (VNum n).
Hypothesis Hstr : forall s, P (VStr s).
Hypothesis Harr : forall items, Forall P items -> P (VArr items).
Hypothesis Hobj : forall props, Forall (fun kv => P (snd kv)) props -> P (VObj props).
Hypothesis Hfun : forall src, P (VFun src).

Fixpoint value_ind_nested (v : value) : P v :=
  match v with
  | VUndef => Hundef
  | VNull => Hnull
  | VBool b => Hbool b
  | VNum n => Hnum n
  | VStr s => Hstr s
  | VArr items =>
      Harr ((fix go (l : list value) : Forall P l :=
               match l with
               | [] => Forall_nil _
               | x :: r => Forall_cons _ (value_ind_nested x) (go r)
               end) items)
  | VObj props =>
      Hobj ((fix go (l : list (string * value)) : Forall (fun kv => P (snd kv)) l :=
               match l with
               | [] => Forall_nil _
               | kv :: r => Forall_cons _ (value_ind_nested (snd kv)) (go r)
               end) props)
  | VFun src => Hfun src
  end.
End value_ind_nested.

(** [typeof v] *)
Definition typeof (v : value) : string :=
  match v with
  | VUndef => "undefined"
  | VNull | VArr _ | VObj _ => "object"
  | VBool _ => "boolean"
  | VNum _ => "number"
  | VStr _ => "string"
  | VFun _ => "function"
  end.

Definition is_undefined (v : value) : bool :=
  match v with VUndef => true | _ => false end.

Definition is_number (v : value) : bool :=
  match v with VNum _ => true | _ => false end.

(** The conversion to boolean of [v ? a : b], [!v] and [v || w]. *)
Definition truthy (v : value) : bool :=
  match v with
  | VUndef | VNull => false
  | VBool b => b
  | VNum (Int z) => negb (z =? 0)
  | VNum NaN => false
  | VStr s => negb (String.eqb s "")
  | VArr _ | VObj _ | VFun _ => true
  end.

(** [isObject]: [typeof obj === 'object' && obj !== null && !Array.isArray(obj)] *)
Definition isObject (obj : value) : bool :=
  match obj with VObj _ => true | _ => false end.

(** [v === true] *)
Definition strict_true (v : value) : bool :=
  match v with VBool true => true | _ => false end.

(** ** Own properties *)

Fixpoint lookup (k : string) (props : list (string * value)) : value :=
  match props with
  | [] => VUndef
  | (k', v) :: r => if String.eqb k k' then v else lookup k r
  end.

(** [o[k] = v] on the property list: an existing key keeps its place. *)
Fixpoint assign (k : string) (v : value) (props : list (string * value))
  : list (string * value) :=
  match props with
  | [] => [(k, v)]
  | (k', v') :: r =>
      if String.eqb k k' then (k, v) :: r else (k', v') :: assign k v r
  end.

(** [delete o[k]] *)
Fixpoint remove (k : string) (props : list (string * value))
  : list (string * value) :=
  match props with
  | [] => []
  | (k', v') :: r =>
      if String.eqb k k' then remove k r else (k', v') :: remove k r
  end.

(** Exceptions raised by the engine itself. *)
Inductive js_error : Type :=
| TypeError_property (target : value) (prop : string)
| SyntaxError_JSON_parse.

(** What a computation of the conductor can stop with: a rejected promise
    made by [badRequest] or [internalError], or a thrown exception. *)
Inductive failure : Type :=
| BadRequest (error : string)
| InternalError (error : string)
| Thrown (e : js_error).

Inductive res (A : Type) : Type :=
| Ok (a : A)
| Fail (f : failure).
Arguments Ok {A} a.
Arguments Fail {A} f.

Definition bind {A B : Type} (m : res A) (k : A -> res B) : res B :=
  match m with
  | Ok a => k a
  | Fail f => Fail f
  end.

Notation "x <- m ;; k" := (bind m (fun x => k))
  (at level 61, m at next level, right associativity).

(** The decimal text of [`${n}`] for a number. *)
Definition number_to_string (n : number) : string :=
  match n with
  | Int z => NilZero.string_of_int (Z.to_int z)
  | NaN => "NaN"
  end.

Definition index_key (i : nat) : string :=
  NilZero.string_of_uint (Nat.to_uint i).

(** The index properties of an array: ["0"], ["1"], ... *)
Definition indexed (items : list value) : list (string * value) :=
  combine (map index_key (seq 0 (List.length items))) items.

Definition characters (s : string) : list value :=
  map (fun c => VStr (String c "")) (list_ascii_of_string s).

(** [v.k] and [v[k]] for a string [k]: a [TypeError] on [undefined] and
    [null], the own properties of objects, arrays and strings. *)
Definition getprop (v : value) (k : string) : res value :=
  match v with
  | VUndef | VNull => Fail (Thrown (TypeError_property v k))
  | VObj props => Ok (lookup k props)
  | VArr items =>
      if String.eqb k "length" then Ok (VNum (Int (Z.of_nat (List.length items))))
      else Ok (lookup k (indexed items))
  | VStr s =>
      if String.eqb k "length" then Ok (VNum (Int (Z.of_nat (String.length s))))
      else Ok (lookup k (indexed (characters s)))
  | VBool _ | VNum _ | VFun _ => Ok VUndef
  end.

(** [items[i] = x] for an index inside the array. *)
Fixpoint replace_at (i : nat) (x : value) (items : list value) : list value :=
  match items, i with
  | [], _ => []
  | _ :: r, O => x :: r
  | y :: r, S j => y :: replace_at j x r
  end.

(** [v[k] = x] on an object, and on an array for one of its indices.  The
    interpreter writes a property in two places only: the [let] of a frame
    that has one, and a variable of that [let] that is defined there.  An
    assignment to anything else (the length of an array, a property of a
    string) is outside the model and leaves [v] as it is. *)
Definition setprop (v : value) (k : string) (x : value) : value :=
  match v with
  | VObj props => VObj (assign k x props)
  | VArr items =>
      match find (fun i => String.eqb k (index_key i)) (seq 0 (List.length items)) with
      | Some i => VArr (replace_at i x items)
      | None => v
      end
  | _ => v
  end.

(** The own enumerable properties that [Object.assign] copies. *)
Definition own_enumerable (v : value) : list (string * value) :=
  match v with
  | VObj props => props
  | VArr items => indexed items
  | VStr s => indexed (characters s)
  | _ => []
  end.

(** [Object.assign(acc, src)] *)
Definition Object_assign (acc : list (string * value)) (src : value)
  : list (string * value) :=
  fold_left (fun a kv => assign (fst kv) (snd kv) a) (own_enumerable src) acc.

(** ** [JSON.parse(JSON.stringify(v))] *)

(** [JSON.stringify] gives [undefined] for these at the top, leaves them out
    of an object and writes [null] for them in an array. *)
Definition unserializable (v : value) : bool :=
  match v with VUndef | VFun _ => true | _ => false end.

(** What [JSON.parse] reads back from the text of [v], and what it reads
    for [v] inside an array. *)
Fixpoint json_copy (v : value) : value :=
  match v with
  | VUndef | VFun _ => VNull
  | VNull => VNull
  | VBool b => VBool b
  | VNum (Int z) => VNum (Int z)
  | VNum NaN => VNull
  | VStr s => VStr s
  | VArr items => VArr (map json_copy items)
  | VObj props =>
      VObj ((fix go (l : list (string * value)) : list (string * value) :=
               match l with
               | [] => []
               | (k, x) :: r =>
                   if unserializable x then go r else (k, json_copy x) :: go r
               end) props)
  end.

(** [JSON.parse(JSON.stringify(v))]: [JSON.parse(undefined)] throws. *)
Definition json_clone (v : value) : res value :=
  if unserializable v then Fail (Thrown SyntaxError_JSON_parse)
  else Ok (json_copy v).

(** The values that a JSON text denotes. *)
Fixpoint is_json (v : value) : bool :=
  match v with
  | VUndef | VFun _ => false
  | VNum NaN => false
  | VNull | VBool _ | VNum (Int _) | VStr _ => true
  | VArr items => forallb is_json items
  | VObj props =>
      (fix go (l : list (string * value)) : bool :=
         match l with
         | [] => true
         | (_, x) :: r => is_json x && go r
         end) props
  end.

(** ** The state of an invocation: [state], [stack] and [params] of [invoke] *)

Record machine : Type := Machine {
  state : value;
  stack : list value;
  params : value
}.

(** The loop of [inspect]:
    [while (stack.length > 0) { if (typeof (state = stack.shift().catch) === 'number') break }] *)
Fixpoint unwind (state : value) (stack : list value) : res (value * list value) :=
  match stack with
  | [] => Ok (state, [])
  | frame :: rest =>
      c <- getprop frame "catch" ;;
      if is_number c then Ok (c, rest) else unwind c rest
  end.

(** [inspect]: wrap params if not a dictionary, branch to error handler if
    error. *)
Definition inspect (m : machine) : res machine :=
  let params := if isObject (params m) then params m
                else VObj [("value", params m)] in
  error <- getprop params "error" ;;
  if negb (is_undefined error) then
    r <- unwind VUndef (stack m) ;;
    Ok (Machine (fst r) (snd r) (VObj [("error", error)]))
  else Ok (Machine (state m) (stack m) params).

(** ** [run] and [set] *)

(** How the evaluation of user code ends: it returns [result] and leaves the
    params object, which it was given itself and not a copy, as [after]; or
    it throws. *)
Inductive completion : Type :=
| Returned (result after : value)
| Threw.

(** [set(symbol, value)]: update value of topmost matching symbol on stack
    if any.  [stack.find] and the assignment are one pass here: the test of
    [find] can throw only before the frame that is found, and nothing is
    written before the clone is made. *)
Fixpoint set (symbol : string) (v : value) (stack : list value)
  : res (list value) :=
  match stack with
  | [] => Ok []
  | element :: rest =>
      l <- getprop element "let" ;;
      declared <-
        (if is_undefined l then Ok false
         else x <- getprop l symbol ;; Ok (negb (is_undefined x))) ;;
      if declared : bool then
        c <- json_clone v ;;
        Ok (setprop element "let" (setprop l symbol c) :: rest)
      else
        rest' <- set symbol v rest ;;
        Ok (element :: rest')
  end.

(** [stack.reduceRight((acc, cur) => typeof cur.let === 'object' ?
    Object.assign(acc, cur.let) : acc, {})] *)
Fixpoint collapse (stack : list value) : res (list (string * value)) :=
  match stack with
  | [] => Ok []
  | cur :: deeper =>
      acc <- collapse deeper ;;
      l <- getprop cur "let" ;;
      if String.eqb (typeof l) "object" then Ok (Object_assign acc l)
      else Ok acc
  end.

(** [for (const name in env) set(name, env[name])], stopped by the first
    exception; the frames written before it stay written. *)
Fixpoint write_back (env : list (string * value)) (stack : list value)
  : option failure * list value :=
  match env with
  | [] => (None, stack)
  | (name, v) :: more =>
      match set name v stack with
      | Ok stack' => write_back more stack'
      | Fail f => (Some f, stack)
      end
  end.

(** The params object once the user code has run: [invoke] passes the
    object itself, so what the code has set on it is there when
    [typeof result === 'undefined' ? params : result] reads [params]. *)
Definition params_after (c : completion) (params : value) : value :=
  match c with
  | Returned _ after => after
  | Threw => params
  end.

Section Run.

(** The evaluation of the text built around the code [f]: the completion of
    the call on [params], with the params object as the call leaves it, and
    the environment object once the [finally] of that text has copied the
    variables back into it. *)
Variable user_eval :
  value -> value -> list (string * value) -> completion * list (string * value).

(** [run(f)]: the completion and the stack it leaves.  An exception of the
    write-back replaces the completion of the user code. *)
Definition run (f : value) (m : machine) : completion * list value :=
  match collapse (stack m) with
  | Fail _ => (Threw, stack m)
  | Ok env =>
      let (c, env') := user_eval f (params m) env in
      match write_back env' (stack m) with
      | (None, stack') => (c, stack')
      | (Some _, stack') => (Threw, stack')
      end
  end.

End Run.

(** ** FSM states *)

(** A state object of the FSM.  A jump that the object does not have is
    [None], another property that it does not have is [VUndef]. *)
Record fsm_state : Type := State {
  type : string;
  path : string;
  next : option Z;
  then_ : option Z;
  else_ : option Z;
  catch : option Z;
  name : value;
  exec : value;
  value_ : value;
  let_ : value;
  field : value;
  collect : value
}.

(** [{ type, path }] *)
Definition new_state (type path : string) : fsm_state :=
  State type path None None None None VUndef VUndef VUndef VUndef VUndef VUndef.

Definition with_next (n : option Z) (s : fsm_state) : fsm_state :=
  State (type s) (path s) n (then_ s) (else_ s) (catch s)
        (name s) (exec s) (value_ s) (let_ s) (field s) (collect s).

Definition with_then_else (t e : option Z) (s : fsm_state) : fsm_state :=
  State (type s) (path s) (next s) t e (catch s)
        (name s) (exec s) (value_ s) (let_ s) (field s) (collect s).

Definition with_catch (c : option Z) (s : fsm_state) : fsm_state :=
  State (type s) (path s) (next s) (then_ s) (else_ s) c
        (name s) (exec s) (value_ s) (let_ s) (field s) (collect s).

Definition with_name (v : value) (s : fsm_state) : fsm_state :=
  State (type s) (path s) (next s) (then_ s) (else_ s) (catch s)
        v (exec s) (value_ s) (let_ s) (field s) (collect s).

Definition with_exec (v : value) (s : fsm_state) : fsm_state :=
  State (type s) (path s) (next s) (then_ s) (else_ s) (catch s)
        (name s) v (value_ s) (let_ s) (field s) (collect s).

Definition with_value (v : value) (s : fsm_state) : fsm_state :=
  State (type s) (path s) (next s) (then_ s) (else_ s) (catch s)
        (name s) (exec s) v (let_ s) (field s) (collect s).

Definition with_let (v : value) (s : fsm_state) : fsm_state :=
  State (type s) (path s) (next s) (then_ s) (else_ s) (catch s)
        (name s) (exec s) (value_ s) v (field s) (collect s).

Definition with_field (v : value) (s : fsm_state) : fsm_state :=
  State (type s) (path s) (next s) (then_ s) (else_ s) (catch s)
        (name s) (exec s) (value_ s) (let_ s) v (collect s).

Definition with_collect (v : value) (s : fsm_state) : fsm_state :=
  State (type s) (path s) (next s) (then_ s) (else_ s) (catch s)
        (name s) (exec s) (value_ s) (let_ s) (field s) v.

(** ** The composition (AST) that the compiler reads *)

(** The JSON of a composition, by its [type]; a sequence is the array of its
    components.  [options] is [VUndef] when the node has none. *)
#[local] Unset Elimination Schemes.

Inductive composition : Type :=
| Sequence (components : list composition)
| Action (name : string) (options : value)
| Function (exec : value) (options : value)
| Literal (v : value) (options : value)
| Finally (body finalizer : composition) (options : value)
| Let (declarations : value) (body : composition)
| Retain (body : composition) (options : value)
| Try (body handler : composition) (options : value)
| If (test consequent alternate : composition) (options : value)
| While (test body : composition) (options : value).

#[local] Set Elimination Schemes.

(** [json.options || {}] then [options.k]: the options are an object when
    they are there. *)
Definition option_of (options : value) (k : string) : value :=
  match getprop (if truthy options then options else VObj []) k with
  | Ok v => v
  | Fail _ => VUndef
  end.

(** ** What [main] settles with *)

Inductive error_text : Type :=
| Text (s : string)
| EngineMessage (e : js_error).

Inductive outcome : Type :=
| Resolved (v : value)
| Rejected (code : Z) (error : error_text).

(** [encodeError] on what [invoke] stopped with, as the [catch] of [main]
    receives it: the [{ code: 400, error }] of [badRequest], the
    [encodeError(error)] of [internalError] run on a message, or an
    exception object, whose [message] is the text of the engine. *)
Definition or_default (s : string) : string :=
  if String.eqb s "" then "An internal error occurred" else s.

Definition encodeError (f : failure) : outcome :=
  match f with
  | BadRequest error => Rejected 400 (Text (or_default error))
  | InternalError error => Rejected 500 (Text (or_default error))
  | Thrown e => Rejected 500 (EngineMessage e)
  end.

(** The property key that [o[v]] uses, and the text of [`${v}`]. *)
Fixpoint to_string (v : value) : string :=
  match v with
  | VUndef => "undefined"
  | VNull => "null"
  | VBool true => "true"
  | VBool false => "false"
  | VNum n => number_to_string n
  | VStr s => s
  | VArr items =>
      (fix join (l : list value) : string :=
         match l with
         | [] => ""
         | x :: r =>
             let item := match x with
                         | VUndef | VNull => ""
                         | _ => to_string x
                         end in
             match r with
             | [] => item
             | _ => item ++ "," ++ join r
             end
         end) items
  | VObj _ => "[object Object]"
  | VFun source => source
  end.

(** [delete params.$resume], reached when [params.$resume] is defined. *)
Definition delete_resume (params : value) : value :=
  match params with
  | VObj props => VObj (remove "$resume" props)
  | _ => params
  end.

(** The final state: [if (params.error) return params; else return { params }] *)
Definition final (params : value) : res value :=
  error <- getprop params "error" ;;
  if truthy error then Ok params else Ok (VObj [("params", params)]).

(** [{ action: json.name, params, state: { $resume: { state, stack } } }] *)
Definition continuation (name : value) (m : machine) : value :=
  VObj [("action", name); ("params", params m);
        ("state", VObj [("$resume", VObj [("state", state m);
                                           ("stack", VArr (stack m))])])].

(** What one turn of the loop of [invoke] does. *)
Inductive turn : Type :=
| Continue (m : machine)
| Return (v : value).

(** * The [conductor] function: relative offsets *)

Module Conductor.

(** [front.slice(-1)[0].next = n] *)
Fixpoint set_last_next (n : Z) (front : list fsm_state) : list fsm_state :=
  match front with
  | [] => []
  | [s] => [with_next (Some n) s]
  | s :: r => s :: set_last_next n r
  end.

(** [chain(front, back)]: the arrays that [compile] chains are never empty
    (lemma [conductor_compile_not_nil] below), so there is a last state. *)
Definition chain (front back : list fsm_state) : list fsm_state :=
  set_last_next 1 front ++ back.

(** [fsms.reduce(chain)] *)
Definition reduce_chain (fsms : list (list fsm_state)) : list fsm_state :=
  match fsms with
  | [] => []
  | first :: others => fold_left chain others first
  end.

(** [fsm[0].catch = c] and [fsm[0].field = f] *)
Definition set_first_catch (c : Z) (fsm : list fsm_state) : list fsm_state :=
  match fsm with
  | [] => []
  | s :: r => with_catch (Some c) s :: r
  end.

Definition set_first_field (f : value) (fsm : list fsm_state) : list fsm_state :=
  match fsm with
  | [] => []
  | s :: r => with_field f s :: r
  end.

Definition len (fsm : list fsm_state) : Z := Z.of_nat (List.length fsm).

(** [compile(json, path = '')] *)
Fixpoint compile (json : composition) (path : string) {struct json}
  : list fsm_state :=
  match json with
  | Sequence components =>
      match components with
      | [] => [new_state "pass" path]
      | _ =>
          reduce_chain
            ((fix map_compile (l : list composition) (index : nat)
                : list (list fsm_state) :=
                match l with
                | [] => []
                | json :: r =>
                    compile json (path ++ "[" ++ index_key index ++ "]")
                    :: map_compile r (S index)
                end) components 0%nat)
      end
  | Action name _ =>
      [with_name (VStr name) (new_state "action" path)]
  | Function exec _ =>
      [with_exec exec (new_state "function" path)]
  | Literal v _ =>
      [with_value v (new_state "literal" path)]
  | Finally body finalizer _ =>
      let body := compile body (path ++ ".body") in
      let finalizer := compile finalizer (path ++ ".finalizer") in
      let fsm := reduce_chain [[new_state "try" path]; body;
                               [new_state "exit" path]; finalizer] in
      set_first_catch (len fsm - len finalizer) fsm
  | Let declarations body =>
      let body := compile body (path ++ ".body") in
      reduce_chain [[with_let declarations (new_state "let" path)]; body;
                    [new_state "exit" path]]
  | Retain body options =>
      let body := compile body (path ++ ".body") in
      let fsm := reduce_chain [[new_state "push" path]; body;
                               [with_collect (VBool true) (new_state "pop" path)]] in
      if truthy (option_of options "field")
      then set_first_field (option_of options "field") fsm
      else fsm
  | Try body handler _ =>
      let body := compile body (path ++ ".body") in
      let handler := chain (compile handler (path ++ ".handler"))
                           [new_state "pass" path] in
      let fsm := reduce_chain [[new_state "try" path]; body] in
      let fsm := set_first_catch (len fsm) fsm in
      let fsm := set_last_next (len handler) fsm in
      fsm ++ handler
  | If test consequent alternate options =>
      let nosave := truthy (option_of options "nosave") in
      let consequent := compile consequent (path ++ ".consequent") in
      let alternate := chain (compile alternate (path ++ ".alternate"))
                             [new_state "pass" path] in
      let consequent := if negb nosave
                        then chain [new_state "pop" path] consequent
                        else consequent in
      let alternate := if negb nosave
                       then chain [new_state "pop" path] alternate
                       else alternate in
      let fsm := chain (compile test (path ++ ".test"))
                       [with_then_else (Some 1) (Some (len consequent + 1))
                          (new_state "choice" path)] in
      let fsm := if negb nosave then chain [new_state "push" path] fsm
                 else fsm in
      let consequent := set_last_next (len alternate) consequent in
      (fsm ++ consequent) ++ alternate
  | While test body options =>
      let nosave := truthy (option_of options "nosave") in
      let consequent := compile body (path ++ ".body") in
      let alternate := [new_state "pass" path] in
      let consequent := if negb nosave
                        then chain [new_state "pop" path] consequent
                        else consequent in
      let alternate := if negb nosave
                       then chain [new_state "pop" path] alternate
                       else alternate in
      let fsm := chain (compile test (path ++ ":test"))
                       [with_then_else (Some 1) (Some (len consequent + 1))
                          (new_state "choice" path)] in
      let fsm := if negb nosave then chain [new_state "push" path] fsm
                 else fsm in
      let consequent := set_last_next (1 - len fsm - len consequent) consequent in
      (fsm ++ consequent) ++ alternate
  end.

(** [fsm[state]] for a state that is a number; [None] is [undefined].  A
    state that is neither a number nor [undefined] can only be the [catch]
    of a frame that this interpreter did not make.  The code converts such
    a state to a property key, so that the string ['0'] reads [fsm[0]] and
    goes on with strings for states; the model gives [undefined] for it,
    and these states are outside of it. *)
Definition state_at (fsm : list fsm_state) (state : value)
  : option (Z * fsm_state) :=
  match state with
  | VNum (Int n) =>
      if 0 <=? n then option_map (pair n) (nth_error fsm (Z.to_nat n))
      else None
  | _ => None
  end.

(** [current + offset] *)
Definition jump (current : Z) (offset : option Z) : value :=
  match offset with
  | Some k => VNum (Int (current + k))
  | None => VNum NaN
  end.

Definition state_text (current : Z) : string :=
  "State " ++ number_to_string (Int current).

(** The value that the [function] case gives to [result], before the clone:
    [run] threw, or gave a function, or gave something else. *)
Definition function_result (current : Z) (c : completion) : value :=
  let result :=
    match c with
    | Threw =>
        VObj [("error", VStr ("An exception was caught at state "
                               ++ number_to_string (Int current)
                               ++ " (see log for details)"))]
    | Returned result _ => result
    end in
  if String.eqb (typeof result) "function"
  then VObj [("error", VStr (state_text current ++ " evaluated to a function"))]
  else result.

(** [JSON.parse(JSON.stringify(typeof result === 'undefined' ? params : result))] *)
Definition function_params (current : Z) (c : completion) (params : value)
  : res value :=
  let result := function_result current c in
  json_clone (if is_undefined result then params_after c params else result).

Section Interpreter.

Variable user_eval :
  value -> value -> list (string * value) -> completion * list (string * value).

(** The FSM that [compile(composition)] gave. *)
Variable fsm : list fsm_state.

(** [try { result = run(json.exec.exec) } catch (error) { ... }]: an
    exception of [json.exec.exec] is caught like one of [run]. *)
Definition try_run (json : fsm_state) (m : machine) : completion * list value :=
  match getprop (exec json) "exec" with
  | Ok f => run user_eval f m
  | Fail _ => (Threw, stack m)
  end.

(** The [switch (json.type)] of [invoke], with [state] already set to the
    default next state. *)
Definition dispatch (json : fsm_state) (current : Z) (m : machine) : res turn :=
  let ty := type json in
  if String.eqb ty "choice" then
    v <- getprop (params m) "value" ;;
    Ok (Continue (Machine (jump current (if truthy v then then_ json else else_ json))
                          (stack m) (params m)))
  else if String.eqb ty "try" then
    Ok (Continue (Machine (state m)
                          (VObj [("catch", jump current (catch json))] :: stack m)
                          (params m)))
  else if String.eqb ty "let" then
    l <- json_clone (let_ json) ;;
    Ok (Continue (Machine (state m) (VObj [("let", l)] :: stack m) (params m)))
  else if String.eqb ty "exit" then
    match stack m with
    | [] => Fail (InternalError (state_text current
                                   ++ " attempted to pop from an empty stack"))
    | _ :: rest => Ok (Continue (Machine (state m) rest (params m)))
    end
  else if String.eqb ty "push" then
    saved <- (if truthy (field json)
              then getprop (params m) (to_string (field json))
              else Ok (params m)) ;;
    frame <- json_clone (VObj [("params", saved)]) ;;
    Ok (Continue (Machine (state m) (frame :: stack m) (params m)))
  else if String.eqb ty "pop" then
    match stack m with
    | [] => Fail (InternalError (state_text current
                                   ++ " attempted to pop from an empty stack"))
    | frame :: rest =>
        saved <- getprop frame "params" ;;
        Ok (Continue (Machine (state m) rest
                        (if truthy (collect json)
                         then VObj [("params", saved); ("result", params m)]
                         else saved)))
    end
  else if String.eqb ty "action" then
    Ok (Return (continuation (name json) m))
  else if String.eqb ty "literal" then
    p <- json_clone (value_ json) ;;
    m' <- inspect (Machine (state m) (stack m) p) ;;
    Ok (Continue m')
  else if String.eqb ty "function" then
    let (c, stack') := try_run json m in
    p <- function_params current c (params m) ;;
    m' <- inspect (Machine (state m) stack' p) ;;
    Ok (Continue m')
  else if String.eqb ty "pass" then
    m' <- inspect m ;;
    Ok (Continue m')
  else Fail (InternalError (state_text current ++ " has an unknown type")).

(** One turn of [while (true)]. *)
Definition iteration (m : machine) : res turn :=
  if is_undefined (state m) then
    v <- final (params m) ;;
    Ok (Return v)
  else
    match state_at fsm (state m) with
    | None => Fail (Thrown (TypeError_property VUndef "next"))
    | Some (current, json) =>
        let state := match next json with
                     | None => VUndef
                     | Some k => VNum (Int (current + k))
                     end in
        dispatch json current (Machine state (stack m) (params m))
    end.

(** The loop, for at most [fuel] turns: [None] when they do not suffice. *)
Fixpoint loop (fuel : nat) (m : machine) : option (res value) :=
  match fuel with
  | O => None
  | S fuel =>
      match iteration m with
      | Ok (Continue m') => loop fuel m'
      | Ok (Return v) => Some (Ok v)
      | Fail f => Some (Fail f)
      end
  end.

(** The beginning of [invoke]: initial state and stack, restored from
    [params.$resume] when resuming. *)
Definition resume (params : value) : res machine :=
  r <- getprop params "$resume" ;;
  if negb (is_undefined r) then
    if negb (isObject r) then
      Fail (BadRequest "The type of optional $resume parameter must be object")
    else
      state <- getprop r "state" ;;
      stack <- getprop r "stack" ;;
      if negb (is_undefined state) && negb (is_number state) then
        Fail (BadRequest "The type of optional $resume.state parameter must be number")
      else
        match stack with
        | VArr frames => inspect (Machine state frames (delete_resume params))
        | _ => Fail (BadRequest "The type of $resume.stack must be an array")
        end
  else Ok (Machine (VNum (Int 0)) [] params).

Definition invoke (fuel : nat) (params : value) : option (res value) :=
  match resume params with
  | Ok m => loop fuel m
  | Fail f => Some (Fail f)
  end.

(** [params => Promise.resolve().then(() => invoke(params)).catch(internalError)] *)
Definition main (fuel : nat) (params : value) : option outcome :=
  match invoke fuel params with
  | None => None
  | Some (Ok v) => Some (Resolved v)
  | Some (Fail f) => Some (encodeError f)
  end.

End Interpreter.

(** [conductor(composition)] *)
Definition conductor
  (user_eval : value -> value -> list (string * value)
               -> completion * list (string * value))
  (composition : composition) : nat -> value -> option outcome :=
  main user_eval (compile composition "").

End Conductor.

(** * [__init__] and [main] of [composer.js]: references, then absolute indices *)

Module Main.

(** A state object and its identity.  While [compile] runs, a jump of
    [content] holds the identity of the state object that it refers to;
    [__init__] then replaces it by the index of that object. *)
Record object : Type := Object {
  address : nat;
  content : fsm_state
}.

(** [fsm.states[0]] and [fsm.last()], as references. *)
Definition first_ref (states : list object) : option Z :=
  match states with
  | [] => None
  | o :: _ => Some (Z.of_nat (address o))
  end.

Definition last_ref (states : list object) : option Z :=
  match rev states with
  | [] => None
  | o :: _ => Some (Z.of_nat (address o))
  end.

(** [fsm.last().next = r] *)
Fixpoint set_last_next (r : option Z) (states : list object) : list object :=
  match states with
  | [] => []
  | [o] => [Object (address o) (with_next r (content o))]
  | o :: rest => o :: set_last_next r rest
  end.

(** [chain(front, back)]; a state object given for an FSM is the list of
    that one object.  An FSM is never empty (lemma [main_compile_fresh]
    below). *)
Definition chain (front back : list object) : list object :=
  set_last_next (first_ref back) front ++ back.

Definition reduce_chain (fsms : list (list object)) : list object :=
  match fsms with
  | [] => []
  | first :: others => fold_left chain others first
  end.

Definition set_first_field (f : value) (states : list object) : list object :=
  match states with
  | [] => []
  | o :: r => Object (address o) (with_field f (content o)) :: r
  end.

(** [compile(json, path = '')], with the identity [fresh] for the next state
    object that is made; gives the states and the next unused identity. *)
Fixpoint compile (json : composition) (path : string) (fresh : nat)
  {struct json} : list object * nat :=
  match json with
  | Sequence components =>
      match components with
      | [] => ([Object fresh (new_state "pass" path)], S fresh)
      | _ =>
          let (fsms, fresh) :=
            (fix map_compile (l : list composition) (index fresh : nat)
               : list (list object) * nat :=
               match l with
               | [] => ([], fresh)
               | json :: r =>
                   let (fsm, fresh) :=
                     compile json (path ++ ":" ++ index_key index) fresh in
                   let (fsms, fresh) := map_compile r (S index) fresh in
                   (fsm :: fsms, fresh)
               end) components 0%nat fresh in
          (reduce_chain fsms, fresh)
      end
  | Action name _ =>
      ([Object fresh (with_name (VStr name) (new_state "action" path))], S fresh)
  | Function exec _ =>
      ([Object fresh (with_exec exec (new_state "function" path))], S fresh)
  | Literal v _ =>
      ([Object fresh (with_value v (new_state "literal" path))], S fresh)
  | Finally body finalizer _ =>
      let (body, fresh) := compile body (path ++ ":1") fresh in
      let (finalizer, fresh) := compile finalizer (path ++ ":2") fresh in
      let try_ := Object fresh
                    (with_catch (first_ref finalizer) (new_state "try" path)) in
      let exit_ := Object (S fresh) (new_state "exit" path) in
      (reduce_chain [[try_]; body; [exit_]; finalizer], S (S fresh))
  | Let declarations body =>
      let (body, fresh) := compile body (path ++ ":1") fresh in
      let let_ := Object fresh (with_let declarations (new_state "let" path)) in
      let exit_ := Object (S fresh) (new_state "exit" path) in
      (reduce_chain [[let_]; body; [exit_]], S (S fresh))
  | Retain body options =>
      let (body, fresh) := compile body (path ++ ":1") fresh in
      let push := Object fresh (new_state "push" path) in
      let pop := Object (S fresh)
                   (with_collect (VBool true) (new_state "pop" path)) in
      let fsm := reduce_chain [[push]; body; [pop]] in
      (if truthy (option_of options "field")
       then set_first_field (option_of options "field") fsm
       else fsm, S (S fresh))
  | Try body handler _ =>
      let (body, fresh) := compile body (path ++ ":1") fresh in
      let (handler, fresh) := compile handler (path ++ ":2") fresh in
      let handler := chain handler [Object fresh (new_state "pass" path)] in
      let try_ := Object (S fresh)
                    (with_catch (first_ref handler) (new_state "try" path)) in
      let fsm := reduce_chain [[try_]; body] in
      let fsm := set_last_next (last_ref handler) fsm in
      ((fsm ++ handler)%list, S (S fresh))
  | If test consequent alternate options =>
      let nosave := truthy (option_of options "nosave") in
      let (consequent, fresh) := compile consequent (path ++ ":2") fresh in
      let (alternate, fresh) := compile alternate (path ++ ":3") fresh in
      let alternate := chain alternate [Object fresh (new_state "pass" path)] in
      let fresh := S fresh in
      let (consequent, fresh) :=
        if negb nosave
        then (chain [Object fresh (new_state "pop" path)] consequent, S fresh)
        else (consequent, fresh) in
      let (alternate, fresh) :=
        if negb nosave
        then (chain [Object fresh (new_state "pop" path)] alternate, S fresh)
        else (alternate, fresh) in
      let (test, fresh) := compile test (path ++ ":1") fresh in
      let choice := Object fresh
                      (with_then_else (first_ref consequent) (first_ref alternate)
                         (new_state "choice" path)) in
      let fsm := chain test [choice] in
      let fresh := S fresh in
      let (fsm, fresh) :=
        if negb nosave
        then (chain [Object fresh (new_state "push" path)] fsm, S fresh)
        else (fsm, fresh) in
      let consequent := set_last_next (last_ref alternate) consequent in
      (((fsm ++ consequent) ++ alternate)%list, fresh)
  | While test body options =>
      let nosave := truthy (option_of options "nosave") in
      let (consequent, fresh) := compile body (path ++ ":2") fresh in
      let alternate := [Object fresh (new_state "pass" path)] in
      let fresh := S fresh in
      let (consequent, fresh) :=
        if negb nosave
        then (chain [Object fresh (new_state "pop" path)] consequent, S fresh)
        else (consequent, fresh) in
      let (alternate, fresh) :=
        if negb nosave
        then (chain [Object fresh (new_state "pop" path)] alternate, S fresh)
        else (alternate, fresh) in
      let (test, fresh) := compile test (path ++ ":1") fresh in
      let choice := Object fresh
                      (with_then_else (first_ref consequent) (first_ref alternate)
                         (new_state "choice" path)) in
      let fsm := chain test [choice] in
      let fresh := S fresh in
      let (fsm, fresh) :=
        if negb nosave
        then (chain [Object fresh (new_state "push" path)] fsm, S fresh)
        else (fsm, fresh) in
      let consequent := set_last_next (first_ref fsm) consequent in
      (((fsm ++ consequent) ++ alternate)%list, fresh)
  end.

(** [fsm.states.indexOf(o)] for the object of identity [a] *)
Fixpoint indexOf (a : Z) (states : list object) : Z :=
  match states with
  | [] => -1
  | o :: rest =>
      if a =? Z.of_nat (address o) then 0
      else let i := indexOf a rest in if i <? 0 then -1 else i + 1
  end.

(** [if (state[key].type) state[key] = fsm.states.indexOf(state[key])] for a
    key that holds a reference: the [type] of a state object is a string
    that is not empty. *)
Definition link_ref (states : list object) (r : option Z) : option Z :=
  option_map (fun a => indexOf a states) r.

(** The same for a key that the state has and that holds something else:
    [undefined.type] and [null.type] throw.  What has a truthy [type] is
    taken for a state object, and is in no place of [fsm.states]. *)
Definition link_held (v : value) : res value :=
  t <- getprop v "type" ;;
  if truthy t then Ok (VNum (Int (-1))) else Ok v.

(** The same for a key that the state has only with a truthy value;
    [VUndef] is a key that the state does not have. *)
Definition link_value (v : value) : res value :=
  if is_undefined v then Ok v else link_held v.

(** The pass over the keys of a state.  [compile] gives a state the key of
    its type, [name] to an [action], [exec] to a [function], [value] to a
    [literal] and [let] to a [let], with whatever the composition has
    there; [field] and [collect] are set to a truthy value or not at
    all. *)
Definition link (states : list object) (o : object) : res fsm_state :=
  let s := content o in
  let of_type (ty : string) :=
    if String.eqb (type s) ty then link_held else link_value in
  name <- of_type "action" (name s) ;;
  exec <- of_type "function" (exec s) ;;
  v <- of_type "literal" (value_ s) ;;
  l <- of_type "let" (let_ s) ;;
  field <- link_value (field s) ;;
  collect <- link_value (collect s) ;;
  Ok (State (type s) (path s)
            (link_ref states (next s)) (link_ref states (then_ s))
            (link_ref states (else_ s)) (link_ref states (catch s))
            name exec v l field collect).

Fixpoint link_all (states : list object) (l : list object)
  : res (list fsm_state) :=
  match l with
  | [] => Ok []
  | o :: rest =>
      s <- link states o ;;
      more <- link_all states rest ;;
      Ok (s :: more)
  end.

(** [__init__(composition)]: the [states] of the FSM it returns. *)
Definition __init__ (composition : composition) : res (list fsm_state) :=
  let states := fst (compile composition "" 0%nat) in
  link_all states states.

(** An absolute index read from a state, [undefined] when it is not set. *)
Definition target (index : option Z) : value :=
  match index with
  | Some k => VNum (Int k)
  | None => VUndef
  end.

Section Interpreter.

Variable user_eval :
  value -> value -> list (string * value) -> completion * list (string * value).

(** [__composition__.states] *)
Variable states : list fsm_state.

(** [__composition__.states[state]]: the state whose index has the property
    key of [state]; [None] is [undefined]. *)
Definition state_at (state : value) : option fsm_state :=
  match find (fun i => String.eqb (to_string state) (index_key i))
             (seq 0 (List.length states)) with
  | Some i => nth_error states i
  | None => None
  end.

Definition state_text (current : value) : string :=
  "State " ++ to_string current.

Definition function_result (current : value) (c : completion) : value :=
  let result :=
    match c with
    | Threw =>
        VObj [("error", VStr ("An exception was caught at state "
                               ++ to_string current
                               ++ " (see log for details)"))]
    | Returned result _ => result
    end in
  if String.eqb (typeof result) "function"
  then VObj [("error", VStr (state_text current ++ " evaluated to a function"))]
  else result.

Definition function_params (current : value) (c : completion) (params : value)
  : res value :=
  let result := function_result current c in
  json_clone (if is_undefined result then params_after c params else result).

(** The [switch (json.type)] of [invoke], with [state] already set to
    [json.next].  The frame of a [let] state holds [json.let] itself, and
    [set] writes into it; the params of a [literal] state are [json.value]
    itself, and user code can write into them: what these writes do to the
    FSM is not modelled. *)
Definition dispatch (json : fsm_state) (current : value) (m : machine) : res turn :=
  let ty := type json in
  if String.eqb ty "choice" then
    v <- getprop (params m) "value" ;;
    Ok (Continue (Machine (target (if strict_true v then then_ json else else_ json))
                          (stack m) (params m)))
  else if String.eqb ty "try" then
    Ok (Continue (Machine (state m)
                          (VObj [("catch", target (catch json))] :: stack m)
                          (params m)))
  else if String.eqb ty "let" then
    Ok (Continue (Machine (state m) (VObj [("let", let_ json)] :: stack m)
                          (params m)))
  else if String.eqb ty "exit" then
    match stack m with
    | [] => Fail (BadRequest (state_text current
                                ++ " attempted to pop from an empty stack"))
    | _ :: rest => Ok (Continue (Machine (state m) rest (params m)))
    end
  else if String.eqb ty "push" then
    if negb (is_undefined (field json))
       && negb (String.eqb (typeof (field json)) "string")
    then Fail (BadRequest (state_text current ++ " is invalid"))
    else
      saved <- (if truthy (field json)
                then getprop (params m) (to_string (field json))
                else Ok (params m)) ;;
      frame <- json_clone (VObj [("params", saved)]) ;;
      Ok (Continue (Machine (state m) (frame :: stack m) (params m)))
  else if String.eqb ty "pop" then
    match stack m with
    | [] => Fail (BadRequest (state_text current
                                ++ " attempted to pop from an empty stack"))
    | frame :: rest =>
        if negb (is_undefined (collect json))
           && negb (String.eqb (typeof (collect json)) "boolean")
        then Fail (BadRequest (state_text current ++ " is invalid"))
        else
          saved <- getprop frame "params" ;;
          Ok (Continue (Machine (state m) rest
                          (if truthy (collect json)
                           then VObj [("params", saved); ("result", params m)]
                           else saved)))
    end
  else if String.eqb ty "action" then
    if negb (String.eqb (typeof (name json)) "string")
    then Fail (BadRequest (state_text current ++ " specifies an invalid action"))
    else Ok (Return (continuation (name json) m))
  else if String.eqb ty "literal" then
    if is_undefined (value_ json)
    then Fail (BadRequest (state_text current ++ " specifies an invalid value"))
    else
      m' <- inspect (Machine (state m) (stack m) (value_ json)) ;;
      Ok (Continue m')
  else if String.eqb ty "function" then
    f <- getprop (exec json) "exec" ;;
    if negb (String.eqb (typeof f) "string")
    then Fail (BadRequest (state_text current ++ " specifies an invalid function"))
    else
      let (c, stack') := run user_eval f m in
      p <- function_params current c (params m) ;;
      m' <- inspect (Machine (state m) stack' p) ;;
      Ok (Continue m')
  else if String.eqb ty "pass" then
    m' <- inspect m ;;
    Ok (Continue m')
  else Fail (BadRequest (state_text current ++ " has an unknown type")).

(** One turn of [while (true)]. *)
Definition iteration (m : machine) : res turn :=
  if is_undefined (state m) then
    v <- final (params m) ;;
    Ok (Return v)
  else
    match state_at (state m) with
    | None => Fail (BadRequest (state_text (state m) ++ " definition is missing"))
    | Some json =>
        dispatch json (state m) (Machine (target (next json)) (stack m) (params m))
    end.

Fixpoint loop (fuel : nat) (m : machine) : option (res value) :=
  match fuel with
  | O => None
  | S fuel =>
      match iteration m with
      | Ok (Continue m') => loop fuel m'
      | Ok (Return v) => Some (Ok v)
      | Fail f => Some (Fail f)
      end
  end.

(** The beginning of [invoke]. *)
Definition resume (params : value) : res machine :=
  r <- getprop params "$resume" ;;
  if negb (is_undefined r) then
    if negb (isObject r) then
      Fail (BadRequest "The type of optional $resume parameter must be object")
    else
      state <- getprop r "state" ;;
      stack <- getprop r "stack" ;;
      match stack with
      | VArr frames => inspect (Machine state frames (delete_resume params))
      | _ => Fail (BadRequest "The type of $resume.stack must be an array")
      end
  else Ok (Machine (VNum (Int 0)) [] params).

Definition invoke (fuel : nat) (params : value) : option (res value) :=
  match resume params with
  | Ok m => loop fuel m
  | Fail f => Some (Fail f)
  end.

(** [Promise.resolve().then(() => invoke(params)).catch(internalError)] *)
Definition main (fuel : nat) (params : value) : option outcome :=
  match invoke fuel params with
  | None => None
  | Some (Ok v) => Some (Resolved v)
  | Some (Fail f) => Some (encodeError f)
  end.

End Interpreter.

(** The action that [named] makes: [main(params)] for the [__composition__]
    that [__init__] gave.  When [__init__] throws, the action does not
    load. *)
Definition action
  (user_eval : value -> value -> list (string * value)
               -> completion * list (string * value))
  (composition : composition) (fuel : nat) (params : value)
  : option outcome :=
  match __init__ composition with
  | Fail _ => None
  | Ok states => main user_eval states fuel params
  end.

End Main.

(** * [encodeError] on the value that a promise is rejected with *)

(** [encodeError(error)]:
    [{ code: typeof error.code === 'number' && error.code || 500,
       error: (typeof error.error === 'string' && error.error) || error.message
              || (typeof error === 'string' && error) || 'An internal error occurred' }] *)
Definition encode (error : value) : res value :=
  code <- getprop error "code" ;;
  text <- getprop error "error" ;;
  message <- getprop error "message" ;;
  Ok (VObj [("code", if is_number code && truthy code then code
                     else VNum (Int 500));
            ("error",
             if String.eqb (typeof text) "string" && truthy text then text
             else if truthy message then message
             else if String.eqb (typeof error) "string" && truthy error then error
             else VStr "An internal error occurred")]).

(** [badRequest(error)] and [internalError(error)]: what the promise is
    rejected with. *)
Definition badRequest (error : string) : value :=
  VObj [("code", VNum (Int 400)); ("error", VStr error)].

Definition internalError (error : value) : res value := encode error.

(** The object of an outcome that is a rejection with a text. *)
Definition rejected_with (o : outcome) : option value :=
  match o with
  | Rejected code (Text s) => Some (VObj [("code", VNum (Int code)); ("error", VStr s)])
  | _ => None
  end.

(** * The builder *)

Module Composer.

(** What a builder function gives: a result, or a [ComposerError] with its
    message (the argument that the error shows is not kept). *)
Inductive attempt (A : Type) : Type :=
| Built (a : A)
| ComposerError (message : string).
Arguments Built {A} a.
Arguments ComposerError {A} message.

Definition and_then {A B : Type} (m : attempt A) (k : A -> attempt B) : attempt B :=
  match m with
  | Built a => k a
  | ComposerError message => ComposerError message
  end.

Notation "x <-- m ;; k" := (and_then m (fun x => k))
  (at level 61, m at next level, right associativity).

(** [validate(options)]: [JSON.stringify] of a plain object is ['{}'] when
    no property of it has a JSON text. *)
Definition validate (options : value) : attempt value :=
  match options with
  | VUndef => Built VUndef
  | VObj props =>
      match json_copy (VObj props) with
      | VObj [] => Built VUndef
      | copy => Built copy
      end
  | _ => ComposerError "Invalid options"
  end.

(** An instance of [Composition]: [this.composition] and [this.actions]
    (no [actions] property is the empty list). *)
Record Composition : Type := {
  json : composition;
  actions : list value
}.

(** [new Composition(composition)] for an array of [Composition]: each is
    replaced by its [composition] and its actions are hoisted, the
    components that are arrays are spliced in, and an array of one
    component is that component. *)
Definition of_array (components : list Composition) : Composition :=
  let flat := flat_map (fun c => match json c with
                                 | Sequence l => l
                                 | component => [component]
                                 end) components in
  {| json := match flat with
             | [component] => component
             | _ => Sequence flat
             end;
     actions := flat_map actions components |}.

(** What a builder function is called with: a JS value or an instance of
    [Composition]. *)
Inductive operand : Type :=
| Value (v : value)
| Made (c : Composition).

(** [exec.indexOf('[native code]') !== -1] *)
Definition native (source : string) : bool :=
  match String.index 0 "[native code]" source with
  | Some _ => true
  | None => false
  end.

(** [function(exec, options)] *)
Definition function_ (exec options : value) : attempt Composition :=
  exec <-- match exec with
           | VFun source =>
               if native source
               then ComposerError "Cannot capture native function"
               else Built (VStr source)
           | _ => Built exec
           end ;;
  let exec := match exec with
              | VStr code =>
                  VObj [("kind", VStr "nodejs:default"); ("exec", VStr code)]
              | _ => exec
              end in
  match exec with
  | VArr _ | VObj _ =>
      options <-- validate options ;;
      Built {| json := Function exec options; actions := [] |}
  | _ => ComposerError "Invalid argument"
  end.

(** [action(name)], called without options as [task] calls it: no action
    is defined with the composition. *)
Definition action (name : value) : attempt Composition :=
  match name with
  | VStr name => Built {| json := Action name VUndef; actions := [] |}
  | _ => ComposerError "Invalid argument"
  end.

(** [task(obj)] *)
Definition task (obj : operand) : attempt Composition :=
  match obj with
  | Value VUndef | Value VNull => Built (of_array [])
  | Made c => Built c
  | Value (VFun source) => function_ (VFun source) VUndef
  | Value (VStr name) => action (VStr name)
  | Value _ => ComposerError "Invalid argument"
  end.

(** [Array.prototype.map.call(arguments, obj => this.task(obj))]: the first
    argument that [task] refuses ends the call. *)
Fixpoint tasks (args : list operand) : attempt (list Composition) :=
  match args with
  | [] => Built []
  | obj :: rest =>
      c <-- task obj ;;
      more <-- tasks rest ;;
      Built (c :: more)
  end.

(** [sequence(...args)], also [seq] *)
Definition sequence (args : list operand) : attempt Composition :=
  components <-- tasks args ;;
  Built (of_array components).

(** [if(test, consequent, alternate, options)] *)
Definition if_ (test consequent alternate : operand) (options : value)
  : attempt Composition :=
  test <-- task test ;;
  consequent <-- task consequent ;;
  alternate <-- task alternate ;;
  options <-- validate options ;;
  Built {| json := If (json test) (json consequent) (json alternate) options;
           actions := actions test ++ actions consequent ++ actions alternate |}.

(** [while(test, body, options)] *)
Definition while (test body : operand) (options : value) : attempt Composition :=
  test <-- task test ;;
  body <-- task body ;;
  options <-- validate options ;;
  Built {| json := While (json test) (json body) options;
           actions := actions test ++ actions body |}.

(** [try(body, handler, options)] *)
Definition try_ (body handler : operand) (options : value) : attempt Composition :=
  body <-- task body ;;
  handler <-- task handler ;;
  options <-- validate options ;;
  Built {| json := Try (json body) (json handler) options;
           actions := actions body ++ actions handler |}.

(** [finally(body, finalizer, options)] *)
Definition finally (body finalizer : operand) (options : value)
  : attempt Composition :=
  body <-- task body ;;
  finalizer <-- task finalizer ;;
  options <-- validate options ;;
  Built {| json := Finally (json body) (json finalizer) options;
           actions := actions body ++ actions finalizer |}.

(** [let(declarations, ...body)] *)
Definition let_ (declarations : value) (body : list operand)
  : attempt Composition :=
  match declarations with
  | VArr _ | VObj _ =>
      body <-- sequence body ;;
      Built {| json := Let (json_copy declarations) (json body);
               actions := actions body |}
  | _ => ComposerError "Invalid argument"
  end.

(** [literal(value, options)] *)
Definition literal (v options : value) : attempt Composition :=
  match v with
  | VFun _ => ComposerError "Invalid argument"
  | _ =>
      options <-- validate options ;;
      Built {| json := Literal (if is_undefined v then VObj [] else json_copy v)
                               options;
               actions := [] |}
  end.

End Composer.

(** * Notions used in the statements and in the proofs *)

(** A property name that is no index of an array or of a string. *)
Definition no_index (k : string) : Prop :=
  String.eqb k "length" = false /\ forall i, String.eqb k (index_key i) = false.


(** The induction principle that reaches the components of a sequence. *)
Section composition_ind_nested.
Variable P : composition -> Prop.
Hypothesis Hsequence : forall components, Forall P components -> P (Sequence components).
Hypothesis Haction : forall name options, P (Action name options).
Hypothesis Hfunction : forall exec options, P (Function exec options).
Hypothesis Hliteral : forall v options, P (Literal v options).
Hypothesis Hfinally : forall body finalizer options,
    P body -> P finalizer -> P (Finally body finalizer options).
Hypothesis Hlet : forall declarations body, P body -> P (Let declarations body).
Hypothesis Hretain : forall body options, P body -> P (Retain body options).
Hypothesis Htry : forall body handler options,
    P body -> P handler -> P (Try body handler options).
Hypothesis Hif : forall test consequent alternate options,
    P test -> P consequent -> P alternate -> P (If test consequent alternate options).
Hypothesis Hwhile : forall test body options,
    P test -> P body -> P (While test body options).

Fixpoint composition_ind_nested (json : composition) : P json :=
  match json with
  | Sequence components =>
      Hsequence ((fix go (l : list composition) : Forall P l :=
                    match l with
                    | [] => Forall_nil _
                    | x :: r => Forall_cons _ (composition_ind_nested x) (go r)
                    end) components)
  | Action name options => Haction name options
  | Function exec options => Hfunction exec options
  | Literal v options => Hliteral v options
  | Finally body finalizer options =>
      Hfinally options (composition_ind_nested body) (composition_ind_nested finalizer)
  | Let declarations body => Hlet declarations (composition_ind_nested body)
  | Retain body options => Hretain options (composition_ind_nested body)
  | Try body handler options =>
      Htry options (composition_ind_nested body) (composition_ind_nested handler)
  | If test consequent alternate options =>
      Hif options (composition_ind_nested test) (composition_ind_nested consequent)
        (composition_ind_nested alternate)
  | While test body options =>
      Hwhile options (composition_ind_nested test) (composition_ind_nested body)
  end.
End composition_ind_nested.

(** A frame as the interpreter makes it: an object whose [catch], when it
    has one, is a number. *)
Definition is_frame (frame : value) : bool :=
  match frame with
  | VObj props =>
      match lookup "catch" props with
      | VUndef | VNum _ => true
      | _ => false
      end
  | _ => false
  end.

(** [frame.catch] where it can be read. *)
Definition catch_of (frame : value) : value :=
  match getprop frame "catch" with
  | Ok c => c
  | Fail _ => VUndef
  end.

(** The [catch] of the last frame of the stack, [undefined] on the empty
    stack: what the loop of [inspect] leaves in [state] when it breaks on
    no frame. *)
Definition last_catch (frames : list value) : value :=
  last (map catch_of frames) VUndef.

(** The frames that [inspect] removes and the state it ends in, on a stack
    of frames: up to the first frame whose [catch] is a number. *)
Fixpoint handler_of (stack : list value) : value * list value :=
  match stack with
  | [] => (VUndef, [])
  | frame :: rest =>
      match frame with
      | VObj props =>
          match lookup "catch" props with
          | VNum n => (VNum n, rest)
          | _ => handler_of rest
          end
      | _ => handler_of rest
      end
  end.

Definition has_key (k : string) (props : list (string * value)) : bool :=
  existsb (fun kv => String.eqb k (fst kv)) props.

(** An object has each key once. *)
Fixpoint unique_keys (props : list (string * value)) : bool :=
  match props with
  | [] => true
  | (k, _) :: r => negb (has_key k r) && unique_keys r
  end.

(** A frame whose [let], when it has one, is an object. *)
Definition is_let_frame (frame : value) : bool :=
  match frame with
  | VObj fprops =>
      match lookup "let" fprops with
      | VUndef => true
      | VObj l => unique_keys l
      | _ => false
      end
  | _ => false
  end.

(** The [let] map of a frame that has one. *)
Definition bindings (frame : value) : option (list (string * value)) :=
  match frame with
  | VObj fprops =>
      match lookup "let" fprops with
      | VObj l => Some l
      | _ => None
      end
  | _ => None
  end.

(** The frame declares the name: its [let] map has a defined value for it. *)
Definition declares (n : string) (frame : value) : bool :=
  match bindings frame with
  | Some l => negb (is_undefined (lookup n l))
  | None => false
  end.





Definition addresses (states : list Main.object) : list nat :=
  map Main.address states.

(** The identities of the state objects that one call of [compile] makes:
    at least one object, identities all different, each at least the first
    fresh one and below the next fresh one. *)
Definition fresh_between (n n' : nat) (states : list Main.object) : Prop :=
  (n <= n')%nat
  /\ states <> []
  /\ NoDup (addresses states)
  /\ forall a, In a (addresses states) -> (n <= a < n')%nat.

(** [json.map((json, index) => compile(json, path + ':' + index))], with the
    fresh identities passed along. *)
Definition map_compile (path : string) :=
  fix map_compile (l : list composition) (index fresh : nat)
    : list (list Main.object) * nat :=
    match l with
    | [] => ([], fresh)
    | json :: r =>
        let (fsm, fresh) :=
          Main.compile json (path ++ ":" ++ index_key index) fresh in
        let (fsms, fresh) := map_compile r (S index) fresh in
        (fsm :: fsms, fresh)
    end.

(** A frame as the interpreter keeps it: an object whose [catch], when it
    has one, is a number and whose [let], when it has one, is an object. *)
Definition is_stack_frame (frame : value) : bool :=
  is_frame frame && is_let_frame frame.

(** A [let] state whose declarations are an object. *)
Definition declares_object (json : fsm_state) : Prop :=
  type json = "let" -> exists l, let_ json = VObj l /\ unique_keys l = true.

(** Two frames with the same [catch] and the same [params]. *)
Definition same_but_let (frame frame' : value) : Prop :=
  getprop frame "catch" = getprop frame' "catch"
  /\ getprop frame "params" = getprop frame' "params".

(** The normal form of the compositions that the builder makes: no
    sequence is a component of a sequence, and no sequence has exactly one
    component. *)
Definition is_sequence (json : composition) : bool :=
  match json with Sequence _ => true | _ => false end.

Fixpoint normal (json : composition) : bool :=
  match json with
  | Sequence components =>
      negb (List.length components =? 1)%nat
      && forallb (fun component => negb (is_sequence component) && normal component)
                 components
  | Action _ _ | Function _ _ | Literal _ _ => true
  | Finally body finalizer _ => normal body && normal finalizer
  | Let _ body => normal body
  | Retain body _ => normal body
  | Try body handler _ => normal body && normal handler
  | If test consequent alternate _ =>
      normal test && normal consequent && normal alternate
  | While test body _ => normal test && normal body
  end.

Definition normal_operand (obj : Composer.operand) : bool :=
  match obj with
  | Composer.Made c => normal (Composer.json c)
  | Composer.Value _ => true
  end.

(** The components that the constructor of [Composition] takes from one
    element of an array. *)
Definition spliced (c : Composer.Composition) : list composition :=
  match Composer.json c with
  | Sequence l => l
  | component => [component]
  end.

Definition atom (json : composition) : bool :=
  negb (is_sequence json) && normal json.

(** A call of one of the functions of the builder, what it is given as a
    task, and what it returns. *)
Inductive call : Type :=
| Task (obj : Composer.operand)
| SequenceOf (args : list Composer.operand)
| IfOf (test consequent alternate : Composer.operand) (options : value)
| WhileOf (test body : Composer.operand) (options : value)
| TryOf (body handler : Composer.operand) (options : value)
| FinallyOf (body finalizer : Composer.operand) (options : value)
| LetOf (declarations : value) (body : list Composer.operand)
| LiteralOf (v options : value)
| FunctionOf (exec options : value)
| ActionOf (name : value).

Definition operands (c : call) : list Composer.operand :=
  match c with
  | Task obj => [obj]
  | SequenceOf args => args
  | IfOf test consequent alternate _ => [test; consequent; alternate]
  | WhileOf test body _ => [test; body]
  | TryOf body handler _ => [body; handler]
  | FinallyOf body finalizer _ => [body; finalizer]
  | LetOf _ body => body
  | LiteralOf _ _ | FunctionOf _ _ | ActionOf _ => []
  end.

Definition made (c : call) : Composer.attempt Composer.Composition :=
  match c with
  | Task obj => Composer.task obj
  | SequenceOf args => Composer.sequence args
  | IfOf test consequent alternate options =>
      Composer.if_ test consequent alternate options
  | WhileOf test body options => Composer.while test body options
  | TryOf body handler options => Composer.try_ body handler options
  | FinallyOf body finalizer options => Composer.finally body finalizer options
  | LetOf declarations body => Composer.let_ declarations body
  | LiteralOf v options => Composer.literal v options
  | FunctionOf exec options => Composer.function_ exec options
  | ActionOf name => Composer.action name
  end.

(** ** The two compilers side by side *)

(** The identity [n] is at the index [k] of the identities [A]. *)
Definition at_index (A : list nat) (k : Z) (n : nat) : Prop :=
  exists before after,
    A = (before ++ n :: after)%list /\ k = Z.of_nat (List.length before).

(** A reference of [composer.js] and an offset of the [conductor] function,
    both read in the state of index [i], lead to the same state: the
    reference is the identity of the object at the index [i + offset]. *)
Definition refers (A : list nat) (i : nat) (reference offset : option Z) : Prop :=
  match reference, offset with
  | None, None => True
  | Some a, Some d => exists n, a = Z.of_nat n /\ at_index A (Z.of_nat i + d) n
  | _, _ => False
  end.

(** The properties of a state that are no jumps. *)
Definition payload (s : fsm_state) : list value :=
  [name s; exec s; value_ s; let_ s; field s; collect s].

(** The state object [o] of [composer.js], before [__init__] replaces its
    references, against the state [s] of the [conductor] function at the
    index [i]; [good] is what is asked of the payload. *)
Definition state_ok (good : value -> Prop) (A : list nat) (i : nat)
  (o : Main.object) (s : fsm_state) : Prop :=
  type (Main.content o) = type s
  /\ payload (Main.content o) = payload s
  /\ Forall good (payload s)
  /\ refers A i (next (Main.content o)) (next s)
  /\ refers A i (then_ (Main.content o)) (then_ s)
  /\ refers A i (else_ (Main.content o)) (else_ s)
  /\ refers A i (catch (Main.content o)) (catch s).

Fixpoint block_ok (good : value -> Prop) (A : list nat) (k : nat)
  (objects : list Main.object) (fsm : list fsm_state) : Prop :=
  match objects, fsm with
  | [], [] => True
  | o :: objects, s :: fsm =>
      state_ok good A k o s /\ block_ok good A (S k) objects fsm
  | _, _ => False
  end.

(** The identities of [objects] are in [A] from the index [k] on. *)
Definition block_at (A : list nat) (k : nat) (objects : list Main.object) : Prop :=
  exists before after,
    A = (before ++ addresses objects ++ after)%list /\ k = List.length before.

(** A payload that the pass of [__init__] over the keys of a state leaves
    as it is: it is there, it is not [null], and it has no truthy [type]. *)
Definition linkable (v : value) : bool :=
  match v with
  | VUndef | VNull => false
  | _ =>
      match getprop v "type" with
      | Ok t => negb (truthy t)
      | Fail _ => false
      end
  end.

(** The payload that the type of a state gives it is one that the pass of
    [__init__] leaves as it is. *)
Definition held (s : fsm_state) : bool :=
  if String.eqb (type s) "action" then linkable (name s)
  else if String.eqb (type s) "function" then linkable (exec s)
  else if String.eqb (type s) "literal" then linkable (value_ s)
  else if String.eqb (type s) "let" then linkable (let_ s)
  else true.

(** The payloads that [compile] copies from a composition into the states. *)
Fixpoint payloads (good : value -> bool) (json : composition) : bool :=
  match json with
  | Sequence components => forallb (payloads good) components
  | Action _ _ => true
  | Function exec _ => good exec
  | Literal v _ => good v
  | Finally body finalizer _ => payloads good body && payloads good finalizer
  | Let declarations body => good declarations && payloads good body
  | Retain body options =>
      (if truthy (option_of options "field")
       then good (option_of options "field") else true)
      && payloads good body
  | Try body handler _ => payloads good body && payloads good handler
  | If test consequent alternate _ =>
      payloads good test && payloads good consequent && payloads good alternate
  | While test body _ => payloads good test && payloads good body
  end.

(** A state [a] of [__init__] against the state [r] of the [conductor]
    function at the same index [i]: the same type and payload, and each
    jump of [a] is the index [i + d] for the offset [d] of [r]. *)
Definition absolute (i : nat) (offset : option Z) : option Z :=
  option_map (fun d => Z.of_nat i + d) offset.

Definition same_state (i : nat) (r a : fsm_state) : Prop :=
  type a = type r /\ payload a = payload r
  /\ next a = absolute i (next r) /\ then_ a = absolute i (then_ r)
  /\ else_ a = absolute i (else_ r) /\ catch a = absolute i (catch r).

(** The jumps of the state at the index [i] stay inside an FSM of [n]
    states. *)
Definition inside (n : nat) (i : nat) (offset : option Z) : bool :=
  match offset with
  | None => true
  | Some d => (0 <=? Z.of_nat i + d) && (Z.of_nat i + d <? Z.of_nat n)
  end.

Definition jumps_inside (n i : nat) (s : fsm_state) : bool :=
  inside n i (next s) && inside n i (then_ s)
  && inside n i (else_ s) && inside n i (catch s).

(** Every jump of every state of [fsm] stays inside [fsm]. *)
Definition all_inside (fsm : list fsm_state) : bool :=
  forallb (fun p => jumps_inside (List.length fsm) (fst p) (snd p))
          (combine (seq 0 (List.length fsm)) fsm).

(** [json.map((json, index) => compile(json, path + '[' + index + ']'))] of
    the [conductor] function. *)
Definition conductor_map (path : string) :=
  fix map_compile (l : list composition) (index : nat) : list (list fsm_state) :=
    match l with
    | [] => []
    | json :: r =>
        Conductor.compile json (path ++ "[" ++ index_key index ++ "]")
        :: map_compile r (S index)
    end.

(** The block that [compile] of [composer.js] made against the block of
    the [conductor] function: the states correspond, with the references
    read in the block itself, and the blocks are not empty. *)
Definition related (good : value -> Prop)
  (objects : list Main.object) (fsm : list fsm_state) : Prop :=
  block_ok good (addresses objects) 0 objects fsm
  /\ List.length objects = List.length fsm
  /\ (0 < List.length fsm)%nat.

(** ** The machine inside the FSM *)

(** The state is [undefined] or the index of a state of an FSM of [n]
    states. *)
Definition state_inside (n : nat) (state : value) : bool :=
  match state with
  | VUndef => true
  | VNum (Int k) => (0 <=? k) && (k <? Z.of_nat n)
  | _ => false
  end.

(** The [catch] of a frame, when it has one, is the index of a state. *)
Definition handler_inside (n : nat) (frame : value) : bool :=
  match getprop frame "catch" with
  | Ok c => state_inside n c
  | Fail _ => false
  end.

Definition machine_inside (n : nat) (m : machine) : bool :=
  state_inside n (state m)
  && forallb is_stack_frame (stack m)
  && forallb (handler_inside n) (stack m).

(** The types that the [switch] of [invoke] knows. *)
Definition known_type (json : fsm_state) : bool :=
  existsb (String.eqb (type json))
          ["choice"; "try"; "let"; "exit"; "push"; "pop"; "action"; "literal";
           "function"; "pass"].

Definition defined (jump : option Z) : bool :=
  match jump with Some _ => true | None => false end.

(** A state of a known type that has the jumps that [invoke] reads for its
    type: [then] and [else] for a [choice], [catch] for a [try]. *)
Definition well_formed (json : fsm_state) : bool :=
  known_type json
  && (if String.eqb (type json) "choice"
      then defined (then_ json) && defined (else_ json) else true)
  && (if String.eqb (type json) "try" then defined (catch json) else true).

(** ** The successors of the states *)

(** A state that names its successor: a [choice] by [then] and [else],
    another state by [next]. *)
Definition has_successor (s : fsm_state) : bool :=
  if String.eqb (type s) "choice" then defined (then_ s) && defined (else_ s)
  else defined (next s).

(** Every state but the last names its successor; the last has no [next]
    and is no [choice]. *)
Definition ends_at_last (fsm : list fsm_state) : Prop :=
  exists front last,
    fsm = (front ++ [last])%list
    /\ forallb has_successor front = true
    /\ next last = None
    /\ String.eqb (type last) "choice" = false.

(** * Data for the examples *)

(** User code that throws at once and leaves the environment as it is. *)
Definition no_user_code (f params : value) (env : list (string * value))
  : completion * list (string * value) :=
  (Threw, env).


(** User code that returns nothing and leaves [env'] as the environment. *)
Definition assigns (env' : list (string * value)) (f params : value)
  (env : list (string * value)) : completion * list (string * value) :=
  (Returned VUndef params, env').


Definition num (z : Z) : value := VNum (Int z).

(** [composer.if(composer.literal({ value: 1 }), composer.literal('yes'), composer.literal('no'))] *)
Definition if_one : composition :=
  If (Literal (VObj [("value", num 1)]) VUndef)
     (Literal (VStr "yes") VUndef) (Literal (VStr "no") VUndef) VUndef.

(** [composer.sequence(composer.literal({}), if_one)]: its state 3 is the
    [choice]. *)
Definition literal_then_if : composition :=
  Sequence [Literal (VObj []) VUndef; if_one].

(** [composer.let({}, composer.action('a'))]: its state 2 is the [exit]. *)
Definition let_action : composition :=
  Let (VObj []) (Action "a" VUndef).

(** [{ $resume: { state, stack } }] *)
Definition resume_at (state : value) (stack : list value) : value :=
  VObj [("$resume", VObj [("state", state); ("stack", VArr stack)])].

Definition choice_state : fsm_state :=
  with_then_else (Some 1) (Some 3) (new_state "choice" "").

Definition exit_state : fsm_state := with_next (Some 1) (new_state "exit" "").


(** [composer.literal({ error: '' })] *)
Definition literal_error_empty : composition :=
  Literal (VObj [("error", VStr "")]) VUndef.

(** [composer.retain(composer.literal({ y: 2 }))] *)
Definition retain_literal : composition :=
  Retain (Literal (VObj [("y", num 2)]) VUndef) VUndef.

(** [composer.try(composer.action('a'), composer.literal({ handled: true }))]:
    its state 1 is the action and its state 2 the handler. *)
Definition try_action : composition :=
  Try (Action "a" VUndef) (Literal (VObj [("handled", VBool true)]) VUndef) VUndef.




Definition two_lets : list value :=
  [VObj [("let", VObj [("x", num 1)])];
   VObj [("catch", num 3)];
   VObj [("let", VObj [("x", num 0); ("y", num 2)])]].

(** [composer.while(composer.literal(1), composer.literal(2))] *)
Definition while_literals : composition :=
  While (Literal (num 1) VUndef) (Literal (num 2) VUndef) VUndef.

Definition jumps (s : fsm_state) : string * option Z * option Z * option Z :=
  (type s, next s, then_ s, else_ s).

Definition let_state : fsm_state :=
  with_next (Some 1) (with_let (VObj [("x", num 1)]) (new_state "let" "")).

Definition push_state : fsm_state := with_next (Some 1) (new_state "push" "").

Definition pop_state : fsm_state := with_next (Some 1) (new_state "pop" "").

Definition action_state : fsm_state :=
  with_next (Some 1) (with_name (VStr "echo") (new_state "action" "")).

(** * Properties *)

(** ** The [choice] state *)

Ltac case_of Hty :=
  unfold Conductor.dispatch, Main.dispatch; rewrite Hty; cbn [String.eqb Ascii.eqb Bool.eqb].

Lemma conductor_state_at_defined fsm st current json :
  Conductor.state_at fsm st = Some (current, json) -> is_undefined st = false.
Proof. destruct st; simpl; congruence. Qed.

(** C1, as the code has it.  On a [choice] state the [conductor] function
    goes to [current + json.then] when [params.value] is truthy and to
    [current + json.else] otherwise; [main] of [composer.js] goes to the
    index [json.then] when [params.value === true] and to the index
    [json.else] otherwise. *)
Theorem choice_branch :
  forall user_eval fsm states (m : machine) v,
    getprop (params m) "value" = Ok v ->
    (forall current json t e,
        Conductor.state_at fsm (state m) = Some (current, json) ->
        type json = "choice" -> then_ json = Some t -> else_ json = Some e ->
        Conductor.iteration user_eval fsm m
        = Ok (Continue (Machine (VNum (Int (current + (if truthy v then t else e))))
                                (stack m) (params m))))
    /\ (forall json t e,
           is_undefined (state m) = false ->
           Main.state_at states (state m) = Some json ->
           type json = "choice" -> then_ json = Some t -> else_ json = Some e ->
           Main.iteration user_eval states m
           = Ok (Continue (Machine (VNum (Int (if strict_true v then t else e)))
                                   (stack m) (params m)))).
Proof.
  intros ue fsm states m v Hv. split.
  - intros current json t e Hat Hty Ht He.
    unfold Conductor.iteration.
    rewrite (conductor_state_at_defined _ _ Hat), Hat.
    case_of Hty. cbn [params stack]. rewrite Hv, Ht, He. simpl.
    destruct (truthy v); reflexivity.
  - intros json t e Hst Hat Hty Ht He.
    unfold Main.iteration. rewrite Hst, Hat.
    case_of Hty. cbn [params stack]. rewrite Hv, Ht, He. simpl.
    destruct (strict_true v); reflexivity.
Qed.

Lemma choice_branch_witness :
  Conductor.iteration no_user_code [choice_state]
    (Machine (num 0) [] (VObj [("value", num 1)]))
  = Ok (Continue (Machine (num 1) [] (VObj [("value", num 1)])))
  /\ Main.iteration no_user_code [choice_state]
       (Machine (num 0) [] (VObj [("value", num 1)]))
     = Ok (Continue (Machine (num 3) [] (VObj [("value", num 1)]))).
Proof.
  destruct (@choice_branch no_user_code [choice_state] [choice_state]
              (Machine (num 0) [] (VObj [("value", num 1)])) (num 1) eq_refl)
    as [Hconductor Hmain].
  split.
  - exact (Hconductor 0 choice_state 1 3 eq_refl eq_refl eq_refl eq_refl).
  - exact (Hmain choice_state 1 3 eq_refl eq_refl eq_refl eq_refl eq_refl).
Defined.

(** C1 as stated fails on [composer.js]: [params.value] is [1], truthy, the
    [choice] at index 3 has [then] at 4 and [else] at 6, and [main] goes to
    6, the [else] branch, which is neither [json.then] nor
    [current + json.then]; run from the start, the composition answers
    ["no"] where the [conductor] function answers ["yes"]. *)
Lemma choice_truthy_counterexample :
  truthy (num 1) = true
  /\ (exists states, Main.__init__ literal_then_if = Ok states
        /\ option_map jumps (nth_error states 3)
           = Some ("choice", None, Some 4, Some 6)
        /\ Main.iteration no_user_code states
             (Machine (num 3) [] (VObj [("value", num 1)]))
           = Ok (Continue (Machine (num 6) [] (VObj [("value", num 1)]))))
  /\ num 6 <> num 4 /\ num 6 <> num (3 + 4)
  /\ Main.action no_user_code literal_then_if 20 (VObj [])
     = Some (Resolved (VObj [("params", VObj [("value", VStr "no")])]))
  /\ Conductor.conductor no_user_code literal_then_if 20 (VObj [])
     = Some (Resolved (VObj [("params", VObj [("value", VStr "yes")])])).
Proof.
  split; [reflexivity|]. split.
  - eexists. split; [vm_compute; reflexivity|]. split; vm_compute; reflexivity.
  - repeat split; try discriminate; vm_compute; reflexivity.
Qed.

(** ** [exit] and [pop] *)

Lemma or_default_state_text s : or_default ("State " ++ s) = "State " ++ s.
Proof. reflexivity. Qed.

(** C2, as the code has it.  With an empty stack an [exit] or a [pop] state
    stops the invocation: the [conductor] function rejects through
    [internalError], with code 500; [main] of [composer.js] rejects through
    [badRequest], with code 400.  With a frame on the stack, [exit] removes
    that one frame and keeps the rest, [params] and the default next state,
    in both. *)
Theorem exit_pop_stack :
  forall user_eval fsm states (m : machine),
    (forall current json,
        stack m = [] ->
        Conductor.state_at fsm (state m) = Some (current, json) ->
        type json = "exit" \/ type json = "pop" ->
        exists error,
          Conductor.iteration user_eval fsm m = Fail (InternalError error)
          /\ encodeError (InternalError error) = Rejected 500 (Text error))
    /\ (forall json,
           stack m = [] ->
           is_undefined (state m) = false ->
           Main.state_at states (state m) = Some json ->
           type json = "exit" \/ type json = "pop" ->
           exists error,
             Main.iteration user_eval states m = Fail (BadRequest error)
             /\ encodeError (BadRequest error) = Rejected 400 (Text error))
    /\ (forall frame rest current json,
           stack m = frame :: rest ->
           Conductor.state_at fsm (state m) = Some (current, json) ->
           type json = "exit" ->
           Conductor.iteration user_eval fsm m
           = Ok (Continue (Machine (match next json with
                                    | None => VUndef
                                    | Some k => VNum (Int (current + k))
                                    end) rest (params m))))
    /\ (forall frame rest json,
           stack m = frame :: rest ->
           is_undefined (state m) = false ->
           Main.state_at states (state m) = Some json ->
           type json = "exit" ->
           Main.iteration user_eval states m
           = Ok (Continue (Machine (Main.target (next json)) rest (params m)))).
Proof.
  intros ue fsm states m. repeat split.
  - intros current json Hstack Hat Hty.
    unfold Conductor.iteration.
    rewrite (conductor_state_at_defined _ _ Hat), Hat.
    destruct Hty as [Hty|Hty]; case_of Hty; cbn [stack]; rewrite Hstack;
      eexists; split; try reflexivity; apply f_equal, f_equal, or_default_state_text.
  - intros json Hstack Hst Hat Hty.
    unfold Main.iteration. rewrite Hst, Hat.
    destruct Hty as [Hty|Hty]; case_of Hty; cbn [stack]; rewrite Hstack;
      eexists; split; try reflexivity; apply f_equal, f_equal, or_default_state_text.
  - intros frame rest current json Hstack Hat Hty.
    unfold Conductor.iteration.
    rewrite (conductor_state_at_defined _ _ Hat), Hat.
    case_of Hty. cbn [stack state params]. rewrite Hstack. reflexivity.
  - intros frame rest json Hstack Hst Hat Hty.
    unfold Main.iteration. rewrite Hst, Hat.
    case_of Hty. cbn [stack state params]. rewrite Hstack. reflexivity.
Qed.

Lemma exit_pop_stack_witness :
  (exists error,
      Conductor.iteration no_user_code [exit_state] (Machine (num 0) [] (VObj []))
      = Fail (InternalError error)
      /\ encodeError (InternalError error) = Rejected 500 (Text error))
  /\ (exists error,
         Main.iteration no_user_code [exit_state] (Machine (num 0) [] (VObj []))
         = Fail (BadRequest error)
         /\ encodeError (BadRequest error) = Rejected 400 (Text error))
  /\ Conductor.iteration no_user_code [exit_state]
       (Machine (num 0) [VObj [("let", VObj [])]; VObj [("catch", num 7)]] (VObj []))
     = Ok (Continue (Machine (num 1) [VObj [("catch", num 7)]] (VObj [])))
  /\ Main.iteration no_user_code [exit_state]
       (Machine (num 0) [VObj [("let", VObj [])]; VObj [("catch", num 7)]] (VObj []))
     = Ok (Continue (Machine (num 1) [VObj [("catch", num 7)]] (VObj []))).
Proof.
  destruct (@exit_pop_stack no_user_code [exit_state] [exit_state]
              (Machine (num 0) [] (VObj []))) as (Hc & Hm & _).
  destruct (@exit_pop_stack no_user_code [exit_state] [exit_state]
              (Machine (num 0) [VObj [("let", VObj [])]; VObj [("catch", num 7)]]
                       (VObj []))) as (_ & _ & Hc' & Hm').
  split; [exact (Hc 0 exit_state eq_refl eq_refl (or_introl eq_refl))|].
  split; [exact (Hm exit_state eq_refl eq_refl eq_refl (or_introl eq_refl))|].
  split.
  - exact (Hc' _ _ 0 exit_state eq_refl eq_refl eq_refl).
  - exact (Hm' _ _ exit_state eq_refl eq_refl eq_refl eq_refl).
Defined.

(** C2 as stated fails on [composer.js]: resumed at its [exit] state with an
    empty stack, [main] rejects with code 400, where the [conductor]
    function rejects with code 500. *)
Lemma exit_empty_stack_counterexample :
  (exists json, Main.__init__ let_action = Ok json
      /\ option_map type (nth_error json 2) = Some "exit")
  /\ Main.action no_user_code let_action 10 (resume_at (num 2) [])
     = Some (Rejected 400 (Text "State 2 attempted to pop from an empty stack"))
  /\ ~ (400 >= 500)
  /\ Conductor.conductor no_user_code let_action 10 (resume_at (num 2) [])
     = Some (Rejected 500 (Text "State 2 attempted to pop from an empty stack")).
Proof.
  split; [eexists; split; vm_compute; reflexivity|].
  split; [vm_compute; reflexivity|].
  split; [lia|]. vm_compute; reflexivity.
Qed.

(** ** [inspect] *)

Lemma unwind_frames frames :
  forallb is_frame frames = true ->
  forall st, is_number st = false ->
    unwind st frames = Ok (match frames with
                           | [] => (st, [])
                           | _ => handler_of frames
                           end).
Proof.
  induction frames as [|frame rest IH]; intros Hwf st Hst; [reflexivity|].
  simpl in Hwf. apply andb_prop in Hwf. destruct Hwf as [Hf Hrest].
  destruct frame; try discriminate. simpl in *.
  destruct (lookup "catch" props) eqn:Hc; try discriminate; simpl.
  - rewrite (IH Hrest VUndef eq_refl). destruct rest; reflexivity.
  - reflexivity.
Qed.

Lemma unwind_undefined frames :
  forallb is_frame frames = true -> unwind VUndef frames = Ok (handler_of frames).
Proof.
  intros Hwf. rewrite (unwind_frames _ Hwf VUndef eq_refl).
  destruct frames; reflexivity.
Qed.

(** What [inspect] does to an object with a defined [error], on a stack of
    frames. *)
Lemma inspect_error st frames props :
  forallb is_frame frames = true ->
  is_undefined (lookup "error" props) = false ->
  inspect (Machine st frames (VObj props))
  = Ok (Machine (fst (handler_of frames)) (snd (handler_of frames))
                (VObj [("error", lookup "error" props)])).
Proof.
  intros Hwf He. unfold inspect. cbn [params isObject getprop bind stack].
  rewrite He. cbn [negb]. rewrite (unwind_undefined _ Hwf). reflexivity.
Qed.

(** [handler_of] removes the frames before the first numeric [catch], that
    frame too, and nothing else. *)
Lemma handler_of_found pre props n post :
  Forall (fun f => forall p, f = VObj p -> is_number (lookup "catch" p) = false) pre ->
  lookup "catch" props = VNum n ->
  handler_of (pre ++ VObj props :: post) = (VNum n, post).
Proof.
  intros Hpre Hc. induction Hpre as [|f pre Hf _ IH]; simpl.
  - rewrite Hc. reflexivity.
  - destruct f; try exact IH.
    specialize (Hf _ eq_refl). destruct (lookup "catch" props0); try exact IH.
    discriminate.
Qed.

Lemma handler_of_none frames :
  Forall (fun f => forall p, f = VObj p -> is_number (lookup "catch" p) = false) frames ->
  handler_of frames = (VUndef, []).
Proof.
  intros H. induction H as [|f rest Hf _ IH]; simpl; [reflexivity|].
  destruct f; try exact IH.
  specialize (Hf _ eq_refl). destruct (lookup "catch" props); try exact IH.
  discriminate.
Qed.

(** The final state on what [inspect] leaves of an error. *)
Lemma final_error e :
  final (VObj [("error", e)])
  = Ok (if truthy e then VObj [("error", e)]
        else VObj [("params", VObj [("error", e)])]).
Proof. unfold final. simpl. destruct (truthy e); reflexivity. Qed.

(** C5 at the failing input.  The composition [literal({ error: '' })] run
    on [{}]: [inspect] takes the defined [error] for an error (it keeps
    only that field, sets the state to [undefined] and empties the stack),
    and the final state, which tests [params.error] for truthiness, returns
    the success result [{ params: { error: '' } }], not the terminal error
    [{ error: '' }]; the same in both variants. *)
Theorem falsy_error_returned_as_success :
  inspect (Machine (num 1) [VObj [("let", VObj [])]]
                   (VObj [("error", VStr ""); ("x", num 1)]))
  = Ok (Machine VUndef [] (VObj [("error", VStr "")]))
  /\ Conductor.conductor no_user_code literal_error_empty 2 (VObj [])
     = Some (Resolved (VObj [("params", VObj [("error", VStr "")])]))
  /\ Main.action no_user_code literal_error_empty 2 (VObj [])
     = Some (Resolved (VObj [("params", VObj [("error", VStr "")])])).
Proof. repeat split; vm_compute; reflexivity. Qed.

(** C10.  [inspect] unwinds on a defined [error] whatever its value, falsy
    or truthy: params keep only that field and the stack of frames is
    unwound to the nearest handler.  When there is no handler left the
    state is [undefined], and the next turn of the loop, in both variants,
    tests [params.error] for truthiness: a truthy error is returned as the
    terminal error [{ error }], a falsy one inside the success result
    [{ params: { error } }]. *)
Theorem falsy_error_unwinds_then_succeeds :
  forall user_eval fsm states st frames props,
    forallb is_frame frames = true ->
    is_undefined (lookup "error" props) = false ->
    let error := lookup "error" props in
    let unwound := Machine (fst (handler_of frames)) (snd (handler_of frames))
                           (VObj [("error", error)]) in
    inspect (Machine st frames (VObj props)) = Ok unwound
    /\ (fst (handler_of frames) = VUndef ->
        forall fuel,
          (truthy error = true ->
           Conductor.loop user_eval fsm (S fuel) unwound
           = Some (Ok (VObj [("error", error)]))
           /\ Main.loop user_eval states (S fuel) unwound
              = Some (Ok (VObj [("error", error)])))
          /\ (truthy error = false ->
              Conductor.loop user_eval fsm (S fuel) unwound
              = Some (Ok (VObj [("params", VObj [("error", error)])]))
              /\ Main.loop user_eval states (S fuel) unwound
                 = Some (Ok (VObj [("params", VObj [("error", error)])])))).
Proof.
  intros ue fsm states st frames props Hwf Hdef error unwound. split.
  - apply inspect_error; assumption.
  - intros Hnone fuel. subst unwound.
    assert (Hc : Conductor.iteration ue fsm
                   (Machine (fst (handler_of frames)) (snd (handler_of frames))
                            (VObj [("error", error)]))
                 = Ok (Return (if truthy error then VObj [("error", error)]
                               else VObj [("params", VObj [("error", error)])]))).
    { unfold Conductor.iteration. cbn [state params]. rewrite Hnone.
      cbn [is_undefined]. rewrite final_error. reflexivity. }
    assert (Hm : Main.iteration ue states
                   (Machine (fst (handler_of frames)) (snd (handler_of frames))
                            (VObj [("error", error)]))
                 = Ok (Return (if truthy error then VObj [("error", error)]
                               else VObj [("params", VObj [("error", error)])]))).
    { unfold Main.iteration. cbn [state params]. rewrite Hnone.
      cbn [is_undefined]. rewrite final_error. reflexivity. }
    cbn [Conductor.loop Main.loop]. rewrite Hc, Hm.
    split; intros ->; split; reflexivity.
Qed.

Lemma falsy_error_unwinds_then_succeeds_witness :
  let frames := [VObj [("params", VObj [])]; VObj [("let", VObj [])]] in
  (let unwound := Machine VUndef [] (VObj [("error", VBool false)]) in
   inspect (Machine (num 3) frames (VObj [("x", num 1); ("error", VBool false)]))
   = Ok unwound
   /\ Conductor.loop no_user_code [] 1 unwound
      = Some (Ok (VObj [("params", VObj [("error", VBool false)])]))
   /\ Main.loop no_user_code [] 1 unwound
      = Some (Ok (VObj [("params", VObj [("error", VBool false)])])))
  /\ (let unwound := Machine VUndef [] (VObj [("error", VStr "e")]) in
      inspect (Machine (num 3) frames (VObj [("x", num 1); ("error", VStr "e")]))
      = Ok unwound
      /\ Conductor.loop no_user_code [] 1 unwound
         = Some (Ok (VObj [("error", VStr "e")]))
      /\ Main.loop no_user_code [] 1 unwound
         = Some (Ok (VObj [("error", VStr "e")]))).
Proof.
  intros frames. split.
  - destruct (@falsy_error_unwinds_then_succeeds no_user_code [] [] (num 3) frames
                [("x", num 1); ("error", VBool false)] eq_refl eq_refl)
      as [Hinspect Hloop].
    split; [exact Hinspect|]. exact (proj2 (Hloop eq_refl 0%nat) eq_refl).
  - destruct (@falsy_error_unwinds_then_succeeds no_user_code [] [] (num 3) frames
                [("x", num 1); ("error", VStr "e")] eq_refl eq_refl)
      as [Hinspect Hloop].
    split; [exact Hinspect|]. exact (proj1 (Hloop eq_refl 0%nat) eq_refl).
Defined.

(** C6, as the code has it.  A second run of [inspect] changes nothing when
    params, after the first run, has no defined [error]; with a defined
    [error] the second run keeps params and unwinds once more, from an
    [undefined] state, the stack that the first run left. *)
Theorem inspect_twice :
  forall m m1,
    inspect m = Ok m1 ->
    (getprop (params m1) "error" = Ok VUndef -> inspect m1 = Ok m1)
    /\ (getprop (params m1) "error" <> Ok VUndef ->
        inspect m1
        = (r <- unwind VUndef (stack m1) ;;
           Ok (Machine (fst r) (snd r) (params m1)))).
Proof.
  intros m m1 H. unfold inspect in H.
  set (p := if isObject (params m) then params m else VObj [("value", params m)]) in H.
  assert (Hp : exists props, p = VObj props).
  { subst p. destruct (params m); simpl; eauto. }
  destruct Hp as [props Hp]. rewrite Hp in H. cbn [getprop bind] in H.
  destruct (is_undefined (lookup "error" props)) eqn:He; cbn [negb] in H.
  - inversion H; subst m1; clear H. cbn [params stack state getprop].
    split; intros He'.
    + unfold inspect. cbn [params stack state isObject getprop bind].
      rewrite He. reflexivity.
    + destruct (lookup "error" props); try discriminate. congruence.
  - destruct (unwind VUndef (stack m)) as [r|f]; [|discriminate].
    cbn [bind] in H. inversion H; subst m1; clear H.
    cbn [params stack state getprop].
    assert (Hl : lookup "error" [("error", lookup "error" props)] = lookup "error" props)
      by reflexivity.
    rewrite Hl. split; intros He'.
    + inversion He' as [He'']. rewrite He'' in He. discriminate.
    + unfold inspect. cbn [params stack state isObject getprop bind].
      rewrite Hl, He. reflexivity.
Qed.

Lemma inspect_twice_witness :
  inspect (Machine (num 1) [VObj [("catch", num 7)]] (VObj [("value", num 5)]))
  = Ok (Machine (num 1) [VObj [("catch", num 7)]] (VObj [("value", num 5)]))
  /\ inspect (Machine (num 7) [VObj [("catch", num 9)]] (VObj [("error", VStr "e")]))
     = Ok (Machine (num 9) [] (VObj [("error", VStr "e")])).
Proof.
  split.
  - exact (proj1 (@inspect_twice
                    (Machine (num 1) [VObj [("catch", num 7)]] (num 5))
                    (Machine (num 1) [VObj [("catch", num 7)]] (VObj [("value", num 5)]))
                    eq_refl) eq_refl).
  - refine (proj2 (@inspect_twice
                     (Machine (num 0) [VObj [("catch", num 7)]; VObj [("catch", num 9)]]
                              (VObj [("error", VStr "e"); ("x", num 1)]))
                     (Machine (num 7) [VObj [("catch", num 9)]] (VObj [("error", VStr "e")]))
                     eq_refl) _).
    discriminate.
Defined.

(** C6 as stated fails: with an error in params and one handler on the
    stack, the first run goes to the handler, at 7, and the second run,
    which finds the error again and no frame, sets the state to
    [undefined]. *)
Lemma inspect_not_idempotent_counterexample :
  let m := Machine (num 0) [VObj [("catch", num 7)]] (VObj [("error", VStr "e")]) in
  inspect m = Ok (Machine (num 7) [] (VObj [("error", VStr "e")]))
  /\ (r <- inspect m ;; inspect r)
     = Ok (Machine VUndef [] (VObj [("error", VStr "e")]))
  /\ (r <- inspect m ;; inspect r) <> inspect m.
Proof. repeat split; try reflexivity. discriminate. Qed.

(** ** [retain] *)

(** C4.  [retain(literal({ y: 2 }))] on [{ x: 1 }] returns, within four
    turns of the loop and in both variants,
    [{ params: { params: { x: 1 }, result: { y: 2 } } }]: the [push] state
    puts a copy of the input on the stack, the [literal] state makes
    [{ y: 2 }] the params, and the [pop] state, which collects, pairs the
    two and leaves no next state. *)
Theorem retain_literal_result :
  forall user_eval fuel,
    (4 <= fuel)%nat ->
    let input := VObj [("x", num 1)] in
    let saved := VObj [("params", input)] in
    let result := VObj [("y", num 2)] in
    let output := VObj [("params", input); ("result", result)] in
    let fsm := Conductor.compile retain_literal "" in
    map type fsm = ["push"; "literal"; "pop"]
    /\ Conductor.iteration user_eval fsm (Machine (num 0) [] input)
       = Ok (Continue (Machine (num 1) [saved] input))
    /\ Conductor.iteration user_eval fsm (Machine (num 1) [saved] input)
       = Ok (Continue (Machine (num 2) [saved] result))
    /\ Conductor.iteration user_eval fsm (Machine (num 2) [saved] result)
       = Ok (Continue (Machine VUndef [] output))
    /\ Conductor.conductor user_eval retain_literal fuel input
       = Some (Resolved (VObj [("params", output)]))
    /\ Main.action user_eval retain_literal fuel input
       = Some (Resolved (VObj [("params", output)])).
Proof.
  intros ue fuel Hfuel.
  destruct fuel as [|[|[|[|fuel]]]]; try lia.
  repeat split; reflexivity.
Qed.

Lemma retain_literal_result_witness :
  Conductor.conductor no_user_code retain_literal 4 (VObj [("x", num 1)])
  = Some (Resolved (VObj [("params", VObj [("params", VObj [("x", num 1)]);
                                           ("result", VObj [("y", num 2)])])]))
  /\ Main.action no_user_code retain_literal 4 (VObj [("x", num 1)])
     = Some (Resolved (VObj [("params", VObj [("params", VObj [("x", num 1)]);
                                              ("result", VObj [("y", num 2)])])])).
Proof.
  destruct (@retain_literal_result no_user_code 4 (le_n 4))
    as (_ & _ & _ & _ & Hconductor & Hmain).
  split; [exact Hconductor | exact Hmain].
Defined.

(** ** Resuming *)

Lemma index_key_not_resume i : String.eqb "$resume" (index_key i) = false.
Proof.
  unfold index_key, NilZero.string_of_uint.
  destruct (Nat.to_uint i); reflexivity.
Qed.

Lemma lookup_combine_resume keys items :
  Forall (fun k => String.eqb "$resume" k = false) keys ->
  lookup "$resume" (combine keys items) = VUndef.
Proof.
  intros H. revert items.
  induction H as [|k keys Hk _ IH]; intros [|x items];
    cbn [combine lookup]; try reflexivity.
  rewrite Hk. apply IH.
Qed.

Lemma lookup_indexed_resume items : lookup "$resume" (indexed items) = VUndef.
Proof.
  unfold indexed. apply lookup_combine_resume.
  apply Forall_forall. intros k Hk. apply in_map_iff in Hk.
  destruct Hk as (i & <- & _). apply index_key_not_resume.
Qed.

Lemma lookup_remove k props : lookup k (remove k props) = VUndef.
Proof.
  induction props as [|[k' v] props IH]; simpl; [reflexivity|].
  destruct (String.eqb k k') eqn:E; [exact IH|]. simpl. rewrite E. exact IH.
Qed.

(** Only an object has a defined [$resume]. *)
Lemma resume_defined_object p r :
  getprop p "$resume" = Ok r -> is_undefined r = false ->
  exists props, p = VObj props.
Proof.
  destruct p; simpl; intros H Hr; try discriminate;
    try (inversion H; subst r; discriminate); eauto;
    rewrite lookup_indexed_resume in H; inversion H; subst r; discriminate.
Qed.

Lemma last_cons (a : value) l d : last (a :: l) d = last l a.
Proof.
  revert a d. induction l as [|b l IH]; intros a d; [reflexivity|].
  change (last (a :: b :: l) d) with (last (b :: l) d). rewrite !(IH b). reflexivity.
Qed.

(** The loop of [inspect] over frames none of which has a number for
    [catch]: it ends on the empty stack with the last [catch] read. *)
Lemma unwind_no_handler front :
  Forall (fun frame => exists c, getprop frame "catch" = Ok c /\ is_number c = false)
         front ->
  forall s, unwind s front = Ok (last (map catch_of front) s, []).
Proof.
  induction 1 as [|frame front (c & Hc & Hn) _ IH]; intros s; [reflexivity|].
  cbn [unwind map]. rewrite Hc. cbn [bind]. rewrite Hn, (IH c), last_cons.
  unfold catch_of. rewrite Hc. reflexivity.
Qed.

(** The loop of [inspect] breaks on the first frame that has a number for
    [catch]. *)
Lemma unwind_to_handler front frame n behind :
  Forall (fun frame => exists c, getprop frame "catch" = Ok c /\ is_number c = false)
         front ->
  getprop frame "catch" = Ok (VNum n) ->
  forall s, unwind s (front ++ frame :: behind) = Ok (VNum n, behind).
Proof.
  intros Hfront Hcatch.
  induction Hfront as [|skipped front (c & Hc & Hn) _ IH]; intros s; cbn [app unwind].
  - rewrite Hcatch. reflexivity.
  - rewrite Hc. cbn [bind]. rewrite Hn. apply IH.
Qed.

Lemma lookup_remove_other k k' props :
  k <> k' -> lookup k (remove k' props) = lookup k props.
Proof.
  intros Hk. induction props as [|[k0 v] props IH]; cbn [remove lookup]; [reflexivity|].
  destruct (String.eqb_spec k' k0) as [->|Hk0]; cbn [lookup].
  - destruct (String.eqb_spec k k0) as [->|_]; [congruence|exact IH].
  - rewrite IH. reflexivity.
Qed.

(** C7.  When [params.$resume] is defined and is not a plain object, or its
    [stack] is not an array, [main] resolves to a 400 result with a string
    for [error], whatever the fuel: no turn of the loop is taken.  When it
    is a plain object with an array for [stack] (and, in the [conductor]
    function, a [state] that is a number or [undefined]), params is an
    object, [delete] takes [$resume] from it and leaves every other field,
    and the loop starts from what [inspect] makes of the restored state and
    stack: with no [error] in params, from the state and the stack of
    [$resume] and params without [$resume]; with an [error], from the
    [catch] of the first frame that has a number there, the frames behind
    it, and params [{ error }], or, when no frame has one, from the empty
    stack with the [catch] read last for the state.  An exception of
    [inspect] ends the invocation.  The [conductor] function answers 400
    also to a [state] that is neither a number nor [undefined]. *)
Theorem resume_validation :
  forall user_eval fsm states p r,
    getprop p "$resume" = Ok r ->
    is_undefined r = false ->
    (isObject r = false \/ (forall frames, getprop r "stack" <> Ok (VArr frames)) ->
     (exists error, forall fuel,
         Conductor.main user_eval fsm fuel p = Some (Rejected 400 (Text error)))
     /\ (exists error, forall fuel,
            Main.main user_eval states fuel p = Some (Rejected 400 (Text error))))
    /\ (forall st frames,
           isObject r = true ->
           getprop r "state" = Ok st ->
           getprop r "stack" = Ok (VArr frames) ->
           exists props,
             p = VObj props
             /\ delete_resume p = VObj (remove "$resume" props)
             /\ lookup "$resume" (remove "$resume" props) = VUndef
             /\ (forall k, k <> "$resume" ->
                           lookup k (remove "$resume" props) = lookup k props)
             /\ (forall restart,
                    inspect (Machine st frames (VObj (remove "$resume" props)))
                    = Ok restart ->
                    forall fuel,
                      (is_undefined st || is_number st = true ->
                       Conductor.invoke user_eval fsm fuel p
                       = Conductor.loop user_eval fsm fuel restart)
                      /\ Main.invoke user_eval states fuel p
                         = Main.loop user_eval states fuel restart)
             /\ (forall thrown,
                    inspect (Machine st frames (VObj (remove "$resume" props)))
                    = Fail thrown ->
                    forall fuel,
                      (is_undefined st || is_number st = true ->
                       Conductor.invoke user_eval fsm fuel p = Some (Fail thrown))
                      /\ Main.invoke user_eval states fuel p = Some (Fail thrown))
             /\ (is_undefined (lookup "error" props) = true ->
                 inspect (Machine st frames (VObj (remove "$resume" props)))
                 = Ok (Machine st frames (VObj (remove "$resume" props))))
             /\ (is_undefined (lookup "error" props) = false ->
                 forall front,
                   Forall (fun frame => exists c, getprop frame "catch" = Ok c
                                                  /\ is_number c = false) front ->
                   (forall handler n behind,
                       frames = (front ++ handler :: behind)%list ->
                       getprop handler "catch" = Ok (VNum n) ->
                       inspect (Machine st frames (VObj (remove "$resume" props)))
                       = Ok (Machine (VNum n) behind
                                     (VObj [("error", lookup "error" props)])))
                   /\ (frames = front ->
                       inspect (Machine st frames (VObj (remove "$resume" props)))
                       = Ok (Machine (last_catch front) []
                                     (VObj [("error", lookup "error" props)]))))
             /\ (is_undefined st || is_number st = false ->
                 exists error, forall fuel,
                   Conductor.main user_eval fsm fuel p
                   = Some (Rejected 400 (Text error)))).
Proof.
  intros ue fsm states p r Hr Hdef. split.
  - intros Hbad.
    unfold Conductor.main, Main.main, Conductor.invoke, Main.invoke,
      Conductor.resume, Main.resume.
    rewrite Hr. cbn [bind]. rewrite Hdef. cbn [negb].
    destruct (isObject r) eqn:Hobj; cbn [negb].
    + destruct Hbad as [Hbad|Hbad]; [discriminate|].
      destruct r; try discriminate. cbn [getprop bind] in *.
      destruct (lookup "stack" props) eqn:Hstack;
        try (exfalso; eapply Hbad; reflexivity);
        (split; [destruct (negb (is_undefined (lookup "state" props))
                           && negb (is_number (lookup "state" props)))|];
         eexists; intros fuel; reflexivity).
    + split; eexists; intros fuel; reflexivity.
  - intros st frames Hobj Hst Hstack.
    destruct (resume_defined_object _ Hr Hdef) as [props ->].
    assert (Herror : lookup "error" (remove "$resume" props) = lookup "error" props)
      by (apply lookup_remove_other; discriminate).
    exists props. split; [reflexivity|]. split; [reflexivity|].
    split; [apply lookup_remove|]. split; [intros k Hk; apply lookup_remove_other, Hk|].
    split; [|split; [|split; [|split]]].
    + intros restart Hrestart fuel.
      unfold Conductor.invoke, Main.invoke, Conductor.resume, Main.resume.
      rewrite Hr. cbn [bind]. rewrite Hdef, Hobj, Hst. cbn [negb bind].
      rewrite Hstack. cbn [bind delete_resume]. rewrite Hrestart.
      split; [|reflexivity].
      intros Hnum. apply orb_prop in Hnum.
      destruct Hnum as [Hnum|Hnum]; rewrite Hnum; cbn [negb andb];
        [reflexivity | rewrite andb_false_r; reflexivity].
    + intros thrown Hthrown fuel.
      unfold Conductor.invoke, Main.invoke, Conductor.resume, Main.resume.
      rewrite Hr. cbn [bind]. rewrite Hdef, Hobj, Hst. cbn [negb bind].
      rewrite Hstack. cbn [bind delete_resume]. rewrite Hthrown.
      split; [|reflexivity].
      intros Hnum. apply orb_prop in Hnum.
      destruct Hnum as [Hnum|Hnum]; rewrite Hnum; cbn [negb andb];
        [reflexivity | rewrite andb_false_r; reflexivity].
    + intros Hnone. unfold inspect. cbn [params stack state isObject getprop bind].
      rewrite Herror, Hnone. reflexivity.
    + intros Hsome front Hfront. split.
      * intros handler n behind -> Hcatch.
        unfold inspect. cbn [params stack isObject getprop bind].
        rewrite Herror, Hsome. cbn [negb].
        rewrite (@unwind_to_handler front handler n behind Hfront Hcatch VUndef).
        reflexivity.
      * intros ->. unfold inspect. cbn [params stack isObject getprop bind].
        rewrite Herror, Hsome. cbn [negb].
        rewrite (@unwind_no_handler front Hfront VUndef). reflexivity.
    + intros Hnum. apply orb_false_elim in Hnum. destruct Hnum as [Hu Hn].
      eexists. intros fuel.
      unfold Conductor.main, Conductor.invoke, Conductor.resume.
      rewrite Hr. cbn [bind]. rewrite Hdef, Hobj, Hst. cbn [negb bind].
      rewrite Hstack. cbn [bind]. rewrite Hu, Hn. reflexivity.
Qed.

Lemma resume_validation_witness :
  let fsm := Conductor.compile try_action "" in
  let states := match Main.__init__ try_action with Ok states => states | Fail _ => [] end in
  let resume := VObj [("state", num 3); ("stack", VArr [VObj [("catch", num 2)]])] in
  (exists error, forall fuel,
      Conductor.main no_user_code fsm fuel (VObj [("$resume", VStr "abc")])
      = Some (Rejected 400 (Text error)))
  /\ (exists error, forall fuel,
         Main.main no_user_code states fuel
           (VObj [("$resume", VObj [("state", num 1); ("stack", num 5)])])
         = Some (Rejected 400 (Text error)))
  /\ Conductor.main no_user_code fsm 0 (VObj [("x", num 1)]) = None
  /\ Conductor.main no_user_code fsm 2 (VObj [("x", num 1)])
     = Some (Resolved (VObj [("action", VStr "a"); ("params", VObj [("x", num 1)]);
                             ("state", VObj [("$resume", resume)])]))
  /\ Conductor.invoke no_user_code fsm 3
       (VObj [("error", VStr "boom"); ("y", num 2); ("$resume", resume)])
     = Some (Ok (VObj [("params", VObj [("handled", VBool true)])]))
  /\ Main.invoke no_user_code states 3
       (VObj [("error", VStr "boom"); ("y", num 2); ("$resume", resume)])
     = Some (Ok (VObj [("params", VObj [("handled", VBool true)])]))
  /\ Conductor.invoke no_user_code fsm 3 (VObj [("y", num 2); ("$resume", resume)])
     = Some (Ok (VObj [("params", VObj [("y", num 2)])]))
  /\ Main.invoke no_user_code states 3 (VObj [("y", num 2); ("$resume", resume)])
     = Some (Ok (VObj [("params", VObj [("y", num 2)])])).
Proof.
  intros fsm states resume.
  split; [|split; [|split; [reflexivity|split; [reflexivity|]]]].
  - refine (proj1 (proj1 (@resume_validation no_user_code fsm states
                            (VObj [("$resume", VStr "abc")]) (VStr "abc")
                            eq_refl eq_refl) (or_introl eq_refl))).
  - refine (proj2 (proj1 (@resume_validation no_user_code fsm states
                            (VObj [("$resume", VObj [("state", num 1); ("stack", num 5)])])
                            (VObj [("state", num 1); ("stack", num 5)])
                            eq_refl eq_refl) (or_intror _))).
    intros frames. discriminate.
  - destruct (proj2 (@resume_validation no_user_code fsm states
                       (VObj [("error", VStr "boom"); ("y", num 2); ("$resume", resume)])
                       resume eq_refl eq_refl)
                (num 3) [VObj [("catch", num 2)]] eq_refl eq_refl eq_refl)
      as (props & Hprops & _ & _ & _ & Hloop & _ & _ & Hrouted & _).
    injection Hprops as <-.
    pose proof (proj1 (Hrouted eq_refl [] (@Forall_nil _ _))
                  (VObj [("catch", num 2)]) (Int 2) [] eq_refl eq_refl) as Hinspect.
    destruct (@resume_validation no_user_code fsm states
                (VObj [("y", num 2); ("$resume", resume)]) resume eq_refl eq_refl)
      as [_ Hwell].
    destruct (Hwell (num 3) [VObj [("catch", num 2)]] eq_refl eq_refl eq_refl)
      as (props' & Hprops' & _ & _ & _ & Hloop' & _ & Hrestored & _ & _).
    injection Hprops' as <-.
    pose proof (Hrestored eq_refl) as Hinspect'.
    split; [|split; [|split]].
    + rewrite (proj1 (Hloop _ Hinspect 3%nat) eq_refl). reflexivity.
    + rewrite (proj2 (Hloop _ Hinspect 3%nat)). reflexivity.
    + rewrite (proj1 (Hloop' _ Hinspect' 3%nat) eq_refl). reflexivity.
    + rewrite (proj2 (Hloop' _ Hinspect' 3%nat)). reflexivity.
Defined.

(** ** The [function] state *)

Lemma is_json_serializable v : is_json v = true -> unserializable v = false.
Proof. destruct v; simpl; congruence. Qed.

(** The clone of a JSON value is that value. *)
Lemma json_copy_json v : is_json v = true -> json_copy v = v.
Proof.
  induction v as [| |b|n|s|items IH|props IH|src] using value_ind_nested;
    simpl; intros Hj; try reflexivity; try discriminate.
  - destruct n; [reflexivity|discriminate].
  - f_equal. induction IH as [|x items Hx _ IHitems]; simpl in *; [reflexivity|].
    apply andb_prop in Hj. destruct Hj as [Hjx Hjr].
    rewrite (Hx Hjx), (IHitems Hjr). reflexivity.
  - f_equal. induction IH as [|[k x] props Hx _ IHprops]; simpl in *; [reflexivity|].
    apply andb_prop in Hj. destruct Hj as [Hjx Hjr].
    rewrite (is_json_serializable _ Hjx), (Hx Hjx), (IHprops Hjr). reflexivity.
Qed.

Lemma json_clone_json v : is_json v = true -> json_clone v = Ok v.
Proof.
  intros Hj. unfold json_clone.
  rewrite (is_json_serializable _ Hj), (json_copy_json _ Hj). reflexivity.
Qed.






(** ** The environment of user code *)

Lemma lookup_assign n k v a :
  lookup n (assign k v a) = if String.eqb n k then v else lookup n a.
Proof.
  induction a as [|[k' v'] a IH]; cbn [assign lookup]; [reflexivity|].
  destruct (String.eqb_spec k k') as [->|Hk]; cbn [lookup].
  - destruct (String.eqb n k'); reflexivity.
  - rewrite IH. destruct (String.eqb_spec n k') as [->|Hn]; [|reflexivity].
    destruct (String.eqb_spec k' k) as [->|_]; [congruence|reflexivity].
Qed.

Lemma lookup_without_key n props : has_key n props = false -> lookup n props = VUndef.
Proof.
  induction props as [|[k v] props IH]; cbn [has_key existsb lookup fst]; [reflexivity|].
  intros H. apply orb_false_elim in H. destruct H as [Hk Hr].
  rewrite Hk. apply IH, Hr.
Qed.



(** [set] on the topmost frame that declares the name. *)
Lemma set_topmost n v pre fprops l post :
  forallb is_let_frame pre = true ->
  Forall (fun frame => declares n frame = false) pre ->
  lookup "let" fprops = VObj l ->
  is_undefined (lookup n l) = false ->
  unserializable v = false ->
  set n v (pre ++ VObj fprops :: post)%list
  = Ok (pre ++ VObj (assign "let" (VObj (assign n (json_copy v) l)) fprops) :: post)%list.
Proof.
  intros Hwf Hpre Hlet Hdef Hv.
  induction Hpre as [|frame pre Hframe _ IH]; cbn [app set].
  - cbn [getprop bind]. rewrite Hlet. cbn [is_undefined getprop bind].
    rewrite Hdef. cbn [negb]. unfold json_clone. rewrite Hv. reflexivity.
  - cbn [forallb] in Hwf. apply andb_prop in Hwf. destruct Hwf as [Hf Hwf].
    destruct frame as [| | | | | |fp|]; try discriminate.
    cbn [is_let_frame] in Hf. unfold declares in Hframe. cbn [bindings] in Hframe.
    cbn [getprop bind].
    destruct (lookup "let" fp) as [| | | | | |lp|]; try discriminate;
      cbn [is_undefined getprop bind].
    + rewrite (IH Hwf). reflexivity.
    + apply negb_false_iff in Hframe. rewrite Hframe. cbn [negb].
      rewrite (IH Hwf). reflexivity.
Qed.

(** [set] when no frame declares the name. *)
Lemma set_undeclared n v frames :
  forallb is_let_frame frames = true ->
  Forall (fun frame => declares n frame = false) frames ->
  set n v frames = Ok frames.
Proof.
  intros Hwf Hnone.
  induction Hnone as [|frame frames Hframe _ IH]; [reflexivity|].
  cbn [forallb] in Hwf. apply andb_prop in Hwf. destruct Hwf as [Hf Hwf].
  destruct frame as [| | | | | |fp|]; try discriminate.
  cbn [is_let_frame] in Hf. unfold declares in Hframe. cbn [bindings] in Hframe.
  cbn [set getprop bind].
  destruct (lookup "let" fp) as [| | | | | |lp|]; try discriminate;
    cbn [is_undefined getprop bind].
  - rewrite (IH Hwf). reflexivity.
  - apply negb_false_iff in Hframe. rewrite Hframe. cbn [negb].
    rewrite (IH Hwf). reflexivity.
Qed.

Lemma has_key_assign k' k v l :
  has_key k' (assign k v l) = has_key k' l || String.eqb k' k.
Proof.
  induction l as [|[k0 v0] l IH]; cbn [assign has_key existsb fst].
  - rewrite orb_false_r. reflexivity.
  - destruct (String.eqb_spec k k0) as [->|Hk]; cbn [has_key existsb fst].
    + fold (has_key k' l). destruct (String.eqb k' k0), (has_key k' l); reflexivity.
    + fold (has_key k' (assign k v l)). rewrite IH. fold (has_key k' l).
      destruct (String.eqb k' k0), (has_key k' l), (String.eqb k' k); reflexivity.
Qed.

Lemma unique_keys_assign k v l :
  unique_keys l = true -> unique_keys (assign k v l) = true.
Proof.
  induction l as [|[k0 v0] l IH]; intros Hu; cbn [assign unique_keys]; [reflexivity|].
  cbn [unique_keys] in Hu. apply andb_prop in Hu. destruct Hu as [Hk0 Hu].
  destruct (String.eqb_spec k k0) as [->|Hk]; cbn [unique_keys].
  - rewrite Hk0, Hu. reflexivity.
  - rewrite has_key_assign, (IH Hu). apply negb_true_iff in Hk0. rewrite Hk0.
    destruct (String.eqb_spec k0 k) as [->|_]; [congruence|reflexivity].
Qed.












(** ** The compiler *)

Lemma conductor_set_last_next_length k fsm :
  List.length (Conductor.set_last_next k fsm) = List.length fsm.
Proof.
  induction fsm as [|s [|s' r] IH]; try reflexivity.
  change (S (List.length (Conductor.set_last_next k (s' :: r))) = S (List.length (s' :: r))).
  rewrite IH. reflexivity.
Qed.

Lemma conductor_chain_length front back :
  List.length (Conductor.chain front back)
  = (List.length front + List.length back)%nat.
Proof.
  unfold Conductor.chain. rewrite length_app, conductor_set_last_next_length. reflexivity.
Qed.

Lemma conductor_fold_chain_length others :
  forall first,
    (List.length first <= List.length (fold_left Conductor.chain others first))%nat.
Proof.
  induction others as [|fsm others IH]; intros first; cbn [fold_left]; [lia|].
  specialize (IH (Conductor.chain first fsm)).
  rewrite conductor_chain_length in IH. lia.
Qed.

Lemma conductor_set_first_catch_length c fsm :
  List.length (Conductor.set_first_catch c fsm) = List.length fsm.
Proof. destruct fsm; reflexivity. Qed.

Lemma conductor_set_first_field_length f fsm :
  List.length (Conductor.set_first_field f fsm) = List.length fsm.
Proof. destruct fsm; reflexivity. Qed.

(** [compile] gives at least one state, so that [chain] always finds a last
    state to link. *)
Lemma conductor_compile_not_nil json :
  forall path, (0 < List.length (Conductor.compile json path))%nat.
Proof.
  induction json as [components IH|name options|exec options|v options
                    |body finalizer options IHb IHf|declarations body IHb
                    |body options IHb|body handler options IHb IHh
                    |test consequent alternate options IHt IHc IHa
                    |test body options IHt IHb] using composition_ind_nested;
    intros path; cbn [Conductor.compile]; cbn [List.length]; try lia.
  - destruct components as [|json components]; [cbn; lia|].
    inversion IH as [|? ? Hjson _]; subst.
    cbn [Conductor.reduce_chain].
    eapply Nat.lt_le_trans; [apply Hjson|apply conductor_fold_chain_length].
  - rewrite conductor_set_first_catch_length. cbn [Conductor.reduce_chain fold_left].
    rewrite !conductor_chain_length. cbn [List.length]. lia.
  - cbn [Conductor.reduce_chain fold_left].
    rewrite !conductor_chain_length. cbn [List.length]. lia.
  - destruct (truthy (option_of options "field"));
      rewrite ?conductor_set_first_field_length;
      cbn [Conductor.reduce_chain fold_left];
      rewrite !conductor_chain_length; cbn [List.length]; lia.
  - rewrite length_app, conductor_chain_length. cbn [List.length]. lia.
  - rewrite !length_app.
    destruct (negb (truthy (option_of options "nosave")));
      rewrite ?conductor_chain_length; cbn [List.length]; lia.
  - rewrite !length_app.
    destruct (negb (truthy (option_of options "nosave")));
      rewrite ?conductor_chain_length; cbn [List.length]; lia.
Qed.

Lemma conductor_set_last_next_last k fsm :
  fsm <> [] ->
  exists s, nth_error (Conductor.set_last_next k fsm) (pred (List.length fsm)) = Some s
            /\ next s = Some k.
Proof.
  induction fsm as [|s [|s' r] IH]; intros Hne; [congruence| |].
  - eexists. split; reflexivity.
  - destruct IH as (last & Hnth & Hnext); [discriminate|].
    exists last. split; [exact Hnth|exact Hnext].
Qed.

(** The while block of the [conductor] function, when [nosave] is not set. *)
Lemma conductor_while_block test body options path :
  truthy (option_of options "nosave") = false ->
  let t := Conductor.compile test (path ++ ":test") in
  let b := Conductor.compile body (path ++ ".body") in
  let body' := with_next (Some 1) (new_state "pop" path) :: b in
  Conductor.compile (While test body options) path
  = ([with_next (Some 1) (new_state "push" path)]
       ++ Conductor.set_last_next 1 t
       ++ [with_then_else (Some 1) (Some (Conductor.len body' + 1))
             (new_state "choice" path)]
       ++ Conductor.set_last_next (- (Conductor.len t + Conductor.len body' + 1)) body'
       ++ [with_next (Some 1) (new_state "pop" path); new_state "pass" path])%list.
Proof.
  intros Hnosave t b body'. cbn [Conductor.compile]. rewrite Hnosave. cbn [negb].
  fold t b.
  change (Conductor.chain [new_state "pop" path] b) with body'.
  change (Conductor.chain [new_state "pop" path] [new_state "pass" path])
    with [with_next (Some 1) (new_state "pop" path); new_state "pass" path].
  set (choice := with_then_else (Some 1) (Some (Conductor.len body' + 1))
                   (new_state "choice" path)).
  change (Conductor.chain [new_state "push" path] (Conductor.chain t [choice]))
    with (with_next (Some 1) (new_state "push" path)
            :: (Conductor.set_last_next 1 t ++ [choice]))%list.
  assert (Hoffset :
            1 - Conductor.len (with_next (Some 1) (new_state "push" path)
                                 :: (Conductor.set_last_next 1 t ++ [choice]))%list
              - Conductor.len body'
            = - (Conductor.len t + Conductor.len body' + 1)).
  { unfold Conductor.len. cbn [List.length].
    rewrite length_app, conductor_set_last_next_length. cbn [List.length]. lia. }
  rewrite Hoffset. cbn [app]. rewrite <- !app_assoc. reflexivity.
Qed.

(** *** References and indices in [composer.js] *)

Lemma main_set_last_next_addresses r states :
  addresses (Main.set_last_next r states) = addresses states.
Proof.
  induction states as [|o [|o' rest] IH]; try reflexivity.
  change (Main.address o :: addresses (Main.set_last_next r (o' :: rest))
          = Main.address o :: addresses (o' :: rest)).
  rewrite IH. reflexivity.
Qed.

Lemma main_set_last_next_types r states :
  map (fun o => type (Main.content o)) (Main.set_last_next r states)
  = map (fun o => type (Main.content o)) states.
Proof.
  induction states as [|o [|o' rest] IH]; try reflexivity.
  change (type (Main.content o)
            :: map (fun o => type (Main.content o)) (Main.set_last_next r (o' :: rest))
          = type (Main.content o)
              :: map (fun o => type (Main.content o)) (o' :: rest)).
  rewrite IH. reflexivity.
Qed.

Lemma main_set_last_next_length r states :
  List.length (Main.set_last_next r states) = List.length states.
Proof.
  rewrite <- (length_map Main.address (Main.set_last_next r states)).
  fold (addresses (Main.set_last_next r states)).
  rewrite main_set_last_next_addresses. apply length_map.
Qed.

Lemma main_set_last_next_last r states :
  states <> [] ->
  exists o, nth_error (Main.set_last_next r states) (pred (List.length states)) = Some o
            /\ next (Main.content o) = r.
Proof.
  induction states as [|o [|o' rest] IH]; intros Hne; [congruence| |].
  - eexists. split; reflexivity.
  - destruct IH as (last & Hnth & Hnext); [discriminate|].
    exists last. split; [exact Hnth|exact Hnext].
Qed.

Lemma main_chain_addresses front back :
  addresses (Main.chain front back) = (addresses front ++ addresses back)%list.
Proof.
  unfold Main.chain, addresses. rewrite map_app.
  fold (addresses (Main.set_last_next (Main.first_ref back) front)).
  rewrite main_set_last_next_addresses. reflexivity.
Qed.

Lemma main_fold_chain_addresses others :
  forall first,
    addresses (fold_left Main.chain others first)
    = (addresses first ++ List.concat (map addresses others))%list.
Proof.
  induction others as [|fsm others IH]; intros first; cbn [fold_left map List.concat].
  - rewrite app_nil_r. reflexivity.
  - rewrite IH, main_chain_addresses, app_assoc. reflexivity.
Qed.

Lemma main_set_first_field_addresses f states :
  addresses (Main.set_first_field f states) = addresses states.
Proof. destruct states; reflexivity. Qed.

(** [indexOf] finds an object behind objects of other identities. *)
Lemma indexOf_app before o after :
  ~ In (Main.address o) (addresses before) ->
  Main.indexOf (Z.of_nat (Main.address o)) (before ++ o :: after)
  = Z.of_nat (List.length before).
Proof.
  induction before as [|o' before IH]; intros Hnot; cbn [app Main.indexOf].
  - rewrite Z.eqb_refl. reflexivity.
  - cbn [addresses map In] in Hnot.
    destruct (Z.eqb_spec (Z.of_nat (Main.address o)) (Z.of_nat (Main.address o')))
      as [Heq|_].
    + exfalso. apply Hnot. left. lia.
    + fold (addresses before) in Hnot. rewrite IH by tauto.
      destruct (Z.ltb_spec (Z.of_nat (List.length before)) 0); cbn [List.length]; lia.
Qed.

(** What [link_all] gives, state by state. *)
Lemma link_all_nth states l :
  forall out,
    Main.link_all states l = Ok out ->
    List.length out = List.length l
    /\ forall i o, nth_error l i = Some o ->
                   exists s, nth_error out i = Some s /\ Main.link states o = Ok s.
Proof.
  induction l as [|o l IH]; intros out H; cbn [Main.link_all] in H.
  - inversion H; subst. split; [reflexivity|]. intros [|i] o'; discriminate.
  - destruct (Main.link states o) as [s|] eqn:Hs; [|discriminate]. cbn [bind] in H.
    destruct (Main.link_all states l) as [more|] eqn:Hmore; [|discriminate].
    cbn [bind] in H. inversion H; subst out; clear H.
    destruct (IH more eq_refl) as [Hlen Hnth]. split; [cbn; rewrite Hlen; reflexivity|].
    intros [|i] o' Ho'; cbn [nth_error] in *.
    + inversion Ho'; subst o'. eauto.
    + apply Hnth, Ho'.
Qed.

Lemma link_jumps states o s :
  Main.link states o = Ok s ->
  type s = type (Main.content o)
  /\ next s = Main.link_ref states (next (Main.content o))
  /\ then_ s = Main.link_ref states (then_ (Main.content o))
  /\ else_ s = Main.link_ref states (else_ (Main.content o)).
Proof.
  unfold Main.link. intros H.
  repeat match type of H with
         | bind ?m _ = Ok _ => destruct m; cbn [bind] in H; [|discriminate]
         end.
  inversion H; subst s. repeat split; reflexivity.
Qed.

Lemma main_compile_sequence json components path fresh :
  Main.compile (Sequence (json :: components)) path fresh
  = let (fsms, fresh) := map_compile path (json :: components) 0 fresh in
    (Main.reduce_chain fsms, fresh).
Proof. reflexivity. Qed.

Ltac split_in :=
  repeat match goal with
         | H : In _ (_ ++ _) |- _ => apply in_app_or in H; destruct H as [H|H]
         | H : In _ (_ :: _) |- _ => destruct H as [H|H]
         | H : In _ [] |- _ => destruct H
         | H : In ?a (addresses ?l),
               Hr : forall a, In a (addresses ?l) -> _ |- _ => apply Hr in H
         | H : In ?a (List.concat (map addresses ?l)),
               Hr : forall a, In a (List.concat (map addresses ?l)) -> _ |- _ =>
             apply Hr in H
         end.

Ltac fresh_lists :=
  repeat first
    [ apply NoDup_nil
    | assumption
    | apply NoDup_cons; [intros ?Hin; split_in; lia|]
    | apply NoDup_app; [| |intros ?a ?Hin ?Hin'; split_in; lia] ].

Lemma addresses_app front back :
  addresses (front ++ back) = (addresses front ++ addresses back)%list.
Proof. apply map_app. Qed.

Lemma addresses_cons o states :
  addresses (o :: states) = Main.address o :: addresses states.
Proof. reflexivity. Qed.

Lemma addresses_nil : addresses [] = [].
Proof. reflexivity. Qed.

Create Rewrite HintDb addresses.
#[local] Hint Rewrite main_set_first_field_addresses main_chain_addresses
  main_set_last_next_addresses main_fold_chain_addresses
  addresses_app addresses_cons addresses_nil : addresses.

Ltac addresses_norm :=
  unfold Main.reduce_chain; cbn [fold_left];
  autorewrite with addresses; cbn [Main.address].

Lemma not_nil_addresses states : addresses states <> [] -> states <> [].
Proof. intros H ->. apply H. reflexivity. Qed.

Lemma map_compile_fresh path l :
  Forall (fun json => forall path n states n',
              Main.compile json path n = (states, n') -> fresh_between n n' states) l ->
  forall index n fsms n',
    map_compile path l index n = (fsms, n') ->
    (n <= n')%nat
    /\ (l <> [] -> addresses (Main.reduce_chain fsms) <> [])
    /\ NoDup (List.concat (map addresses fsms))
    /\ forall a, In a (List.concat (map addresses fsms)) -> (n <= a < n')%nat.
Proof.
  induction 1 as [|json l Hjson _ IH]; intros index n fsms n' H; cbn [map_compile] in H.
  - inversion H; subst. cbn [map List.concat]. repeat split; try lia; try congruence; try apply NoDup_nil; try contradiction.
  - destruct (Main.compile json (path ++ ":" ++ index_key index) n) as [fsm n1] eqn:Hfsm.
    destruct (map_compile path l (S index) n1) as [more n2] eqn:Hmore.
    inversion H; subst fsms n'; clear H.
    apply Hjson in Hfsm. destruct Hfsm as (Hle & Hne & Hnd & Hrange).
    destruct (IH _ _ _ _ Hmore) as (Hle' & _ & Hnd' & Hrange').
    cbn [map List.concat]. repeat split.
    + lia.
    + intros _. unfold Main.reduce_chain. rewrite main_fold_chain_addresses.
      destruct fsm; [congruence|discriminate].
    + fresh_lists.
    + split_in; lia.
    + split_in; lia.
Qed.

Ltac not_nil :=
  let H := fresh in
  intros H; apply (f_equal (@List.length nat)) in H;
  rewrite ?length_app in H; cbn [List.length] in H; lia.

Lemma main_compile_fresh json :
  forall path n states n',
    Main.compile json path n = (states, n') -> fresh_between n n' states.
Proof.
  induction json as [components IH|name options|exec options|v options
                    |body finalizer options IHb IHf|declarations body IHb
                    |body options IHb|body handler options IHb IHh
                    |test consequent alternate options IHt IHc IHa
                    |test body options IHt IHb] using composition_ind_nested;
    intros path n states n' H.
  - destruct components as [|json components].
    + cbn in H. inversion H; subst. unfold fresh_between. cbn.
      repeat split; try lia; try congruence; fresh_lists; split_in; lia.
    + rewrite main_compile_sequence in H.
      destruct (map_compile path (json :: components) 0 n) as [fsms n1] eqn:Hmap.
      apply pair_equal_spec in H; destruct H as [<- <-].
      destruct (map_compile_fresh path IH _ _ Hmap) as (Hle & Hne & Hnd & Hrange).
      assert (Haddr : addresses (Main.reduce_chain fsms) = List.concat (map addresses fsms)).
      { destruct fsms as [|first others]; [reflexivity|].
        unfold Main.reduce_chain. apply main_fold_chain_addresses. }
      unfold fresh_between. rewrite Haddr. repeat split; try assumption; try lia.
      * apply not_nil_addresses, Hne. discriminate.
      * apply Hrange in H. lia.
      * apply Hrange in H. lia.
  - cbn in H. inversion H; subst. unfold fresh_between. cbn.
    repeat split; try lia; try congruence; fresh_lists; split_in; lia.
  - cbn in H. inversion H; subst. unfold fresh_between. cbn.
    repeat split; try lia; try congruence; fresh_lists; split_in; lia.
  - cbn in H. inversion H; subst. unfold fresh_between. cbn.
    repeat split; try lia; try congruence; fresh_lists; split_in; lia.
  - cbn [Main.compile] in H.
    destruct (Main.compile body (path ++ ":1") n) as [b n1] eqn:Hb.
    destruct (Main.compile finalizer (path ++ ":2") n1) as [f n2] eqn:Hf.
    apply pair_equal_spec in H; destruct H as [<- <-].
    apply IHb in Hb. apply IHf in Hf.
    destruct Hb as (Hle1 & Hne1 & Hnd1 & Hr1). destruct Hf as (Hle2 & Hne2 & Hnd2 & Hr2).
    unfold fresh_between.
    split; [lia|]. split; [apply not_nil_addresses; addresses_norm; not_nil|].
    addresses_norm. split; [fresh_lists|intros a Ha; split_in; lia].
  - cbn [Main.compile] in H.
    destruct (Main.compile body (path ++ ":1") n) as [b n1] eqn:Hb.
    apply pair_equal_spec in H; destruct H as [<- <-].
    apply IHb in Hb. destruct Hb as (Hle1 & Hne1 & Hnd1 & Hr1).
    unfold fresh_between.
    split; [lia|]. split; [apply not_nil_addresses; addresses_norm; not_nil|].
    addresses_norm. split; [fresh_lists|intros a Ha; split_in; lia].
  - cbn [Main.compile] in H.
    destruct (Main.compile body (path ++ ":1") n) as [b n1] eqn:Hb.
    apply pair_equal_spec in H; destruct H as [<- <-].
    apply IHb in Hb. destruct Hb as (Hle1 & Hne1 & Hnd1 & Hr1).
    unfold fresh_between.
    split; [lia|].
    destruct (truthy (option_of options "field"));
      (split; [apply not_nil_addresses; addresses_norm; not_nil|]);
      addresses_norm; (split; [fresh_lists|intros a Ha; split_in; lia]).
  - cbn [Main.compile] in H.
    destruct (Main.compile body (path ++ ":1") n) as [b n1] eqn:Hb.
    destruct (Main.compile handler (path ++ ":2") n1) as [h n2] eqn:Hh.
    apply pair_equal_spec in H; destruct H as [<- <-].
    apply IHb in Hb. apply IHh in Hh.
    destruct Hb as (Hle1 & Hne1 & Hnd1 & Hr1). destruct Hh as (Hle2 & Hne2 & Hnd2 & Hr2).
    unfold fresh_between.
    split; [lia|]. split; [apply not_nil_addresses; addresses_norm; not_nil|].
    addresses_norm. split; [fresh_lists|intros a Ha; split_in; lia].
  - cbn [Main.compile] in H.
    destruct (Main.compile consequent (path ++ ":2") n) as [c n1] eqn:Hc.
    destruct (Main.compile alternate (path ++ ":3") n1) as [al n2] eqn:Ha.
    apply IHc in Hc. apply IHa in Ha.
    destruct Hc as (Hle1 & Hne1 & Hnd1 & Hr1). destruct Ha as (Hle2 & Hne2 & Hnd2 & Hr2).
    destruct (negb (truthy (option_of options "nosave")));
      match type of H with
      | context [Main.compile test ?p ?k] =>
          destruct (Main.compile test p k) as [t n3] eqn:Ht
      end;
      apply pair_equal_spec in H; destruct H as [<- <-];
      apply IHt in Ht; destruct Ht as (Hle3 & Hne3 & Hnd3 & Hr3);
      unfold fresh_between;
      (split; [lia|]);
      (split; [apply not_nil_addresses; addresses_norm; not_nil|]);
      addresses_norm; (split; [fresh_lists|intros a Hin; split_in; lia]).
  - cbn [Main.compile] in H.
    destruct (Main.compile body (path ++ ":2") n) as [b n1] eqn:Hb.
    apply IHb in Hb. destruct Hb as (Hle1 & Hne1 & Hnd1 & Hr1).
    destruct (negb (truthy (option_of options "nosave")));
      match type of H with
      | context [Main.compile test ?p ?k] =>
          destruct (Main.compile test p k) as [t n3] eqn:Ht
      end;
      apply pair_equal_spec in H; destruct H as [<- <-];
      apply IHt in Ht; destruct Ht as (Hle3 & Hne3 & Hnd3 & Hr3);
      unfold fresh_between;
      (split; [lia|]);
      (split; [apply not_nil_addresses; addresses_norm; not_nil|]);
      addresses_norm; (split; [fresh_lists|intros a Hin; split_in; lia]).
Qed.

(** The while block of [compile] in [composer.js], when [nosave] is not
    set: the same states in the same order, and the jumps hold the
    identities of the state objects they go to. *)
Lemma main_while_block test body options path fresh :
  truthy (option_of options "nosave") = false ->
  let (b, n1) := Main.compile body (path ++ ":2") fresh in
  let (t, n2) := Main.compile test (path ++ ":1") (S (S (S n1))) in
  let pass := Main.Object n1 (new_state "pass" path) in
  let pop_then := Main.Object (S n1)
                    (with_next (Main.first_ref b) (new_state "pop" path)) in
  let pop_else := Main.Object (S (S n1))
                    (with_next (Some (Z.of_nat n1)) (new_state "pop" path)) in
  let choice := Main.Object n2
                  (with_then_else (Some (Z.of_nat (S n1))) (Some (Z.of_nat (S (S n1))))
                     (new_state "choice" path)) in
  let fsm := (Main.set_last_next (Some (Z.of_nat n2)) t ++ [choice])%list in
  let push := Main.Object (S n2)
                (with_next (Main.first_ref fsm) (new_state "push" path)) in
  Main.compile (While test body options) path fresh
  = ((push :: fsm)
       ++ Main.set_last_next (Some (Z.of_nat (S n2))) (pop_then :: b)
       ++ [pop_else; pass],
     S (S n2))%list.
Proof.
  intros Hnosave. cbn [Main.compile]. rewrite Hnosave. cbn [negb].
  destruct (Main.compile body (path ++ ":2") fresh) as [b n1].
  destruct (Main.compile test (path ++ ":1") (S (S (S n1)))) as [t n2].
  cbv zeta. unfold Main.chain at 1 2 3 4.
  cbn [Main.set_last_next Main.first_ref Main.address Main.content app].
  rewrite <- !app_assoc. reflexivity.
Qed.

Lemma link_all_types states l :
  forall out,
    Main.link_all states l = Ok out ->
    map type out = map (fun o => type (Main.content o)) l.
Proof.
  induction l as [|o l IH]; intros out H; cbn [Main.link_all] in H.
  - inversion H. reflexivity.
  - destruct (Main.link states o) as [s|] eqn:Hs; [|discriminate]. cbn [bind] in H.
    destruct (Main.link_all states l) as [more|] eqn:Hmore; [|discriminate].
    cbn [bind] in H. inversion H; subst out; clear H. cbn [map].
    rewrite (IH more eq_refl). destruct (link_jumps _ _ Hs) as [-> _]. reflexivity.
Qed.

(** The while block of [composer.js] once [__init__] has put indices for
    the references: with [i] the index of the [choice], [then] is [i + 1],
    [else] is [i + (|body'| + 1)], and the [next] of the last state of
    [body'] is 0, the index of the [push]. *)
Lemma main_while_linked test body options states :
  truthy (option_of options "nosave") = false ->
  Main.__init__ (While test body options) = Ok states ->
  let b := fst (Main.compile body ":2" 0) in
  let n1 := snd (Main.compile body ":2" 0) in
  let t := fst (Main.compile test ":1" (S (S (S n1)))) in
  let i := S (List.length t) in
  let body' := S (List.length b) in
  map type states
  = ("push" :: map (fun o => type (Main.content o)) t
       ++ "choice" :: "pop" :: map (fun o => type (Main.content o)) b
       ++ ["pop"; "pass"])%list
  /\ exists choice last,
      nth_error states i = Some choice
      /\ then_ choice = Some (Z.of_nat i + 1)
      /\ else_ choice = Some (Z.of_nat i + (Z.of_nat body' + 1))
      /\ nth_error states (i + body') = Some last
      /\ next last = Some 0.
Proof.
  intros Hnosave Hinit b n1 t i body'.
  unfold Main.__init__ in Hinit.
  pose proof (@main_while_block test body options "" 0%nat Hnosave) as Hblock.
  change ("" ++ ":2") with ":2" in Hblock. change ("" ++ ":1") with ":1" in Hblock.
  pose proof (@main_compile_fresh body ":2" 0) as Hb.
  destruct (Main.compile body ":2" 0) as [b0 n10] eqn:Eb.
  specialize (Hb _ _ eq_refl). destruct Hb as (Hle1 & Hne1 & _ & Hr1).
  cbn [fst snd] in b, n1. subst b n1.
  pose proof (@main_compile_fresh test ":1" (S (S (S n10)))) as Ht.
  destruct (Main.compile test ":1" (S (S (S n10)))) as [t0 n2] eqn:Et.
  specialize (Ht _ _ eq_refl). destruct Ht as (Hle2 & Hne2 & _ & Hr2).
  cbn [fst] in t. subst t.
  cbv zeta in Hblock. rewrite Hblock in Hinit. cbn [fst] in Hinit.
  set (choice := Main.Object n2
                   (with_then_else (Some (Z.of_nat (S n10))) (Some (Z.of_nat (S (S n10))))
                      (new_state "choice" ""))) in *.
  set (T := Main.set_last_next (Some (Z.of_nat n2)) t0) in *.
  set (push := Main.Object (S n2)
                 (with_next (Main.first_ref (T ++ [choice])) (new_state "push" ""))) in *.
  set (pop_then := Main.Object (S n10)
                     (with_next (Main.first_ref b0) (new_state "pop" ""))) in *.
  set (pop_else := Main.Object (S (S n10))
                     (with_next (Some (Z.of_nat n10)) (new_state "pop" ""))) in *.
  set (pass := Main.Object n10 (new_state "pass" "")) in *.
  set (B := Main.set_last_next (Some (Z.of_nat (S n2))) (pop_then :: b0)) in *.
  set (L := ((push :: T ++ [choice]) ++ B ++ [pop_else; pass])%list) in *.
  assert (HT : addresses T = addresses t0) by apply main_set_last_next_addresses.
  assert (HB : addresses B = S n10 :: addresses b0)
    by (unfold B; rewrite main_set_last_next_addresses; reflexivity).
  assert (HlenT : List.length T = List.length t0) by apply main_set_last_next_length.
  assert (HlenB : List.length B = S (List.length b0))
    by (unfold B; rewrite main_set_last_next_length; reflexivity).
  assert (Htypes :
            map (fun o => type (Main.content o)) L
            = ("push" :: map (fun o => type (Main.content o)) t0
                 ++ "choice" :: "pop" :: map (fun o => type (Main.content o)) b0
                 ++ ["pop"; "pass"])%list).
  { unfold L, B, T. rewrite !map_app. cbn [map]. rewrite !map_app.
    rewrite !main_set_last_next_types. cbn [map app]. rewrite <- ?app_assoc.
    reflexivity. }
  destruct B as [|first_B rest_B] eqn:EB; [discriminate|].
  assert (Hfirst : Main.address first_B = S n10) by (inversion HB; reflexivity).
  (* the places of the states that the jumps refer to *)
  assert (Hthen : Main.indexOf (Z.of_nat (S n10)) L = Z.of_nat (S (S (List.length t0)))).
  { unfold L. rewrite <- Hfirst.
    change (((push :: T ++ [choice]) ++ (first_B :: rest_B) ++ [pop_else; pass])%list)
      with ((push :: T ++ [choice]) ++ first_B :: (rest_B ++ [pop_else; pass]))%list.
    rewrite indexOf_app.
    - cbn [List.length]. rewrite length_app, HlenT. cbn [List.length].
      f_equal. lia.
    - rewrite Hfirst. autorewrite with addresses.
      unfold push, choice. cbn [Main.address]. rewrite HT.
      intros Hin. split_in; lia. }
  assert (Helse : Main.indexOf (Z.of_nat (S (S n10))) L
                  = Z.of_nat (S (S (List.length t0)) + S (List.length b0))).
  { unfold L.
    change (Z.of_nat (S (S n10))) with (Z.of_nat (Main.address pop_else)).
    rewrite app_assoc.
    change ((((push :: T ++ [choice]) ++ first_B :: rest_B) ++ [pop_else; pass])%list)
      with ((((push :: T ++ [choice]) ++ first_B :: rest_B) ++ pop_else :: [pass])%list).
    rewrite indexOf_app.
    - rewrite length_app, HlenB. cbn [List.length]. rewrite length_app, HlenT.
      cbn [List.length]. f_equal. lia.
    - autorewrite with addresses.
      unfold push, choice, pop_else. cbn [Main.address]. rewrite HT.
      change (Main.address first_B :: addresses rest_B)
        with (addresses (first_B :: rest_B)). rewrite HB.
      intros Hin. split_in; lia. }
  assert (Hback : Main.indexOf (Z.of_nat (S n2)) L = 0).
  { unfold L, push. cbn [app Main.indexOf Main.address]. rewrite Z.eqb_refl. reflexivity. }
  destruct (link_all_nth _ _ Hinit) as [Hlen Hnth].
  split.
  - rewrite (link_all_types _ _ Hinit). exact Htypes.
  - (* the choice *)
    assert (Hchoice : nth_error L i = Some choice).
    { unfold L, i. cbn [app nth_error].
      rewrite <- app_assoc. rewrite nth_error_app2 by lia.
      rewrite HlenT, Nat.sub_diag. reflexivity. }
    destruct (Hnth _ _ Hchoice) as (s & Hs & Hlink).
    destruct (link_jumps _ _ Hlink) as (_ & _ & Hs_then & Hs_else).
    (* the last state of body' *)
    destruct (@main_set_last_next_last (Some (Z.of_nat (S n2))) (pop_then :: b0))
      as (o & Ho & Ho_next); [discriminate|].
    fold B in Ho. rewrite EB in Ho. cbn [List.length pred] in Ho.
    assert (Hlast : nth_error L (i + body') = Some o).
    { unfold L, i, body'.
      rewrite nth_error_app2 by (cbn [List.length]; rewrite length_app, HlenT; cbn; lia).
      cbn [List.length]. rewrite length_app, HlenT. cbn [List.length].
      replace (S (List.length t0) + S (List.length b0)
               - S (List.length t0 + 1))%nat with (List.length b0) by lia.
      rewrite nth_error_app1 by (rewrite HlenB; lia). exact Ho. }
    destruct (Hnth _ _ Hlast) as (s' & Hs' & Hlink').
    destruct (link_jumps _ _ Hlink') as (_ & Hs'_next & _).
    exists s, s'. repeat split; try assumption.
    + rewrite Hs_then. cbn [choice Main.content then_ with_then_else Main.link_ref option_map].
      rewrite Hthen. f_equal. unfold i. lia.
    + rewrite Hs_else. cbn [choice Main.content else_ with_then_else Main.link_ref option_map].
      rewrite Helse. f_equal. unfold i, body'. lia.
    + rewrite Hs'_next, Ho_next. cbn [Main.link_ref option_map]. rewrite Hback. reflexivity.
Qed.

(** C3, as the code has it.  For [while(test, body)] without [nosave]:
    the [conductor] function emits a [push], the compiled test (its last
    state going on to the next one), a [choice] with [then] = +1 and
    [else] = +(|body'| + 1), then body' (a [pop] and the compiled body),
    whose last state has for [next] the negative offset that leads back to
    the [push], then a [pop] and a [pass]; all are offsets from the state
    that holds them.  [compile] of [composer.js] emits the same states in
    the same order with, in the jumps, references to state objects, which
    [__init__] replaces by absolute indices: for a composition that is this
    while block, with [i] the index of the [choice], [then] = i + 1,
    [else] = i + (|body'| + 1) and the [next] of the last state of body'
    is 0. *)
Theorem while_block :
  forall test body options,
    truthy (option_of options "nosave") = false ->
    (forall path,
        let t := Conductor.compile test (path ++ ":test") in
        let b := Conductor.compile body (path ++ ".body") in
        let body' := with_next (Some 1) (new_state "pop" path) :: b in
        let back := (List.length t + List.length body' + 1)%nat in
        Conductor.compile (While test body options) path
        = ([with_next (Some 1) (new_state "push" path)]
             ++ Conductor.set_last_next 1 t
             ++ [with_then_else (Some 1) (Some (Conductor.len body' + 1))
                   (new_state "choice" path)]
             ++ Conductor.set_last_next (- Z.of_nat back) body'
             ++ [with_next (Some 1) (new_state "pop" path); new_state "pass" path])%list
        /\ exists last,
            nth_error (Conductor.compile (While test body options) path) back = Some last
            /\ next last = Some (- Z.of_nat back))
    /\ (forall states,
           Main.__init__ (While test body options) = Ok states ->
           let b := fst (Main.compile body ":2" 0) in
           let n1 := snd (Main.compile body ":2" 0) in
           let t := fst (Main.compile test ":1" (S (S (S n1)))) in
           let i := S (List.length t) in
           let body' := S (List.length b) in
           map type states
           = ("push" :: map (fun o => type (Main.content o)) t
                ++ "choice" :: "pop" :: map (fun o => type (Main.content o)) b
                ++ ["pop"; "pass"])%list
           /\ exists choice last,
               nth_error states i = Some choice
               /\ then_ choice = Some (Z.of_nat i + 1)
               /\ else_ choice = Some (Z.of_nat i + (Z.of_nat body' + 1))
               /\ nth_error states (i + body') = Some last
               /\ next last = Some 0).
Proof.
  intros test body options Hnosave. split.
  - intros path t b body' back.
    pose proof (@conductor_while_block test body options path Hnosave) as Hblock.
    cbv zeta in Hblock. fold t b body' in Hblock.
    replace (- (Conductor.len t + Conductor.len body' + 1)) with (- Z.of_nat back)
      in Hblock by (unfold back, Conductor.len; lia).
    split; [exact Hblock|]. rewrite Hblock.
    destruct (@conductor_set_last_next_last (- Z.of_nat back) body')
      as (last & Hlast & Hnext); [discriminate|].
    exists last. split; [|exact Hnext].
    set (B := Conductor.set_last_next (- Z.of_nat back) body') in *.
    assert (HlenB : List.length B = List.length body')
      by apply conductor_set_last_next_length.
    set (T := Conductor.set_last_next 1 t).
    assert (HlenT : List.length T = List.length t)
      by apply conductor_set_last_next_length.
    assert (Hback : back = (S (List.length T) + S (pred (List.length body')))%nat)
      by (unfold back; rewrite HlenT; cbn [List.length body']; lia).
    rewrite Hback. cbn [app nth_error Nat.add].
    rewrite nth_error_app2 by lia.
    replace (List.length T + S (pred (List.length body')) - List.length T)%nat
      with (S (pred (List.length body'))) by lia.
    cbn [nth_error].
    rewrite nth_error_app1 by (rewrite HlenB; cbn [List.length body']; lia).
    exact Hlast.
  - intros states Hinit. exact (@main_while_linked test body options states Hnosave Hinit).
Qed.

Lemma while_block_witness :
  map jumps (Conductor.compile while_literals "")
  = [("push", Some 1, None, None); ("literal", Some 1, None, None);
     ("choice", None, Some 1, Some 3); ("pop", Some 1, None, None);
     ("literal", Some (-4), None, None); ("pop", Some 1, None, None);
     ("pass", None, None, None)]
  /\ (exists states,
         Main.__init__ while_literals = Ok states
         /\ map type states
            = ["push"; "literal"; "choice"; "pop"; "literal"; "pop"; "pass"]
         /\ exists choice last,
             nth_error states 2 = Some choice
             /\ then_ choice = Some 3 /\ else_ choice = Some 5
             /\ nth_error states 4 = Some last /\ next last = Some 0).
Proof.
  destruct (@while_block (Literal (num 1) VUndef) (Literal (num 2) VUndef) VUndef eq_refl)
    as [Hconductor Hmain].
  split.
  - destruct (Hconductor "") as [Hblock _].
    unfold while_literals. rewrite Hblock. reflexivity.
  - destruct (Main.__init__ while_literals) as [states|] eqn:Hinit; [|discriminate].
    exists states. split; [reflexivity|]. exact (Hmain states Hinit).
Defined.

(** C3 as stated fails on [composer.js]: in the FSM of
    [while(literal(1), literal(2))] the [choice], at index 2, has [then] = 3
    and [else] = 5, not +1 and +3, and the last state of body' has
    [next] = 0, not the offset -4 that the [conductor] function emits. *)
Lemma while_offsets_counterexample :
  (exists states,
      Main.__init__ while_literals = Ok states
      /\ map jumps states
         = [("push", Some 1, None, None); ("literal", Some 2, None, None);
            ("choice", None, Some 3, Some 5); ("pop", Some 4, None, None);
            ("literal", Some 0, None, None); ("pop", Some 6, None, None);
            ("pass", None, None, None)])
  /\ Some 3 <> Some 1 /\ Some 5 <> Some (2 + 1) /\ ~ (0 < 0)
  /\ map jumps (Conductor.compile while_literals "")
     = [("push", Some 1, None, None); ("literal", Some 1, None, None);
        ("choice", None, Some 1, Some 3); ("pop", Some 1, None, None);
        ("literal", Some (-4), None, None); ("pop", Some 1, None, None);
        ("pass", None, None, None)].
Proof.
  split; [eexists; split; vm_compute; reflexivity|].
  repeat split; try discriminate; try lia.
Qed.

(** * Further properties *)

(** ** What [inspect] keeps and what it removes *)

Lemma unwind_removes_front frames :
  forall st,
    match unwind st frames with
    | Ok r => exists removed, frames = (removed ++ snd r)%list
    | Fail f =>
        exists frame,
          In frame frames /\ (frame = VUndef \/ frame = VNull)
          /\ f = Thrown (TypeError_property frame "catch")
    end.
Proof.
  induction frames as [|frame rest IH]; intros st; cbn [unwind].
  - exists []. reflexivity.
  - destruct (getprop frame "catch") as [c|f] eqn:Hc; cbn [bind].
    + destruct (is_number c).
      * exists [frame]. reflexivity.
      * specialize (IH c). destruct (unwind c rest) as [r|f].
        -- destruct IH as [removed ->]. exists (frame :: removed). reflexivity.
        -- destruct IH as (bad & Hin & Hbad & ->). exists bad.
           split; [right; exact Hin|]. split; [exact Hbad|reflexivity].
    + exists frame. split; [left; reflexivity|].
      destruct frame; cbn in Hc; try discriminate;
        try (destruct (String.eqb "catch" "length"); discriminate);
        inversion Hc; split; auto.
Qed.

(** X1.  [inspect] leaves an object in params and never adds a frame: the stack
    it leaves is the end of the stack it found.  Without a defined [error]
    it keeps the state and the whole stack; with one, params is that field
    alone.  It throws only on a frame that is [undefined] or [null]. *)
Theorem inspect_outcome :
  forall m,
    match inspect m with
    | Ok m' =>
        isObject (params m') = true
        /\ (exists removed, stack m = (removed ++ stack m')%list)
        /\ (getprop (params m') "error" = Ok VUndef ->
            state m' = state m /\ stack m' = stack m)
        /\ (getprop (params m') "error" <> Ok VUndef ->
            exists error,
              params m' = VObj [("error", error)] /\ is_undefined error = false)
    | Fail f =>
        exists frame,
          In frame (stack m) /\ (frame = VUndef \/ frame = VNull)
          /\ f = Thrown (TypeError_property frame "catch")
    end.
Proof.
  intros m. unfold inspect.
  set (p := if isObject (params m) then params m else VObj [("value", params m)]).
  assert (Hp : exists props, p = VObj props).
  { subst p. destruct (params m); simpl; eauto. }
  destruct Hp as [props Hp]. rewrite Hp. cbn [getprop bind].
  destruct (is_undefined (lookup "error" props)) eqn:He; cbn [negb].
  - cbn [params stack state isObject getprop]. split; [reflexivity|].
    split; [exists []; reflexivity|]. split; [auto|].
    intros Hne. exfalso. apply Hne. destruct (lookup "error" props); try discriminate.
    reflexivity.
  - pose proof (unwind_removes_front (stack m) VUndef) as Hu.
    destruct (unwind VUndef (stack m)) as [r|f]; cbn [bind].
    + cbn [params stack state isObject getprop lookup String.eqb Ascii.eqb Bool.eqb].
      split; [reflexivity|]. split; [exact Hu|]. split.
      * intros Hundef. inversion Hundef as [Hundef']. rewrite Hundef' in He. discriminate.
      * intros _. eexists. split; [reflexivity|exact He].
    + exact Hu.
Qed.

(** X2.  With an [error] in params, [inspect] goes to the [catch] of the first
    frame that has a number there and removes that frame and the ones in
    front of it, whatever they hold ([let] and [params] frames too, and the
    frames of a resumed stack whose [catch] is no number); the frames
    behind it stay.  When no frame of the stack has a number there, the
    stack ends empty and the state is the [catch] read last: [undefined] on
    an empty stack and on the frames that the interpreter makes, but the
    [catch] of the last frame when a resumed stack gives it one that is no
    number. *)
Theorem error_unwinds_to_nearest_handler :
  forall st front props,
    Forall (fun frame => exists c, getprop frame "catch" = Ok c /\ is_number c = false)
           front ->
    is_undefined (lookup "error" props) = false ->
    (forall frame n behind,
        getprop frame "catch" = Ok (VNum n) ->
        inspect (Machine st (front ++ frame :: behind) (VObj props))
        = Ok (Machine (VNum n) behind (VObj [("error", lookup "error" props)])))
    /\ inspect (Machine st front (VObj props))
       = Ok (Machine (last_catch front) [] (VObj [("error", lookup "error" props)]))
    /\ (forallb is_frame front = true -> last_catch front = VUndef).
Proof.
  intros st front props Hfront He. split; [|split].
  - intros frame n behind Hcatch.
    unfold inspect. cbn [params stack isObject getprop bind]. rewrite He. cbn [negb].
    rewrite (@unwind_to_handler front frame n behind Hfront Hcatch VUndef). reflexivity.
  - unfold inspect. cbn [params stack isObject getprop bind]. rewrite He. cbn [negb].
    rewrite (@unwind_no_handler front Hfront VUndef). reflexivity.
  - unfold last_catch.
    induction Hfront as [|frame front (c & Hc & Hn) _ IH]; intros Hwf;
      [reflexivity|].
    cbn [forallb] in Hwf. apply andb_prop in Hwf. destruct Hwf as [Hf Hwf].
    cbn [map]. rewrite last_cons.
    assert (Hundef : catch_of frame = VUndef).
    { unfold catch_of. rewrite Hc.
      destruct frame as [| | | | | |fp|]; try discriminate.
      cbn [getprop] in Hc. injection Hc as Hc. cbn [is_frame] in Hf. rewrite Hc in Hf.
      destruct c; try discriminate; reflexivity. }
    rewrite Hundef. apply IH, Hwf.
Qed.

Lemma error_unwinds_to_nearest_handler_witness :
  inspect (Machine (num 4)
             [VObj [("params", VObj [])]; VObj [("let", VObj [("x", num 1)])];
              VObj [("catch", VStr "7")];
              VObj [("catch", num 9)]; VObj [("catch", num 2)]]
             (VObj [("a", num 1); ("error", VStr "e")]))
  = Ok (Machine (num 9) [VObj [("catch", num 2)]] (VObj [("error", VStr "e")]))
  /\ inspect (Machine (num 4)
                [VObj [("params", VObj [])]; VObj [("let", VObj [("x", num 1)])];
                 VObj [("catch", VStr "7")]]
                (VObj [("a", num 1); ("error", VStr "e")]))
     = Ok (Machine (VStr "7") [] (VObj [("error", VStr "e")]))
  /\ inspect (Machine (num 4)
                [VObj [("params", VObj [])]; VObj [("let", VObj [("x", num 1)])]]
                (VObj [("a", num 1); ("error", VStr "e")]))
     = Ok (Machine VUndef [] (VObj [("error", VStr "e")])).
Proof.
  assert (Hfront : Forall (fun frame => exists c, getprop frame "catch" = Ok c
                                                  /\ is_number c = false)
                     [VObj [("params", VObj [])]; VObj [("let", VObj [("x", num 1)])];
                      VObj [("catch", VStr "7")]]).
  { repeat constructor; eexists; split; reflexivity. }
  assert (Hmade : Forall (fun frame => exists c, getprop frame "catch" = Ok c
                                                 /\ is_number c = false)
                    [VObj [("params", VObj [])]; VObj [("let", VObj [("x", num 1)])]]).
  { repeat constructor; eexists; split; reflexivity. }
  split; [|split].
  - exact (proj1 (@error_unwinds_to_nearest_handler (num 4) _
                    [("a", num 1); ("error", VStr "e")] Hfront eq_refl)
             (VObj [("catch", num 9)]) (Int 9) [VObj [("catch", num 2)]] eq_refl).
  - exact (proj1 (proj2 (@error_unwinds_to_nearest_handler (num 4) _
                           [("a", num 1); ("error", VStr "e")] Hfront eq_refl))).
  - exact (proj1 (proj2 (@error_unwinds_to_nearest_handler (num 4) _
                           [("a", num 1); ("error", VStr "e")] Hmade eq_refl))).
Defined.

(** ** The frames of the stack *)

Lemma json_copy_object l :
  exists l', json_copy (VObj l) = VObj l'
             /\ (forall k, has_key k l' = true -> has_key k l = true)
             /\ (unique_keys l = true -> unique_keys l' = true).
Proof.
  induction l as [|[k x] l (l' & Hl' & Hkeys & Hu)].
  - exists []. repeat split; auto.
  - cbn [json_copy] in *. inversion Hl' as [Hgo]. rewrite Hgo.
    destruct (unserializable x).
    + exists l'. split; [reflexivity|]. split.
      * intros k' Hk'. cbn [has_key existsb fst]. fold (has_key k' l).
        rewrite (Hkeys _ Hk'). apply orb_true_r.
      * intros Hul. cbn [unique_keys] in Hul. apply andb_prop in Hul. apply Hu, Hul.
    + exists ((k, json_copy x) :: l'). split; [reflexivity|]. split.
      * intros k' Hk'. cbn [has_key existsb fst] in *. fold (has_key k' l).
        fold (has_key k' l') in Hk'. apply orb_prop in Hk'.
        destruct Hk' as [->|Hk']; [reflexivity|]. rewrite (Hkeys _ Hk'). apply orb_true_r.
      * intros Hul. cbn [unique_keys] in *. apply andb_prop in Hul.
        destruct Hul as [Hk Hul]. rewrite (Hu Hul), andb_true_r.
        apply negb_true_iff. apply negb_true_iff in Hk.
        destruct (has_key k l') eqn:E; [|reflexivity].
        rewrite (Hkeys _ E) in Hk. discriminate.
Qed.

(** What [set] touches: one [let] map, in a frame that stays a frame. *)
Lemma set_keeps_frames n v frames :
  forallb is_stack_frame frames = true ->
  forall frames',
    set n v frames = Ok frames' ->
    forallb is_stack_frame frames' = true /\ Forall2 same_but_let frames frames'.
Proof.
  induction frames as [|frame frames IH]; intros Hwf frames' Hset; cbn [set] in Hset.
  - inversion Hset. split; [reflexivity|constructor].
  - cbn [forallb] in Hwf. apply andb_prop in Hwf. destruct Hwf as [Hf Hwf].
    unfold is_stack_frame in Hf. apply andb_prop in Hf. destruct Hf as [Hcatch Hlet].
    destruct frame as [| | | | | |fp|]; try discriminate.
    cbn [getprop bind is_frame is_let_frame] in *.
    destruct (lookup "let" fp) as [| | | | | |l|] eqn:El; try discriminate;
      cbn [is_undefined getprop bind] in Hset.
    + destruct (set n v frames) as [rest|] eqn:Hrest; [|discriminate].
      cbn [bind] in Hset. inversion Hset; subst frames'; clear Hset.
      destruct (IH Hwf rest eq_refl) as [Hwf' Hsame].
      split; [|constructor; [split; reflexivity|exact Hsame]].
      cbn [forallb]. rewrite Hwf'. unfold is_stack_frame. cbn [is_frame is_let_frame].
      rewrite El, andb_true_r, andb_true_r. exact Hcatch.
    + destruct (negb (is_undefined (lookup n l))).
      * destruct (json_clone v) as [c|]; [|discriminate]. cbn [bind] in Hset.
        inversion Hset; subst frames'; clear Hset. cbn [setprop]. split.
        -- cbn [forallb]. rewrite Hwf. unfold is_stack_frame. cbn [is_frame is_let_frame].
           rewrite !lookup_assign. cbn [String.eqb Ascii.eqb Bool.eqb].
           rewrite (unique_keys_assign n c l Hlet), andb_true_r, andb_true_r. exact Hcatch.
        -- constructor.
           ++ split; cbn [getprop]; rewrite lookup_assign; reflexivity.
           ++ clear. induction frames; constructor; [split; reflexivity|assumption].
      * destruct (set n v frames) as [rest|] eqn:Hrest; [|discriminate].
        cbn [bind] in Hset. inversion Hset; subst frames'; clear Hset.
        destruct (IH Hwf rest eq_refl) as [Hwf' Hsame].
        split; [|constructor; [split; reflexivity|exact Hsame]].
        cbn [forallb]. rewrite Hwf'. unfold is_stack_frame. cbn [is_frame is_let_frame].
        rewrite El, Hlet, andb_true_r, andb_true_r. exact Hcatch.
Qed.

Lemma same_but_let_refl frames : Forall2 same_but_let frames frames.
Proof. induction frames; constructor; [split; reflexivity|assumption]. Qed.

Lemma same_but_let_trans a b c :
  Forall2 same_but_let a b -> Forall2 same_but_let b c -> Forall2 same_but_let a c.
Proof.
  intros Hab. revert c. induction Hab as [|x y a b [H1 H2] _ IH]; intros c Hbc;
    inversion Hbc as [|? z ? c' [H3 H4] Hrest]; subst; constructor.
  - split; congruence.
  - apply IH, Hrest.
Qed.

Lemma write_back_keeps_frames env :
  forall frames,
    forallb is_stack_frame frames = true ->
    forallb is_stack_frame (snd (write_back env frames)) = true
    /\ Forall2 same_but_let frames (snd (write_back env frames)).
Proof.
  induction env as [|[n v] env IH]; intros frames Hwf; cbn [write_back].
  - split; [exact Hwf|apply same_but_let_refl].
  - destruct (set n v frames) as [frames'|] eqn:Hset.
    + destruct (set_keeps_frames n v frames Hwf Hset) as [Hwf' Hsame].
      destruct (IH frames' Hwf') as [Hwf'' Hsame'].
      split; [exact Hwf''|exact (same_but_let_trans Hsame Hsame')].
    + split; [exact Hwf|apply same_but_let_refl].
Qed.

Lemma run_keeps_frames user_eval f m :
  forallb is_stack_frame (stack m) = true ->
  forallb is_stack_frame (snd (run user_eval f m)) = true
  /\ Forall2 same_but_let (stack m) (snd (run user_eval f m)).
Proof.
  intros Hwf. unfold run.
  destruct (collapse (stack m)) as [env|]; [|split; [exact Hwf|apply same_but_let_refl]].
  destruct (user_eval f (params m) env) as [c env'].
  pose proof (write_back_keeps_frames env' (stack m) Hwf) as H.
  destruct (write_back env' (stack m)) as [[failed|] frames']; exact H.
Qed.

(** X3.  User code reaches the stack through its variables only: whatever it
    does to its environment, [run] leaves as many frames as it found, each
    one a frame still, with the [catch] and the [params] it had; only [let]
    maps change. *)
Theorem run_changes_let_maps_only :
  forall user_eval f (m : machine),
    forallb is_stack_frame (stack m) = true ->
    forallb is_stack_frame (snd (run user_eval f m)) = true
    /\ Forall2 same_but_let (stack m) (snd (run user_eval f m))
    /\ List.length (snd (run user_eval f m)) = List.length (stack m).
Proof.
  intros ue f m Hwf. destruct (run_keeps_frames ue f m Hwf) as [Hwf' Hsame].
  split; [exact Hwf'|]. split; [exact Hsame|].
  symmetry. exact (Forall2_length Hsame).
Qed.

Lemma run_changes_let_maps_only_witness :
  let stack' := snd (run (assigns [("x", num 7); ("z", num 9)]) (VStr "f")
                       (Machine (num 0) two_lets (VObj []))) in
  forallb is_stack_frame stack' = true
  /\ Forall2 same_but_let two_lets stack'
  /\ List.length stack' = 3%nat.
Proof.
  exact (@run_changes_let_maps_only (assigns [("x", num 7); ("z", num 9)]) (VStr "f")
           (Machine (num 0) two_lets (VObj [])) eq_refl).
Defined.

Lemma inspect_keeps_frames m m' :
  inspect m = Ok m' ->
  forallb is_stack_frame (stack m) = true ->
  forallb is_stack_frame (stack m') = true.
Proof.
  unfold inspect. intros H Hwf.
  destruct (getprop (if isObject (params m) then params m
                     else VObj [("value", params m)]) "error") as [e|]; [|discriminate].
  cbn [bind] in H. destruct (negb (is_undefined e)).
  - pose proof (unwind_removes_front (stack m) VUndef) as Hu.
    destruct (unwind VUndef (stack m)) as [r|]; [|discriminate].
    cbn [bind] in H. inversion H; subst m'; clear H. cbn [stack].
    destruct Hu as [removed Hu]. rewrite Hu, forallb_app in Hwf.
    apply andb_prop in Hwf. exact (proj2 Hwf).
  - inversion H; subst m'. exact Hwf.
Qed.

Ltac by_type H json :=
  repeat match type of H with
         | context [String.eqb (type json) ?s] =>
             let E := fresh "Htype" in
             destruct (String.eqb (type json) s) eqn:E
         end.

(** X4.  The stack stays a stack of frames.  On an FSM whose [let] states declare
    an object, a turn of the loop that goes on leaves on the stack only
    objects whose [catch], when they have one, is a number and whose [let],
    when they have one, is an object; in both variants. *)
Theorem stack_frames_invariant :
  forall user_eval fsm states (m : machine),
    forallb is_stack_frame (stack m) = true ->
    (Forall declares_object fsm ->
     forall m', Conductor.iteration user_eval fsm m = Ok (Continue m') ->
                forallb is_stack_frame (stack m') = true)
    /\ (Forall declares_object states ->
        forall m', Main.iteration user_eval states m = Ok (Continue m') ->
                   forallb is_stack_frame (stack m') = true).
Proof.
  intros ue fsm states m Hwf. split.
  - intros Hfsm m' H. unfold Conductor.iteration in H.
    destruct (is_undefined (state m)).
    { destruct (final (params m)); discriminate. }
    destruct (Conductor.state_at fsm (state m)) as [[current json]|] eqn:Hat;
      [|discriminate].
    assert (Hjson : declares_object json).
    { unfold Conductor.state_at in Hat. destruct (state m) as [| | |[z|]| | | |];
        try discriminate. destruct (0 <=? z); [|discriminate].
      destruct (nth_error fsm (Z.to_nat z)) as [s|] eqn:Hnth; [|discriminate].
      inversion Hat; subst. rewrite Forall_forall in Hfsm.
      exact (Hfsm _ (nth_error_In _ _ Hnth)). }
    unfold Conductor.dispatch in H. cbn [params stack state] in H.
    by_type H json.
    + destruct (getprop (params m) "value"); [|discriminate].
      inversion H; subst m'. exact Hwf.
    + inversion H; subst m'. cbn [stack forallb]. rewrite Hwf.
      destruct (catch json); reflexivity.
    + destruct (Hjson ltac:(apply String.eqb_eq; assumption)) as (l & Hl & Hu). rewrite Hl in H.
      destruct (json_copy_object l) as (l' & Hl' & _ & Hu').
      unfold json_clone in H. cbn [unserializable] in H. rewrite Hl' in H.
      inversion H; subst m'. cbn [stack forallb]. rewrite Hwf.
      unfold is_stack_frame. cbn. rewrite (Hu' Hu). reflexivity.
    + destruct (stack m) as [|frame rest]; [discriminate|].
      inversion H; subst m'. cbn [forallb] in Hwf. apply andb_prop in Hwf. exact (proj2 Hwf).
    + destruct (if truthy (field json)
                then getprop (params m) (to_string (field json))
                else Ok (params m)) as [saved|]; [|discriminate].
      cbn [bind] in H. unfold json_clone in H. cbn [unserializable json_copy] in H.
      inversion H; subst m'. cbn [stack forallb]. rewrite Hwf.
      destruct (unserializable saved); reflexivity.
    + destruct (stack m) as [|frame rest]; [discriminate|].
      destruct (getprop frame "params"); [|discriminate].
      inversion H; subst m'. cbn [forallb] in Hwf. apply andb_prop in Hwf. exact (proj2 Hwf).
    + discriminate.
    + destruct (json_clone (value_ json)) as [p|]; [|discriminate]. cbn [bind] in H.
      destruct (inspect (Machine match next json with
                                 | Some k => VNum (Int (current + k))
                                 | None => VUndef
                                 end (stack m) p)) as [m1|] eqn:Hi; [|discriminate].
      inversion H; subst m'. exact (inspect_keeps_frames _ Hi Hwf).
    + destruct (Conductor.try_run ue json
                  (Machine match next json with
                           | Some k => VNum (Int (current + k))
                           | None => VUndef
                           end (stack m) (params m))) as [c stack'] eqn:Hrun.
      destruct (Conductor.function_params current c (params m)) as [p|]; [|discriminate].
      cbn [bind] in H.
      destruct (inspect (Machine match next json with
                                 | Some k => VNum (Int (current + k))
                                 | None => VUndef
                                 end stack' p)) as [m1|] eqn:Hi; [|discriminate].
      inversion H; subst m'. apply (inspect_keeps_frames _ Hi). cbn [stack].
      unfold Conductor.try_run in Hrun.
      destruct (getprop (exec json) "exec") as [f|].
      * pose proof (run_keeps_frames ue f
                      (Machine match next json with
                               | Some k => VNum (Int (current + k))
                               | None => VUndef
                               end (stack m) (params m)) Hwf) as [Hk _].
        rewrite Hrun in Hk. exact Hk.
      * inversion Hrun; subst. exact Hwf.
    + destruct (inspect (Machine match next json with
                                 | Some k => VNum (Int (current + k))
                                 | None => VUndef
                                 end (stack m) (params m))) as [m1|] eqn:Hi;
        [|discriminate].
      inversion H; subst m'. exact (inspect_keeps_frames _ Hi Hwf).
    + discriminate.
  - intros Hfsm m' H. unfold Main.iteration in H.
    destruct (is_undefined (state m)).
    { destruct (final (params m)); discriminate. }
    destruct (Main.state_at states (state m)) as [json|] eqn:Hat; [|discriminate].
    assert (Hjson : declares_object json).
    { unfold Main.state_at in Hat.
      destruct (find (fun i => String.eqb (to_string (state m)) (index_key i))
                     (seq 0 (List.length states))) as [i|]; [|discriminate].
      rewrite Forall_forall in Hfsm. exact (Hfsm _ (nth_error_In _ _ Hat)). }
    unfold Main.dispatch in H. cbn [params stack state] in H.
    by_type H json.
    + destruct (getprop (params m) "value"); [|discriminate].
      inversion H; subst m'. exact Hwf.
    + inversion H; subst m'. cbn [stack forallb]. rewrite Hwf.
      destruct (catch json); reflexivity.
    + destruct (Hjson ltac:(apply String.eqb_eq; assumption)) as (l & Hl & Hu). rewrite Hl in H.
      inversion H; subst m'. cbn [stack forallb]. rewrite Hwf.
      unfold is_stack_frame. cbn. rewrite Hu. reflexivity.
    + destruct (stack m) as [|frame rest]; [discriminate|].
      inversion H; subst m'. cbn [forallb] in Hwf. apply andb_prop in Hwf. exact (proj2 Hwf).
    + destruct (negb (is_undefined (field json))
                && negb (String.eqb (typeof (field json)) "string")); [discriminate|].
      destruct (if truthy (field json)
                then getprop (params m) (to_string (field json))
                else Ok (params m)) as [saved|]; [|discriminate].
      cbn [bind] in H. unfold json_clone in H. cbn [unserializable json_copy] in H.
      inversion H; subst m'. cbn [stack forallb]. rewrite Hwf.
      destruct (unserializable saved); reflexivity.
    + destruct (stack m) as [|frame rest]; [discriminate|].
      destruct (negb (is_undefined (collect json))
                && negb (String.eqb (typeof (collect json)) "boolean")); [discriminate|].
      destruct (getprop frame "params"); [|discriminate].
      inversion H; subst m'. cbn [forallb] in Hwf. apply andb_prop in Hwf. exact (proj2 Hwf).
    + destruct (negb (String.eqb (typeof (name json)) "string")); discriminate.
    + destruct (is_undefined (value_ json)); [discriminate|].
      destruct (inspect (Machine (Main.target (next json)) (stack m) (value_ json)))
        as [m1|] eqn:Hi; [|discriminate].
      inversion H; subst m'. exact (inspect_keeps_frames _ Hi Hwf).
    + destruct (getprop (exec json) "exec") as [f|]; [|discriminate]. cbn [bind] in H.
      destruct (negb (String.eqb (typeof f) "string")); [discriminate|].
      destruct (run ue f (Machine (Main.target (next json)) (stack m) (params m)))
        as [c stack'] eqn:Hrun.
      destruct (Main.function_params (state m) c (params m)) as [p|]; [|discriminate].
      cbn [bind] in H.
      destruct (inspect (Machine (Main.target (next json)) stack' p)) as [m1|] eqn:Hi;
        [|discriminate].
      inversion H; subst m'. apply (inspect_keeps_frames _ Hi). cbn [stack].
      pose proof (run_keeps_frames ue f
                    (Machine (Main.target (next json)) (stack m) (params m)) Hwf)
        as [Hk _].
      rewrite Hrun in Hk. exact Hk.
    + destruct (inspect (Machine (Main.target (next json)) (stack m) (params m)))
        as [m1|] eqn:Hi; [|discriminate].
      inversion H; subst m'. exact (inspect_keeps_frames _ Hi Hwf).
    + discriminate.
Qed.

Lemma stack_frames_invariant_witness :
  forallb is_stack_frame
    [VObj [("let", VObj [("x", num 1)])]; VObj [("catch", num 5)]] = true
  /\ Conductor.iteration no_user_code [let_state]
       (Machine (num 0) [VObj [("catch", num 5)]] (VObj []))
     = Ok (Continue (Machine (num 1)
                       [VObj [("let", VObj [("x", num 1)])]; VObj [("catch", num 5)]]
                       (VObj [])))
  /\ Main.iteration no_user_code [let_state]
       (Machine (num 0) [VObj [("catch", num 5)]] (VObj []))
     = Ok (Continue (Machine (num 1)
                       [VObj [("let", VObj [("x", num 1)])]; VObj [("catch", num 5)]]
                       (VObj []))).
Proof.
  assert (Hfsm : Forall declares_object [let_state]).
  { repeat constructor. intros _. eexists. split; reflexivity. }
  destruct (@stack_frames_invariant no_user_code [let_state] [let_state]
              (Machine (num 0) [VObj [("catch", num 5)]] (VObj [])) eq_refl)
    as [Hconductor Hmain].
  split; [exact (Hconductor Hfsm _ eq_refl)|]. split; reflexivity.
Defined.

(** ** Frames that are put on the stack and taken off *)

(** X5.  [push] then [pop].  Without a [field], [push] puts on the stack a frame
    with the clone of params, and a [pop] state that follows gives the stack
    back as it was; params become the clone ([undefined] when params had no
    JSON text) or, with [collect], the pair of the clone and the current
    params.  For params that are a JSON value the clone is params itself.
    In both variants. *)
Theorem push_then_pop :
  forall user_eval push pop (m : machine),
    type push = "push" -> field push = VUndef ->
    type pop = "pop" ->
    (collect pop = VUndef \/ exists b, collect pop = VBool b) ->
    let saved := if unserializable (params m) then VUndef
                 else json_copy (params m) in
    let restored := if truthy (collect pop)
                    then VObj [("params", saved); ("result", params m)]
                    else saved in
    (is_json (params m) = true -> saved = params m)
    /\ (forall current current',
           exists frame,
             Conductor.dispatch user_eval push current m
             = Ok (Continue (Machine (state m) (frame :: stack m) (params m)))
             /\ Conductor.dispatch user_eval pop current'
                  (Machine (state m) (frame :: stack m) (params m))
                = Ok (Continue (Machine (state m) (stack m) restored)))
    /\ (forall current current',
           exists frame,
             Main.dispatch user_eval push current m
             = Ok (Continue (Machine (state m) (frame :: stack m) (params m)))
             /\ Main.dispatch user_eval pop current'
                  (Machine (state m) (frame :: stack m) (params m))
                = Ok (Continue (Machine (state m) (stack m) restored))).
Proof.
  intros ue push pop m Hpush Hfield Hpop Hcollect saved restored.
  split.
  - intros Hj. subst saved. rewrite (is_json_serializable _ Hj). apply json_copy_json, Hj.
  - assert (Hframe : json_clone (VObj [("params", params m)])
                     = Ok (VObj (if unserializable (params m) then []
                                 else [("params", json_copy (params m))]))).
    { unfold json_clone. cbn [unserializable json_copy].
      destruct (unserializable (params m)); reflexivity. }
    assert (Hsaved : getprop (VObj (if unserializable (params m) then []
                                    else [("params", json_copy (params m))])) "params"
                     = Ok saved).
    { subst saved. destruct (unserializable (params m)); reflexivity. }
    assert (Hcheck : negb (is_undefined (collect pop))
                     && negb (String.eqb (typeof (collect pop)) "boolean") = false).
    { destruct Hcollect as [->|[b ->]]; reflexivity. }
    split; intros current current'; eexists; split.
    + case_of Hpush. rewrite Hfield. cbn [truthy bind params]. rewrite Hframe.
      cbn [bind stack state params]. reflexivity.
    + case_of Hpop. cbn [stack params state]. rewrite Hsaved. reflexivity.
    + case_of Hpush. rewrite Hfield. cbn [truthy bind params is_undefined negb andb].
      rewrite Hframe. cbn [bind stack state params]. reflexivity.
    + case_of Hpop. cbn [stack params state]. rewrite Hcheck, Hsaved. reflexivity.
Qed.

Lemma push_then_pop_witness :
  Conductor.dispatch no_user_code push_state 0 (Machine (num 1) [] (VObj [("x", num 1)]))
  = Ok (Continue (Machine (num 1) [VObj [("params", VObj [("x", num 1)])]]
                          (VObj [("x", num 1)])))
  /\ Conductor.dispatch no_user_code pop_state 1
       (Machine (num 1) [VObj [("params", VObj [("x", num 1)])]] (VObj [("x", num 1)]))
     = Ok (Continue (Machine (num 1) [] (VObj [("x", num 1)])))
  /\ Main.dispatch no_user_code pop_state (num 1)
       (Machine (num 1) [VObj [("params", VObj [("x", num 1)])]] (VObj [("x", num 1)]))
     = Ok (Continue (Machine (num 1) [] (VObj [("x", num 1)]))).
Proof.
  destruct (@push_then_pop no_user_code push_state pop_state
              (Machine (num 1) [] (VObj [("x", num 1)]))
              eq_refl eq_refl eq_refl (or_introl eq_refl))
    as (Hsaved & Hconductor & Hmain).
  destruct (Hconductor 0 1) as (frame & Hpush & Hpop).
  destruct (Hmain (num 0) (num 1)) as (frame' & Hpush' & Hpop').
  split; [|split]; reflexivity.
Defined.

(** X6.  [exit] takes off whatever frame is on top: after a [try] state, a [let]
    state or a [push] state (without a [field]) has put its frame on the
    stack, an [exit] state gives the stack back as it was, and params were
    not touched; in both variants. *)
Theorem exit_undoes_frame :
  forall user_eval install exit_ (m : machine),
    type install = "try"
    \/ (type install = "let" /\ unserializable (let_ install) = false)
    \/ (type install = "push" /\ field install = VUndef) ->
    type exit_ = "exit" ->
    (forall current current',
        exists frame,
          Conductor.dispatch user_eval install current m
          = Ok (Continue (Machine (state m) (frame :: stack m) (params m)))
          /\ Conductor.dispatch user_eval exit_ current'
               (Machine (state m) (frame :: stack m) (params m))
             = Ok (Continue m))
    /\ (forall current current',
           exists frame,
             Main.dispatch user_eval install current m
             = Ok (Continue (Machine (state m) (frame :: stack m) (params m)))
             /\ Main.dispatch user_eval exit_ current'
                  (Machine (state m) (frame :: stack m) (params m))
                = Ok (Continue m)).
Proof.
  intros ue install exit_ m Hinstall Hexit.
  assert (Hm : Machine (state m) (stack m) (params m) = m) by (destruct m; reflexivity).
  assert (Hframe : json_clone (VObj [("params", params m)])
                   = Ok (VObj (if unserializable (params m) then []
                               else [("params", json_copy (params m))]))).
  { unfold json_clone. cbn [unserializable json_copy].
    destruct (unserializable (params m)); reflexivity. }
  destruct Hinstall as [Hty|[[Hty Hlet]|[Hty Hfield]]];
    (split; intros current current'; eexists; split;
     [case_of Hty
     |case_of Hexit; cbn [stack state params]; rewrite Hm; reflexivity
     |case_of Hty
     |case_of Hexit; cbn [stack state params]; rewrite Hm; reflexivity]).
  - reflexivity.
  - reflexivity.
  - unfold json_clone. rewrite Hlet. reflexivity.
  - reflexivity.
  - rewrite Hfield. cbn [truthy bind params]. rewrite Hframe. reflexivity.
  - rewrite Hfield. cbn [truthy bind params is_undefined negb andb]. rewrite Hframe.
    reflexivity.
Qed.

Lemma exit_undoes_frame_witness :
  Conductor.dispatch no_user_code let_state 0 (Machine (num 1) [] (VObj []))
  = Ok (Continue (Machine (num 1) [VObj [("let", VObj [("x", num 1)])]] (VObj [])))
  /\ Conductor.dispatch no_user_code exit_state 1
       (Machine (num 1) [VObj [("let", VObj [("x", num 1)])]] (VObj []))
     = Ok (Continue (Machine (num 1) [] (VObj [])))
  /\ Main.dispatch no_user_code exit_state (num 1)
       (Machine (num 1) [VObj [("let", VObj [("x", num 1)])]] (VObj []))
     = Ok (Continue (Machine (num 1) [] (VObj []))).
Proof.
  destruct (@exit_undoes_frame no_user_code let_state exit_state
              (Machine (num 1) [] (VObj []))
              (or_intror (or_introl (conj eq_refl eq_refl))) eq_refl)
    as [Hconductor Hmain].
  destruct (Hconductor 0 1) as (frame & Hinstall & Hexit).
  destruct (Hmain (num 0) (num 1)) as (frame' & Hinstall' & Hexit').
  assert (Hframe : frame = VObj [("let", VObj [("x", num 1)])])
    by (inversion Hinstall; reflexivity).
  assert (Hframe' : frame' = VObj [("let", VObj [("x", num 1)])])
    by (inversion Hinstall'; reflexivity).
  subst frame frame'.
  split; [exact Hinstall|]. split; [exact Hexit|exact Hexit'].
Defined.

(** ** Suspending on an action and resuming *)

Lemma json_copy_frames frames :
  forallb is_json frames = true -> map json_copy frames = frames.
Proof.
  induction frames as [|frame frames IH]; intros H; cbn [map]; [reflexivity|].
  cbn [forallb] in H. apply andb_prop in H. destruct H as [Hf Hr].
  rewrite (json_copy_json _ Hf), (IH Hr). reflexivity.
Qed.

(** X7.  What the conductor hands over when it suspends is what it takes back
    when it resumes.  For a state that is a number or [undefined] and a
    stack of JSON values, params that carry under [$resume] the JSON text
    of the [$resume] object of the continuation make both variants start
    again with that state, that stack and params without [$resume],
    through [inspect]. *)
Theorem resume_restores_continuation :
  forall name (m : machine) props,
    (state m = VUndef \/ exists n, state m = VNum (Int n)) ->
    forallb is_json (stack m) = true ->
    (exists token,
        getprop (continuation name m) "state" = Ok (VObj [("$resume", token)])
        /\ (lookup "$resume" props = json_copy token ->
            Conductor.resume (VObj props)
            = inspect (Machine (state m) (stack m) (VObj (remove "$resume" props)))
            /\ Main.resume (VObj props)
               = inspect (Machine (state m) (stack m) (VObj (remove "$resume" props))))).
Proof.
  intros name m props Hstate Hstack.
  exists (VObj [("state", state m); ("stack", VArr (stack m))]).
  split; [reflexivity|]. intros Hprops.
  unfold Conductor.resume, Main.resume. cbn [getprop bind]. rewrite Hprops.
  cbn [json_copy]. rewrite (json_copy_frames _ Hstack).
  destruct Hstate as [->|[n ->]]; cbn; split; reflexivity.
Qed.

Lemma resume_restores_continuation_witness :
  let frames := [VObj [("catch", num 4)]] in
  let token := VObj [("state", num 1); ("stack", VArr frames)] in
  Conductor.iteration no_user_code [action_state] (Machine (num 0) frames (VObj []))
  = Ok (Return (VObj [("action", VStr "echo"); ("params", VObj []);
                      ("state", VObj [("$resume", token)])]))
  /\ Conductor.resume (VObj [("y", num 2); ("$resume", token)])
     = Ok (Machine (num 1) frames (VObj [("y", num 2)]))
  /\ Main.resume (VObj [("error", VStr "e"); ("$resume", token)])
     = Ok (Machine (num 4) [] (VObj [("error", VStr "e")])).
Proof.
  intros frames token.
  split; [reflexivity|].
  split.
  - destruct (@resume_restores_continuation (VStr "echo")
                (Machine (num 1) frames (VObj []))
                [("y", num 2); ("$resume", token)]
                (or_intror (ex_intro _ 1 eq_refl)) eq_refl)
      as (t & Ht & Hresume).
    inversion Ht; subst t. exact (proj1 (Hresume eq_refl)).
  - destruct (@resume_restores_continuation (VStr "echo")
                (Machine (num 1) frames (VObj []))
                [("error", VStr "e"); ("$resume", token)]
                (or_intror (ex_intro _ 1 eq_refl)) eq_refl)
      as (t & Ht & Hresume).
    inversion Ht; subst t. exact (proj2 (Hresume eq_refl)).
Defined.

(** ** The encoding of errors *)

Lemma lookup_combine_no_index k keys items :
  Forall (fun key => String.eqb k key = false) keys ->
  lookup k (combine keys items) = VUndef.
Proof.
  intros H. revert items.
  induction H as [|key keys Hk _ IH]; intros [|x items];
    cbn [combine lookup]; try reflexivity.
  rewrite Hk. apply IH.
Qed.

Lemma lookup_indexed_no_index k items :
  no_index k -> lookup k (indexed items) = VUndef.
Proof.
  intros [_ Hk]. unfold indexed. apply lookup_combine_no_index.
  apply Forall_forall. intros key Hkey. apply in_map_iff in Hkey.
  destruct Hkey as (i & <- & _). apply Hk.
Qed.

Lemma getprop_no_index v k :
  no_index k ->
  match v with VArr _ | VStr _ => getprop v k = Ok VUndef | _ => True end.
Proof.
  intros Hk. destruct v; try exact I; cbn [getprop];
    rewrite (proj1 Hk); now rewrite lookup_indexed_no_index.
Qed.

Ltac no_index_by_first_letter :=
  split; [reflexivity|]; intros i;
  unfold index_key, NilZero.string_of_uint;
  destruct (Nat.to_uint i); reflexivity.

Lemma no_index_code : no_index "code".
Proof. no_index_by_first_letter. Qed.

Lemma no_index_error : no_index "error".
Proof. no_index_by_first_letter. Qed.

Lemma no_index_message : no_index "message".
Proof. no_index_by_first_letter. Qed.

(** The catch-all of [main] encodes what [badRequest] and [internalError]
    rejected with once more, which changes nothing but an empty text. *)
Lemma encode_text code error :
  code <> 0%Z ->
  encode (VObj [("code", VNum (Int code)); ("error", VStr error)])
  = Ok (VObj [("code", VNum (Int code)); ("error", VStr (or_default error))]).
Proof.
  intros Hcode. unfold encode, or_default.
  cbn [getprop lookup String.eqb Ascii.eqb Bool.eqb bind is_number truthy typeof andb].
  destruct (Z.eqb_spec code 0) as [->|_]; [congruence|].
  cbn [negb]. destruct (String.eqb error ""); reflexivity.
Qed.

Lemma value_eq_undef_or_null (v : value) :
  (v = VUndef \/ v = VNull) \/ (v <> VUndef /\ v <> VNull).
Proof. destruct v; [left; left|left; right|..]; try reflexivity; right; split; discriminate. Qed.

Lemma encode_defined error :
  error <> VUndef -> error <> VNull ->
  exists code text message,
    getprop error "code" = Ok code /\ getprop error "error" = Ok text /\
    getprop error "message" = Ok message /\
    (typeof error = "string" -> text = VUndef /\ message = VUndef).
Proof.
  intros Hu Hn.
  pose proof (getprop_no_index error no_index_code) as Hc.
  pose proof (getprop_no_index error no_index_error) as He.
  pose proof (getprop_no_index error no_index_message) as Hm.
  destruct error; try congruence;
    try (exists VUndef, VUndef, VUndef; repeat split; (assumption || reflexivity));
    cbn [getprop]; eexists _, _, _; repeat split; discriminate.
Qed.

(** X8.  [encodeError] throws on [undefined] and [null] only.  What it returns
    has a code that is a number other than zero and [NaN] and an error that
    is truthy, and when that error is a string, encoding the result once
    more gives the same object. *)
Theorem encode_shape (error : value) :
  match encode error with
  | Ok r =>
      exists code text,
        r = VObj [("code", code); ("error", text)] /\
        is_number code = true /\ truthy code = true /\ truthy text = true /\
        (typeof text = "string" -> encode r = Ok r)
  | Fail f =>
      (error = VUndef \/ error = VNull) /\
      f = Thrown (TypeError_property error "code")
  end.
Proof.
  destruct (value_eq_undef_or_null error) as [[->| ->]|[Hu Hn]];
    [cbn; split; auto | cbn; split; auto |].
  destruct (encode_defined Hu Hn) as (code & text & message & Hc & He & Hm & _).
  unfold encode. rewrite Hc, He, Hm. cbn [bind].
  eexists _, _. split; [reflexivity|].
  assert (Hcode : is_number (if is_number code && truthy code then code
                             else VNum (Int 500)) = true /\
                  truthy (if is_number code && truthy code then code
                          else VNum (Int 500)) = true).
  { destruct (is_number code) eqn:E1, (truthy code) eqn:E2; cbn [andb]; auto. }
  assert (Htext : truthy
            (if String.eqb (typeof text) "string" && truthy text then text
             else if truthy message then message
             else if String.eqb (typeof error) "string" && truthy error then error
             else VStr "An internal error occurred") = true).
  { destruct (String.eqb (typeof text) "string"), (truthy text) eqn:E1;
      cbn [andb]; try assumption;
      destruct (truthy message) eqn:E2; try assumption;
      destruct (String.eqb (typeof error) "string"), (truthy error) eqn:E3;
      cbn [andb]; try assumption; reflexivity. }
  destruct Hcode as [Hnum Hnz].
  repeat split; try assumption.
  intros Hstr.
  cbn [getprop lookup String.eqb Ascii.eqb Bool.eqb bind].
  rewrite Hnum, Hnz, Hstr, Htext. reflexivity.
Qed.

(** X9.  The rejections of [invoke] reach the caller as [main] reports them:
    [badRequest(error)] is encoded by the catch-all with its code 400, and
    what [internalError(error)] made of a message is encoded a second time
    without a change.  An empty message is replaced by the default text in
    both. *)
Theorem rejections_encoded_once (error : string) :
  let r400 := VObj [("code", VNum (Int 400)); ("error", VStr (or_default error))] in
  let r500 := VObj [("code", VNum (Int 500)); ("error", VStr (or_default error))] in
  (encode (badRequest error) = Ok r400 /\
   rejected_with (encodeError (BadRequest error)) = Some r400) /\
  (internalError (VStr error) = Ok r500 /\ encode r500 = Ok r500 /\
   rejected_with (encodeError (InternalError error)) = Some r500).
Proof.
  cbn zeta. repeat split.
  - unfold badRequest. now rewrite encode_text.
  - unfold internalError, encode.
    destruct (encode_defined (error := VStr error)) as
      (code & text & message & Hc & He & Hm & Hs); try discriminate.
    destruct (Hs eq_refl) as [-> ->].
    rewrite Hc, He, Hm.
    pose proof (getprop_no_index (VStr error) no_index_code) as Hcode.
    cbn beta iota in Hcode. rewrite Hcode in Hc. injection Hc as <-.
    cbn [bind is_number andb truthy typeof String.eqb Ascii.eqb Bool.eqb].
    unfold or_default. destruct (String.eqb error ""); reflexivity.
  - rewrite encode_text by discriminate.
    unfold or_default. destruct (String.eqb error "") eqn:E; [reflexivity|].
    now rewrite E.
Qed.

(** ** The builder *)



Lemma spliced_atoms c :
  normal (Composer.json c) = true -> forallb atom (spliced c) = true.
Proof.
  unfold spliced. destruct (Composer.json c) eqn:E; cbn [normal];
    intros H; unfold atom; cbn [forallb is_sequence normal negb andb];
    rewrite ?H; try reflexivity.
  apply andb_prop in H. exact (proj2 H).
Qed.

Lemma flat_spliced_atoms components :
  Forall (fun c => normal (Composer.json c) = true) components ->
  forallb atom (flat_map spliced components) = true.
Proof.
  induction 1 as [|c components Hc _ IH]; [reflexivity|].
  cbn [flat_map]. rewrite forallb_app, (spliced_atoms _ Hc), IH. reflexivity.
Qed.

Lemma of_array_spliced components :
  Composer.json (Composer.of_array components)
  = let flat := flat_map spliced components in
    match flat with
    | [component] => component
    | _ => Sequence flat
    end.
Proof. reflexivity. Qed.

Lemma of_array_normal components :
  Forall (fun c => normal (Composer.json c) = true) components ->
  normal (Composer.json (Composer.of_array components)) = true.
Proof.
  intros H. apply flat_spliced_atoms in H. rewrite of_array_spliced. cbn zeta.
  destruct (flat_map spliced components) as [|x [|y flat]].
  - reflexivity.
  - cbn [forallb] in H. unfold atom in H.
    apply andb_prop in H. destruct H as [H _].
    apply andb_prop in H. exact (proj2 H).
  - cbn [normal List.length Nat.eqb negb andb]. exact H.
Qed.

(** Splicing the result of the constructor gives back its components. *)
Lemma spliced_of_array components :
  Forall (fun c => normal (Composer.json c) = true) components ->
  spliced (Composer.of_array components) = flat_map spliced components.
Proof.
  intros H. apply flat_spliced_atoms in H.
  unfold spliced at 1. rewrite of_array_spliced. cbn zeta.
  destruct (flat_map spliced components) as [|x [|y flat]]; try reflexivity.
  cbn [forallb] in H. unfold atom in H.
  destruct x; try reflexivity. discriminate.
Qed.

Lemma function_normal exec options c :
  Composer.function_ exec options = Composer.Built c ->
  exists exec' options', Composer.json c = Function exec' options'.
Proof.
  unfold Composer.function_, Composer.and_then.
  destruct exec; try discriminate;
    try (destruct (Composer.native _); try discriminate);
    destruct (Composer.validate options); try discriminate;
    intros [= <-]; cbn [Composer.json]; eauto.
Qed.

Lemma task_normal obj c :
  normal_operand obj = true ->
  Composer.task obj = Composer.Built c -> normal (Composer.json c) = true.
Proof.
  destruct obj as [v|made]; cbn [normal_operand Composer.task].
  - intros _. destruct v; try discriminate.
    + intros [= <-]. reflexivity.
    + intros [= <-]. reflexivity.
    + cbn [Composer.action]. intros [= <-]. reflexivity.
    + intros H. apply function_normal in H.
      destruct H as (exec & options & ->). reflexivity.
  - intros H [= <-]. exact H.
Qed.

Lemma tasks_normal args components :
  forallb normal_operand args = true ->
  Composer.tasks args = Composer.Built components ->
  Forall (fun c => normal (Composer.json c) = true) components.
Proof.
  revert components.
  induction args as [|obj args IH]; intros components Hn; cbn [Composer.tasks].
  - intros [= <-]. constructor.
  - cbn [forallb] in Hn. apply andb_prop in Hn. destruct Hn as [Hobj Hargs].
    unfold Composer.and_then.
    destruct (Composer.task obj) as [c|] eqn:Hc; [|discriminate].
    destruct (Composer.tasks args) as [more|] eqn:Hmore; [|discriminate].
    intros [= <-]. constructor; [exact (task_normal _ Hobj Hc)|].
    now apply IH.
Qed.

Lemma sequence_normal args c :
  forallb normal_operand args = true ->
  Composer.sequence args = Composer.Built c -> normal (Composer.json c) = true.
Proof.
  intros Hn. unfold Composer.sequence, Composer.and_then.
  destruct (Composer.tasks args) as [components|] eqn:H; [|discriminate].
  intros [= <-]. apply of_array_normal. exact (tasks_normal _ Hn H).
Qed.

Ltac built H :=
  unfold Composer.and_then in H;
  repeat match type of H with
         | match ?m with Composer.Built _ => _ | Composer.ComposerError _ => _ end = _ =>
             let E := fresh "E" in destruct m eqn:E; [|discriminate H]
         end;
  injection H as <-; cbn [Composer.json normal].

(** X11.  Every composition that the builder returns is in normal form when the
    compositions it was given are: no sequence inside a sequence and no
    sequence of one component, at any depth. *)
Theorem builder_normal_form (c : call) (composition : Composer.Composition) :
  forallb normal_operand (operands c) = true ->
  made c = Composer.Built composition ->
  normal (Composer.json composition) = true.
Proof.
  destruct c as [obj|args|test consequent alternate options|test body options
                |body handler options|body finalizer options|declarations body
                |v options|exec options|given];
    cbn [operands made forallb]; intros Hn H;
    rewrite ?andb_true_r in Hn;
    repeat match type of Hn with
           | _ && _ = true =>
               let H1 := fresh "Hn" in
               apply andb_prop in Hn; destruct Hn as [H1 Hn]
           end.
  - exact (task_normal _ Hn H).
  - exact (sequence_normal _ Hn H).
  - unfold Composer.if_ in H. built H.
    now rewrite (task_normal _ Hn0 E), (task_normal _ Hn1 E0), (task_normal _ Hn E1).
  - unfold Composer.while in H. built H.
    now rewrite (task_normal _ Hn0 E), (task_normal _ Hn E0).
  - unfold Composer.try_ in H. built H.
    now rewrite (task_normal _ Hn0 E), (task_normal _ Hn E0).
  - unfold Composer.finally in H. built H.
    now rewrite (task_normal _ Hn0 E), (task_normal _ Hn E0).
  - unfold Composer.let_ in H. destruct declarations; try discriminate H;
      built H; exact (sequence_normal _ Hn E).
  - unfold Composer.literal in H. destruct v; try discriminate H; built H;
      reflexivity.
  - apply function_normal in H. destruct H as (exec' & options' & ->).
    reflexivity.
  - unfold Composer.action in H. destruct given; try discriminate H.
    injection H as <-. reflexivity.
Qed.

Lemma builder_normal_form_witness :
  normal (Composer.json
            {| Composer.json :=
                 If (Action "test" VUndef)
                    (Sequence [Action "a" VUndef; Action "b" VUndef])
                    (Sequence []) VUndef;
               Composer.actions := [] |}) = true.
Proof.
  apply (builder_normal_form
           (IfOf (Composer.Value (VStr "test"))
                 (Composer.Made
                    {| Composer.json := Sequence [Action "a" VUndef; Action "b" VUndef];
                       Composer.actions := [] |})
                 (Composer.Value VNull) VUndef)).
  - reflexivity.
  - reflexivity.
Defined.

Lemma tasks_app xs ys :
  Composer.tasks (xs ++ ys)
  = Composer.and_then (Composer.tasks xs) (fun cx =>
      Composer.and_then (Composer.tasks ys) (fun cy =>
        Composer.Built (cx ++ cy)%list)).
Proof.
  induction xs as [|obj xs IH]; cbn [app Composer.tasks Composer.and_then].
  - destruct (Composer.tasks ys); reflexivity.
  - destruct (Composer.task obj); cbn [Composer.and_then]; [|reflexivity].
    rewrite IH. destruct (Composer.tasks xs); cbn [Composer.and_then]; [|reflexivity].
    destruct (Composer.tasks ys); reflexivity.
Qed.

(** X12.  A sequence given as a component of a sequence is spliced in: the
    result, with its actions, is that of the sequence of all the
    components; and the sequence of one composition is that composition.
    The compositions given are in normal form, as the builder makes them. *)
Theorem sequence_splices
  (xs ys zs : list Composer.operand) (inner : Composer.Composition) :
  forallb normal_operand ys = true ->
  Composer.sequence ys = Composer.Built inner ->
  Composer.sequence (xs ++ Composer.Made inner :: zs)%list
  = Composer.sequence (xs ++ ys ++ zs)%list
  /\ Composer.sequence [Composer.Made inner] = Composer.Built inner.
Proof.
  intros Hn Hinner. unfold Composer.sequence in *.
  unfold Composer.and_then in Hinner.
  destruct (Composer.tasks ys) as [cy|] eqn:Hys; [|discriminate].
  injection Hinner as <-.
  pose proof (tasks_normal _ Hn Hys) as Hcy.
  assert (Hsame : forall front back,
             Composer.of_array (front ++ Composer.of_array cy :: back)%list
             = Composer.of_array (front ++ cy ++ back)%list).
  { intros front back. unfold Composer.of_array at 1 3.
    change (fun c => match Composer.json c with
                     | Sequence l => l
                     | component => [component]
                     end) with spliced.
    rewrite !flat_map_app. cbn [flat_map]. rewrite ?flat_map_app.
    rewrite (spliced_of_array Hcy). reflexivity. }
  split.
  - rewrite !tasks_app. cbn [Composer.tasks Composer.task]. rewrite Hys.
    destruct (Composer.tasks xs) as [cx|]; cbn [Composer.and_then]; [|reflexivity].
    destruct (Composer.tasks zs) as [cz|]; cbn [Composer.and_then]; [|reflexivity].
    now rewrite Hsame.
  - cbn [Composer.tasks Composer.task Composer.and_then].
    pose proof (Hsame [] []) as Hone. cbn [app] in Hone.
    rewrite app_nil_r in Hone. now rewrite Hone.
Qed.

Lemma sequence_splices_witness :
  Composer.sequence
    [Composer.Value (VStr "a");
     Composer.Made {| Composer.json := Sequence [Action "b" VUndef; Action "c" VUndef];
                      Composer.actions := [] |};
     Composer.Value (VStr "d")]
  = Composer.sequence
      [Composer.Value (VStr "a"); Composer.Value (VStr "b");
       Composer.Value (VStr "c"); Composer.Value (VStr "d")].
Proof.
  apply (sequence_splices
           [Composer.Value (VStr "a")]
           [Composer.Value (VStr "b"); Composer.Value (VStr "c")]
           [Composer.Value (VStr "d")]).
  - reflexivity.
  - reflexivity.
Defined.

(** ** The two compilers side by side *)

Lemma main_chain_length front back :
  List.length (Main.chain front back)
  = (List.length front + List.length back)%nat.
Proof.
  unfold Main.chain. rewrite length_app, main_set_last_next_length. reflexivity.
Qed.

Lemma main_set_first_field_length f states :
  List.length (Main.set_first_field f states) = List.length states.
Proof. destruct states; reflexivity. Qed.

Lemma addresses_length states : List.length (addresses states) = List.length states.
Proof. apply length_map. Qed.

Lemma at_index_weaken A k n before after :
  at_index A k n ->
  at_index (before ++ A ++ after) (Z.of_nat (List.length before) + k) n.
Proof.
  intros (P & Q & -> & ->). exists (before ++ P)%list, (Q ++ after)%list. split.
  - rewrite <- !app_assoc. reflexivity.
  - rewrite length_app. lia.
Qed.

Lemma refers_weaken A i reference offset before after :
  refers A i reference offset ->
  refers (before ++ A ++ after) (List.length before + i) reference offset.
Proof.
  destruct reference as [a|], offset as [d|]; cbn [refers]; auto.
  intros (n & -> & H). exists n. split; [reflexivity|].
  apply at_index_weaken with (before := before) (after := after) in H.
  replace (Z.of_nat (List.length before + i) + d)
    with (Z.of_nat (List.length before) + (Z.of_nat i + d)) by lia.
  exact H.
Qed.

Lemma block_at_top objects : block_at (addresses objects) 0 objects.
Proof. exists [], []. split; [now rewrite app_nil_r|reflexivity]. Qed.

Lemma block_at_eq A k k' objects :
  block_at A k' objects -> k = k' -> block_at A k objects.
Proof. now intros H ->. Qed.

Lemma block_at_app A k front back :
  block_at A k (front ++ back) ->
  block_at A k front /\ block_at A (k + List.length front) back.
Proof.
  intros (P & Q & -> & ->). rewrite addresses_app. split.
  - exists P, (addresses back ++ Q)%list. now rewrite <- app_assoc.
  - exists (P ++ addresses front)%list, Q. split.
    + now rewrite <- !app_assoc.
    + now rewrite length_app, addresses_length.
Qed.

Lemma block_at_chain A k front back :
  block_at A k (Main.chain front back) ->
  block_at A k front /\ block_at A (k + List.length front) back.
Proof.
  intros (P & Q & HA & ->). rewrite main_chain_addresses in HA.
  apply block_at_app. exists P, Q. now rewrite addresses_app.
Qed.

Lemma block_at_set_last_next A k r objects :
  block_at A k (Main.set_last_next r objects) -> block_at A k objects.
Proof.
  intros (P & Q & HA & ->). rewrite main_set_last_next_addresses in HA.
  now exists P, Q.
Qed.

Lemma block_at_set_first_field A k f objects :
  block_at A k (Main.set_first_field f objects) -> block_at A k objects.
Proof.
  intros (P & Q & HA & ->). rewrite main_set_first_field_addresses in HA.
  now exists P, Q.
Qed.

Lemma refers_first A i k objects d :
  block_at A k objects -> objects <> [] ->
  Z.of_nat i + d = Z.of_nat k ->
  refers A i (Main.first_ref objects) (Some d).
Proof.
  intros (P & Q & -> & ->) Hne Hk. destruct objects as [|o objects]; [congruence|].
  cbn [Main.first_ref refers]. exists (Main.address o). split; [reflexivity|].
  exists P, (addresses objects ++ Q)%list. split; [reflexivity|exact Hk].
Qed.

Lemma main_last_ref_last objects o :
  Main.last_ref (objects ++ [o]) = Some (Z.of_nat (Main.address o)).
Proof. unfold Main.last_ref. rewrite rev_app_distr. reflexivity. Qed.

Lemma refers_last A i k objects d :
  block_at A k objects -> objects <> [] ->
  Z.of_nat i + d = Z.of_nat (k + List.length objects - 1) ->
  refers A i (Main.last_ref objects) (Some d).
Proof.
  intros (P & Q & -> & ->) Hne Hk.
  destruct (exists_last Hne) as (front & o & ->).
  rewrite main_last_ref_last. cbn [refers].
  exists (Main.address o). split; [reflexivity|].
  exists (P ++ addresses front)%list, Q. split.
  - rewrite addresses_app, <- !app_assoc. reflexivity.
  - rewrite Hk, !length_app, addresses_length. cbn [List.length]. lia.
Qed.

Section Related.

Variable good : value -> Prop.

Lemma state_ok_weaken A i o s before after :
  state_ok good A i o s ->
  state_ok good (before ++ A ++ after) (List.length before + i) o s.
Proof.
  unfold state_ok. intros (Ht & Hp & Hg & Hn & Hth & He & Hc).
  repeat split; try assumption; now apply refers_weaken.
Qed.

Lemma block_ok_weaken A before after objects :
  forall k fsm,
    block_ok good A k objects fsm ->
    block_ok good (before ++ A ++ after) (List.length before + k) objects fsm.
Proof.
  induction objects as [|o objects IH]; intros k [|s fsm]; cbn [block_ok]; auto.
  intros [Ho Hrest]. split; [now apply state_ok_weaken|].
  rewrite <- Nat.add_succ_r. now apply IH.
Qed.

Lemma block_ok_at A k objects fsm :
  block_at A k objects ->
  block_ok good (addresses objects) 0 objects fsm ->
  block_ok good A k objects fsm.
Proof.
  intros (P & Q & -> & ->) H.
  apply block_ok_weaken with (before := P) (after := Q) in H.
  now rewrite Nat.add_0_r in H.
Qed.

Lemma block_ok_length A objects :
  forall k fsm,
    block_ok good A k objects fsm -> List.length objects = List.length fsm.
Proof.
  induction objects as [|o objects IH]; intros k [|s fsm]; cbn [block_ok];
    try tauto.
  intros [_ H]. cbn [List.length]. f_equal. exact (IH _ _ H).
Qed.

Lemma block_ok_app A front :
  forall k fsm back fsm',
    block_ok good A k front fsm ->
    block_ok good A (k + List.length front) back fsm' ->
    block_ok good A k (front ++ back) (fsm ++ fsm').
Proof.
  induction front as [|o front IH]; intros k [|s fsm] back fsm';
    cbn [block_ok app List.length]; try tauto.
  - now rewrite Nat.add_0_r.
  - intros [Ho Hfront] Hback. split; [exact Ho|].
    apply IH; [exact Hfront|]. now rewrite Nat.add_succ_comm.
Qed.

Lemma block_ok_set_last_next A reference d objects :
  forall k fsm,
    block_ok good A k objects fsm ->
    refers A (k + List.length objects - 1) reference (Some d) ->
    block_ok good A k (Main.set_last_next reference objects)
                 (Conductor.set_last_next d fsm).
Proof.
  induction objects as [|o [|o' objects] IH]; intros k fsm H Href.
  - destruct fsm; [exact I|destruct H].
  - destruct fsm as [|s [|s' fsm]]; cbn [block_ok] in H; try tauto.
    destruct H as [(Ht & Hp & Hg & _ & Hth & He & Hc) _].
    cbn [Main.set_last_next Conductor.set_last_next block_ok].
    split; [|exact I]. unfold state_ok.
    cbn [Main.content with_next type payload name exec value_ let_ field collect
         next then_ else_ catch].
    repeat split; try assumption.
    cbn [List.length] in Href.
    now replace (k + 1 - 1)%nat with k in Href by lia.
  - destruct fsm as [|s [|s' fsm]]; try (cbn [block_ok] in H; tauto).
    destruct H as [Ho Hrest].
    change (state_ok good A k o s
            /\ block_ok good A (S k) (Main.set_last_next reference (o' :: objects))
                        (Conductor.set_last_next d (s' :: fsm))).
    split; [exact Ho|]. apply IH; [exact Hrest|].
    cbn [List.length] in *.
    now replace (S k + S (List.length objects) - 1)%nat
      with (k + S (S (List.length objects)) - 1)%nat by lia.
Qed.

Lemma chain_ok A k front fsm back fsm' :
  block_at A (k + List.length front) back ->
  block_ok good A k front fsm ->
  block_ok good A (k + List.length front) back fsm' ->
  front <> [] -> back <> [] ->
  block_ok good A k (Main.chain front back) (Conductor.chain fsm fsm').
Proof.
  intros Hat Hfront Hback Hf Hb. unfold Main.chain, Conductor.chain.
  apply block_ok_app.
  - apply block_ok_set_last_next; [exact Hfront|].
    eapply refers_first; [exact Hat|exact Hb|].
    destruct front; [congruence|]. cbn [List.length]. lia.
  - now rewrite main_set_last_next_length.
Qed.

Lemma block_ok_set_first_field A k f objects fsm :
  good f ->
  block_ok good A k objects fsm ->
  block_ok good A k (Main.set_first_field f objects)
               (Conductor.set_first_field f fsm).
Proof.
  intros Hf. destruct objects as [|o objects], fsm as [|s fsm];
    cbn [block_ok Main.set_first_field Conductor.set_first_field]; auto.
  intros [(Ht & Hp & Hg & Hn & Hth & He & Hc) Hrest]. split; [|exact Hrest].
  unfold state_ok, payload in *.
  cbn [Main.content with_field type payload name exec value_ let_ field collect
       next then_ else_ catch].
  injection Hp as Hp1 Hp2 Hp3 Hp4 Hp5 Hp6.
  repeat split; try assumption; try congruence.
  inversion Hg as [|? ? G1 Hg1]; subst.
  inversion Hg1 as [|? ? G2 Hg2]; subst.
  inversion Hg2 as [|? ? G3 Hg3]; subst.
  inversion Hg3 as [|? ? G4 Hg4]; subst.
  inversion Hg4 as [|? ? G5 Hg5]; subst.
  repeat constructor; try assumption.
  inversion Hg5; assumption.
Qed.

End Related.

Lemma conductor_compile_sequence json components path :
  Conductor.compile (Sequence (json :: components)) path
  = Conductor.reduce_chain (conductor_map path (json :: components) 0).
Proof. reflexivity. Qed.

Lemma length_pos_not_nil (A : Type) (l : list A) : (0 < List.length l)%nat -> l <> [].
Proof. intros H ->. cbn in H. lia. Qed.

Lemma conductor_set_first_catch_chain c front back :
  front <> [] ->
  Conductor.set_first_catch c (Conductor.chain front back)
  = Conductor.chain (Conductor.set_first_catch c front) back.
Proof.
  unfold Conductor.chain.
  destruct front as [|s [|s' front]]; [congruence|reflexivity|reflexivity].
Qed.

Create Rewrite HintDb lens.

#[local] Hint Rewrite length_app main_chain_length main_set_last_next_length
  main_set_first_field_length conductor_chain_length
  conductor_set_last_next_length conductor_set_first_catch_length
  conductor_set_first_field_length addresses_length : lens.

Ltac lens :=
  unfold Conductor.len in *; autorewrite with lens in *;
  cbn [List.length] in *; lia.

Ltac positions H :=
  lazymatch type of H with
  | block_at _ _ (Main.chain _ _) =>
      let H1 := fresh "Hat" in
      let H2 := fresh "Hat" in
      destruct (@block_at_chain _ _ _ _ H) as [H1 H2]; positions H1; positions H2
  | block_at _ _ (_ ++ _)%list =>
      let H1 := fresh "Hat" in
      let H2 := fresh "Hat" in
      destruct (@block_at_app _ _ _ _ H) as [H1 H2]; positions H1; positions H2
  | block_at _ _ (Main.set_last_next _ _) =>
      let H1 := fresh "Hat" in
      pose proof (@block_at_set_last_next _ _ _ _ H) as H1; positions H1
  | block_at _ _ (Main.set_first_field _ _) =>
      let H1 := fresh "Hat" in
      pose proof (@block_at_set_first_field _ _ _ _ H) as H1; positions H1
  | _ => idtac
  end.

Ltac position := eapply block_at_eq; [eassumption|lens].

Ltac nonempty := apply length_pos_not_nil; lens.

Ltac jump :=
  first [ exact I
        | eapply refers_first; [eassumption|nonempty|lens]
        | eapply refers_last; [eassumption|nonempty|lens] ].

Ltac single :=
  cbn [block_ok]; split; [|exact I]; unfold state_ok;
  cbv [Main.content new_state with_next with_then_else with_catch with_name
       with_exec with_value with_let with_field with_collect
       type payload name exec value_ let_ field collect next then_ else_ catch];
  repeat split;
  [ repeat apply Forall_cons; try apply Forall_nil; auto | jump ..].

Ltac related :=
  lazymatch goal with
  | |- block_ok _ _ _ (Main.chain _ _) (Conductor.chain _ _) =>
      apply chain_ok; [position|related|related|nonempty|nonempty]
  | |- block_ok _ _ _ (_ ++ _)%list (_ ++ _)%list =>
      apply block_ok_app; related
  | |- block_ok _ _ _ (Main.set_last_next _ _) (Conductor.set_last_next _ _) =>
      apply block_ok_set_last_next; [related|jump]
  | |- block_ok _ _ _ (Main.set_first_field _ _) (Conductor.set_first_field _ _) =>
      apply block_ok_set_first_field; [auto|related]
  | |- block_ok _ _ _ [_] [_] => single
  | |- block_ok _ _ _ _ _ => apply block_ok_at; [position|assumption]
  end.

Section Compiled.

Variable good : value -> Prop.
Variable accept : value -> bool.
Hypothesis good_undefined : good VUndef.
Hypothesis good_string : forall s, good (VStr s).
Hypothesis good_boolean : forall b, good (VBool b).
Hypothesis good_accepted : forall v, accept v = true -> good v.

Lemma related_intro objects fsm :
  objects <> [] -> block_ok good (addresses objects) 0 objects fsm ->
  related good objects fsm.
Proof.
  intros Hne H. pose proof H as Hlen. apply block_ok_length in Hlen.
  repeat split; try assumption.
  destruct objects; [congruence|]. cbn [List.length] in Hlen. lia.
Qed.

Ltac finish :=
  apply related_intro; [nonempty|];
  match goal with
  | |- block_ok _ (addresses ?X) 0 ?X _ =>
      let Hat := fresh "Hat" in
      let A := fresh "A" in
      let HA := fresh "HA" in
      pose proof (block_at_top X) as Hat;
      remember (addresses X) as A eqn:HA; clear HA;
      positions Hat; related
  end.

(** The block of a component, by the induction hypothesis [IH]. *)
Ltac component IH Hp E :=
  match type of E with
  | Main.compile ?json _ _ = _ =>
      match goal with
      | |- context [Conductor.compile json ?p] =>
          let R := fresh "R" in
          let L := fresh "L" in
          let P := fresh "P" in
          let r := fresh "r" in
          destruct (IH Hp _ p _ _ _ E) as (R & L & P);
          set (r := Conductor.compile json p) in *
      end
  end.

Lemma chain_related front fsm back fsm' :
  related good front fsm -> related good back fsm' ->
  related good (Main.chain front back) (Conductor.chain fsm fsm').
Proof. intros (Rf & Lf & Pf) (Rb & Lb & Pb). finish. Qed.

Lemma fold_chain_related others others' :
  Forall2 (related good) others others' ->
  forall first first',
    related good first first' ->
    related good (fold_left Main.chain others first)
                 (fold_left Conductor.chain others' first').
Proof.
  induction 1 as [|fsm fsm' others others' Hfsm _ IH]; intros first first' Hfirst;
    cbn [fold_left]; [exact Hfirst|].
  apply IH. now apply chain_related.
Qed.

Lemma map_compile_related path path' components :
  Forall (fun json =>
            payloads accept json = true ->
            forall path path' n objects n',
              Main.compile json path n = (objects, n') ->
              related good objects (Conductor.compile json path')) components ->
  forallb (payloads accept) components = true ->
  forall index index' n fsms n',
    map_compile path components index n = (fsms, n') ->
    Forall2 (related good) fsms (conductor_map path' components index').
Proof.
  induction 1 as [|json components Hjson _ IH]; intros Hp index index' n fsms n' H;
    cbn [map_compile conductor_map] in *.
  - apply pair_equal_spec in H; destruct H as [<- <-]. constructor.
  - apply andb_prop in Hp. destruct Hp as [Hp Hps].
    destruct (Main.compile json (path ++ ":" ++ index_key index) n)
      as [fsm n1] eqn:Efsm.
    destruct (map_compile path components (S index) n1) as [more n2] eqn:Emore.
    apply pair_equal_spec in H; destruct H as [<- <-]. constructor.
    + exact (Hjson Hp _ _ _ _ _ Efsm).
    + exact (IH Hps _ _ _ _ _ Emore).
Qed.

Lemma compile_related json :
  payloads accept json = true ->
  forall path path' n objects n',
    Main.compile json path n = (objects, n') ->
    related good objects (Conductor.compile json path').
Proof.
  induction json as [components IH|action_name options|code options|v options
                    |body finalizer options IHb IHf|declarations body IHb
                    |body options IHb|body handler options IHb IHh
                    |test consequent alternate options IHt IHc IHa
                    |test body options IHt IHb] using composition_ind_nested;
    intros Hp path path' n objects n' H; cbn [payloads] in Hp;
    repeat match type of Hp with
           | _ && _ = true =>
               let Hq := fresh "Hp" in
               apply andb_prop in Hp; destruct Hp as [Hp Hq]
           end.
  - destruct components as [|json components].
    + cbn [Main.compile] in H. apply pair_equal_spec in H; destruct H as [<- <-]. cbn [Conductor.compile].
      finish.
    + rewrite main_compile_sequence in H.
      destruct (map_compile path (json :: components) 0 n) as [fsms n1] eqn:Em.
      apply pair_equal_spec in H; destruct H as [<- <-]. rewrite conductor_compile_sequence.
      pose proof (map_compile_related path path' IH Hp 0%nat 0%nat _ Em) as Hall.
      cbn [conductor_map] in Hall.
      inversion Hall as [|first first' others others' Hfirst Hothers]; subst.
      unfold Main.reduce_chain, Conductor.reduce_chain. cbn [conductor_map].
      now apply fold_chain_related.
  - cbn [Main.compile] in H. apply pair_equal_spec in H; destruct H as [<- <-]. cbn [Conductor.compile]. finish.
  - cbn [Main.compile] in H. apply pair_equal_spec in H; destruct H as [<- <-]. cbn [Conductor.compile]. finish.
  - cbn [Main.compile] in H. apply pair_equal_spec in H; destruct H as [<- <-]. cbn [Conductor.compile]. finish.
  - cbn [Main.compile] in H.
    destruct (Main.compile body (path ++ ":1") n) as [b n1] eqn:Eb.
    destruct (Main.compile finalizer (path ++ ":2") n1) as [f n2] eqn:Ef.
    apply pair_equal_spec in H; destruct H as [<- <-]. cbn [Conductor.compile].
    component IHb Hp Eb. component IHf Hp0 Ef.
    cbn [Main.reduce_chain Conductor.reduce_chain fold_left].
    rewrite !conductor_set_first_catch_chain by nonempty.
    cbn [Conductor.set_first_catch].
    finish.
  - cbn [Main.compile] in H.
    destruct (Main.compile body (path ++ ":1") n) as [b n1] eqn:Eb.
    apply pair_equal_spec in H; destruct H as [<- <-]. cbn [Conductor.compile].
    component IHb Hp0 Eb.
    cbn [Main.reduce_chain Conductor.reduce_chain fold_left].
    finish.
  - cbn [Main.compile] in H.
    destruct (Main.compile body (path ++ ":1") n) as [b n1] eqn:Eb.
    apply pair_equal_spec in H; destruct H as [<- <-]. cbn [Conductor.compile].
    component IHb Hp0 Eb.
    cbn [Main.reduce_chain Conductor.reduce_chain fold_left].
    destruct (truthy (option_of options "field")); finish.
  - cbn [Main.compile] in H.
    destruct (Main.compile body (path ++ ":1") n) as [b n1] eqn:Eb.
    destruct (Main.compile handler (path ++ ":2") n1) as [h n2] eqn:Eh.
    apply pair_equal_spec in H; destruct H as [<- <-]. cbn [Conductor.compile].
    component IHb Hp Eb. component IHh Hp0 Eh.
    cbn [Main.reduce_chain Conductor.reduce_chain fold_left].
    rewrite !conductor_set_first_catch_chain by nonempty.
    cbn [Conductor.set_first_catch].
    finish.
  - cbn [Main.compile] in H.
    destruct (Main.compile consequent (path ++ ":2") n) as [c n1] eqn:Ec.
    destruct (Main.compile alternate (path ++ ":3") n1) as [a n2] eqn:Ea.
    cbn [Conductor.compile].
    destruct (truthy (option_of options "nosave")); cbn [negb] in *;
      destruct (Main.compile test _ _) as [t n3] eqn:Et;
      apply pair_equal_spec in H; destruct H as [<- <-];
      component IHt Hp Et; component IHc Hp1 Ec; component IHa Hp0 Ea;
      finish.
  - cbn [Main.compile] in H.
    destruct (Main.compile body (path ++ ":2") n) as [b n1] eqn:Eb.
    cbn [Conductor.compile].
    destruct (truthy (option_of options "nosave")); cbn [negb] in *;
      destruct (Main.compile test _ _) as [t n3] eqn:Et;
      apply pair_equal_spec in H; destruct H as [<- <-];
      component IHt Hp Et; component IHb Hp0 Eb;
      finish.
Qed.

End Compiled.

(** *** What [__init__] makes of the references *)

Lemma no_index_type : no_index "type".
Proof. no_index_by_first_letter. Qed.

(** The payloads that the pass of [__init__] leaves as they are. *)
Lemma linked_undefined : Main.link_value VUndef = Ok VUndef.
Proof. reflexivity. Qed.

Lemma linkable_string s : linkable (VStr s) = true.
Proof.
  unfold linkable.
  pose proof (getprop_no_index (VStr s) no_index_type) as H.
  cbn beta iota in H. rewrite H. reflexivity.
Qed.

Lemma linked_held v : linkable v = true -> Main.link_held v = Ok v.
Proof.
  unfold linkable, Main.link_held.
  destruct v; try discriminate;
    destruct (getprop _ "type") as [t|]; try discriminate;
    cbn [bind]; destruct (truthy t); try discriminate; reflexivity.
Qed.

Lemma linked_linkable v : linkable v = true -> Main.link_value v = Ok v.
Proof.
  intros H. unfold Main.link_value. rewrite (linked_held _ H).
  destruct (is_undefined v); reflexivity.
Qed.

Lemma linked_string s : Main.link_value (VStr s) = Ok (VStr s).
Proof. apply linked_linkable, linkable_string. Qed.

Lemma linked_boolean b : Main.link_value (VBool b) = Ok (VBool b).
Proof. reflexivity. Qed.

Lemma indexOf_at objects n k :
  NoDup (addresses objects) -> at_index (addresses objects) k n ->
  Main.indexOf (Z.of_nat n) objects = k.
Proof.
  intros Hnodup (P & Q & HA & ->). unfold addresses in HA.
  apply map_eq_app in HA. destruct HA as (before & rest & -> & <- & Hrest).
  apply map_eq_cons in Hrest. destruct Hrest as (o & after & -> & <- & <-).
  rewrite length_map. apply indexOf_app.
  rewrite addresses_app, addresses_cons in Hnodup.
  apply NoDup_remove_2 in Hnodup. intros Hin. apply Hnodup.
  apply in_or_app. now left.
Qed.

Lemma link_ref_refers objects i reference offset :
  NoDup (addresses objects) ->
  refers (addresses objects) i reference offset ->
  Main.link_ref objects reference = absolute i offset.
Proof.
  intros Hnodup. destruct reference as [a|], offset as [d|]; cbn [refers];
    try tauto; try reflexivity.
  intros (n & -> & Hat). cbn [Main.link_ref absolute option_map].
  now rewrite (@indexOf_at objects n _ Hnodup Hat).
Qed.

(** ** The payload that the type of a state gives it *)

Lemma held_set_last_next k fsm :
  Forall (fun s => held s = true) fsm ->
  Forall (fun s => held s = true) (Conductor.set_last_next k fsm).
Proof.
  induction fsm as [|s [|s' fsm] IH]; intros H; [exact H| |].
  - inversion H; subst. constructor; [|constructor]. assumption.
  - inversion H; subst. constructor; [assumption|]. now apply IH.
Qed.

Lemma held_chain front back :
  Forall (fun s => held s = true) front ->
  Forall (fun s => held s = true) back ->
  Forall (fun s => held s = true) (Conductor.chain front back).
Proof.
  intros Hf Hb. unfold Conductor.chain. apply Forall_app. split; [|exact Hb].
  now apply held_set_last_next.
Qed.

Lemma held_fold_chain others :
  Forall (Forall (fun s => held s = true)) others ->
  forall first,
    Forall (fun s => held s = true) first ->
    Forall (fun s => held s = true) (fold_left Conductor.chain others first).
Proof.
  induction 1 as [|fsm others Hfsm _ IH]; intros first Hfirst; cbn [fold_left];
    [exact Hfirst|].
  apply IH. now apply held_chain.
Qed.

Lemma held_set_first_field f fsm :
  Forall (fun s => held s = true) fsm ->
  Forall (fun s => held s = true) (Conductor.set_first_field f fsm).
Proof.
  destruct fsm as [|s fsm]; intros H; [exact H|].
  inversion H; subst. constructor; assumption.
Qed.

Ltac held_states :=
  repeat first
    [ assumption
    | apply held_chain
    | apply held_set_last_next
    | apply held_set_first_field
    | apply Forall_app; split
    | apply Forall_cons; [first [reflexivity | assumption | apply linkable_string]|]
    | apply Forall_nil ].

Lemma conductor_map_held path components :
  Forall (fun json => payloads linkable json = true ->
                      forall path,
                        Forall (fun s => held s = true) (Conductor.compile json path))
         components ->
  forallb (payloads linkable) components = true ->
  forall index,
    Forall (Forall (fun s => held s = true)) (conductor_map path components index).
Proof.
  induction 1 as [|json components Hjson _ IH]; intros Hp index; cbn [conductor_map];
    constructor; cbn [forallb] in Hp; apply andb_prop in Hp; destruct Hp as [Hj Hp];
    [apply Hjson, Hj|apply IH, Hp].
Qed.

(** [compile] copies the payloads of the composition: each state holds,
    for the key of its type, a payload of the composition or the name of
    an action. *)
Lemma conductor_compile_held json :
  payloads linkable json = true ->
  forall path, Forall (fun s => held s = true) (Conductor.compile json path).
Proof.
  induction json as [components IH|action_name options|code options|v options
                    |body finalizer options IHb IHf|declarations body IHb
                    |body options IHb|body handler options IHb IHh
                    |test consequent alternate options IHt IHc IHa
                    |test body options IHt IHb] using composition_ind_nested;
    intros Hp path; cbn [payloads] in Hp;
    repeat match type of Hp with
           | _ && _ = true => apply andb_prop in Hp; destruct Hp as [Hp ?]
           end.
  - destruct components as [|json components]; [cbn; held_states|].
    rewrite conductor_compile_sequence.
    pose proof (conductor_map_held path IH Hp 0) as Hall.
    cbn [conductor_map] in *. inversion Hall; subst.
    unfold Conductor.reduce_chain. now apply held_fold_chain.
  - cbn. held_states.
  - cbn. held_states.
  - cbn. held_states.
  - cbn [Conductor.compile Conductor.reduce_chain fold_left].
    pose proof (conductor_compile_not_nil body (path ++ ".body")).
    pose proof (IHb Hp (path ++ ".body")).
    pose proof (IHf ltac:(assumption) (path ++ ".finalizer")).
    rewrite !conductor_set_first_catch_chain by nonempty.
    cbn [Conductor.set_first_catch]. held_states.
  - cbn [Conductor.compile Conductor.reduce_chain fold_left].
    pose proof (IHb ltac:(assumption) (path ++ ".body")). held_states.
  - cbn [Conductor.compile Conductor.reduce_chain fold_left].
    pose proof (IHb ltac:(assumption) (path ++ ".body")).
    destruct (truthy (option_of options "field")); held_states.
  - cbn [Conductor.compile Conductor.reduce_chain fold_left].
    pose proof (conductor_compile_not_nil body (path ++ ".body")).
    pose proof (IHb Hp (path ++ ".body")).
    pose proof (IHh ltac:(assumption) (path ++ ".handler")).
    rewrite !conductor_set_first_catch_chain by nonempty.
    cbn [Conductor.set_first_catch]. held_states.
  - cbn [Conductor.compile].
    pose proof (IHt Hp (path ++ ".test")).
    pose proof (IHc ltac:(assumption) (path ++ ".consequent")).
    pose proof (IHa ltac:(assumption) (path ++ ".alternate")).
    destruct (truthy (option_of options "nosave")); cbn [negb];
      held_states.
  - cbn [Conductor.compile].
    pose proof (IHt Hp (path ++ ":test")).
    pose proof (IHb ltac:(assumption) (path ++ ".body")).
    destruct (truthy (option_of options "nosave")); cbn [negb];
      held_states.
Qed.

Lemma link_state objects i o s :
  NoDup (addresses objects) ->
  held s = true ->
  state_ok (fun v => Main.link_value v = Ok v) (addresses objects) i o s ->
  exists a, Main.link objects o = Ok a /\ same_state i s a.
Proof.
  intros Hnodup Hheld (Ht & Hp & Hg & Hn & Hth & He & Hc).
  unfold payload in *. injection Hp as Hp1 Hp2 Hp3 Hp4 Hp5 Hp6.
  inversion Hg as [|? ? G1 Hg1]; subst.
  inversion Hg1 as [|? ? G2 Hg2]; subst.
  inversion Hg2 as [|? ? G3 Hg3]; subst.
  inversion Hg3 as [|? ? G4 Hg4]; subst.
  inversion Hg4 as [|? ? G5 Hg5]; subst.
  inversion Hg5 as [|? ? G6 _]; subst.
  assert (H1 : (if String.eqb (type s) "action" then Main.link_held else Main.link_value)
                 (name s) = Ok (name s)).
  { unfold held in Hheld. destruct (String.eqb (type s) "action"); [|exact G1].
    apply linked_held, Hheld. }
  assert (H2 : (if String.eqb (type s) "function" then Main.link_held else Main.link_value)
                 (exec s) = Ok (exec s)).
  { unfold held in Hheld. destruct (String.eqb_spec (type s) "function") as [E|_]; [|exact G2].
    rewrite E in Hheld. apply linked_held, Hheld. }
  assert (H3 : (if String.eqb (type s) "literal" then Main.link_held else Main.link_value)
                 (value_ s) = Ok (value_ s)).
  { unfold held in Hheld. destruct (String.eqb_spec (type s) "literal") as [E|_]; [|exact G3].
    rewrite E in Hheld. apply linked_held, Hheld. }
  assert (H4 : (if String.eqb (type s) "let" then Main.link_held else Main.link_value)
                 (let_ s) = Ok (let_ s)).
  { unfold held in Hheld. destruct (String.eqb_spec (type s) "let") as [E|_]; [|exact G4].
    rewrite E in Hheld. apply linked_held, Hheld. }
  unfold Main.link.
  rewrite Ht, Hp1, Hp2, Hp3, Hp4, Hp5, Hp6, H1, H2, H3, H4, G5, G6. cbn [bind].
  eexists. split; [reflexivity|].
  unfold same_state, payload.
  cbn [type name exec value_ let_ field collect next then_ else_ catch].
  rewrite (@link_ref_refers objects i _ _ Hnodup Hn),
    (@link_ref_refers objects i _ _ Hnodup Hth),
    (@link_ref_refers objects i _ _ Hnodup He),
    (@link_ref_refers objects i _ _ Hnodup Hc).
  repeat split; assumption.
Qed.

Lemma link_block objects block :
  NoDup (addresses objects) ->
  forall k fsm,
    Forall (fun s => held s = true) fsm ->
    block_ok (fun v => Main.link_value v = Ok v) (addresses objects) k block fsm ->
    exists states,
      Main.link_all objects block = Ok states
      /\ List.length states = List.length fsm
      /\ forall i r a,
          nth_error fsm i = Some r -> nth_error states i = Some a ->
          same_state (k + i) r a.
Proof.
  intros Hnodup. induction block as [|o block IH]; intros k [|s fsm] Hheld H;
    cbn [block_ok] in H; try tauto.
  - exists []. split; [reflexivity|]. split; [reflexivity|].
    intros j ? ? Hr. destruct j; discriminate Hr.
  - destruct H as [Ho Hrest]. inversion Hheld as [|? ? Hs Hfsm]; subst.
    destruct (@link_state objects k o s Hnodup Hs Ho) as (a & Ha & Hsame).
    destruct (IH _ _ Hfsm Hrest) as (states & Hstates & Hlen & Hnth).
    exists (a :: states). cbn [Main.link_all]. rewrite Ha, Hstates. cbn [bind].
    split; [reflexivity|]. split; [cbn [List.length]; now rewrite Hlen|].
    intros [|i] r' a' Hr Ha'; cbn [nth_error] in Hr, Ha'.
    + injection Hr as <-. injection Ha' as <-. now rewrite Nat.add_0_r.
    + rewrite <- Nat.add_succ_comm. exact (Hnth _ _ _ Hr Ha').
Qed.

Lemma block_ok_nth good A objects :
  forall k fsm i s,
    block_ok good A k objects fsm -> nth_error fsm i = Some s ->
    exists o, nth_error objects i = Some o /\ state_ok good A (k + i) o s.
Proof.
  induction objects as [|o objects IH]; intros k [|s' fsm] i s H Hs;
    cbn [block_ok] in H; try tauto.
  - destruct i; discriminate.
  - destruct H as [Ho Hrest]. destruct i as [|i]; cbn [nth_error] in *.
    + injection Hs as <-. exists o. now rewrite Nat.add_0_r.
    + rewrite <- Nat.add_succ_comm. exact (IH _ _ _ _ Hrest Hs).
Qed.

Lemma refers_inside A i reference offset :
  refers A i reference offset -> inside (List.length A) i offset = true.
Proof.
  destruct reference as [a|], offset as [d|]; cbn [refers inside]; try tauto.
  intros (n & _ & P & Q & -> & Hk). rewrite length_app. cbn [List.length].
  apply andb_true_intro. split; [apply Z.leb_le|apply Z.ltb_lt]; lia.
Qed.

Lemma payloads_any json : payloads (fun _ => true) json = true.
Proof.
  induction json as [components IH|action_name options|code options|v options
                    |body finalizer options IHb IHf|declarations body IHb
                    |body options IHb|body handler options IHb IHh
                    |test consequent alternate options IHt IHc IHa
                    |test body options IHt IHb] using composition_ind_nested;
    cbn [payloads]; rewrite ?IHb, ?IHf, ?IHh, ?IHt, ?IHc, ?IHa; try reflexivity.
  - induction IH as [|json components Hjson _ IH]; [reflexivity|].
    cbn [forallb]. now rewrite Hjson, IH.
  - now destruct (truthy (option_of options "field")).
Qed.

Lemma in_indexed (fsm : list fsm_state) :
  forall k i s,
    In (i, s) (combine (seq k (List.length fsm)) fsm) ->
    exists j, i = (k + j)%nat /\ nth_error fsm j = Some s.
Proof.
  induction fsm as [|s' fsm IH]; intros k i s Hin; cbn [List.length seq combine] in Hin.
  - destruct Hin.
  - destruct Hin as [Heq|Hin].
    + injection Heq as <- <-. exists 0%nat. split; [lia|reflexivity].
    + destruct (IH _ _ _ Hin) as (j & -> & Hj). exists (S j). split; [lia|exact Hj].
Qed.

Lemma state_ok_inside good A i o s :
  state_ok good A i o s -> jumps_inside (List.length A) i s = true.
Proof.
  intros (_ & _ & _ & Hn & Hth & He & Hc). unfold jumps_inside.
  now rewrite (@refers_inside _ _ _ _ Hn), (@refers_inside _ _ _ _ Hth),
    (@refers_inside _ _ _ _ He), (@refers_inside _ _ _ _ Hc).
Qed.

Lemma conductor_compile_inside json path i s :
  nth_error (Conductor.compile json path) i = Some s ->
  jumps_inside (List.length (Conductor.compile json path)) i s = true.
Proof.
  intros Hs.
  destruct (Main.compile json "" 0) as [objects n'] eqn:E.
  destruct (@compile_related (fun _ => True) (fun _ => true)
              I (fun _ => I) (fun _ => I) (fun _ _ => I)
              json (payloads_any json) "" path 0%nat objects n' E)
    as (R & L & _).
  destruct (@block_ok_nth _ _ _ _ _ _ _ R Hs) as (o & _ & Ho).
  apply state_ok_inside in Ho. now rewrite addresses_length, L in Ho.
Qed.

(** X13.  The states that the [conductor] function compiles have their jumps
    inside the FSM: for every composition, every [next], [then], [else]
    and [catch] of a state added to the index of that state is the index of
    a state. *)
Theorem compiled_jumps_inside (json : composition) (path : string) :
  all_inside (Conductor.compile json path) = true.
Proof.
  unfold all_inside. apply forallb_forall. intros [i s] Hin. cbn [fst snd].
  destruct (@in_indexed _ _ _ _ Hin) as (j & -> & Hj).
  now apply conductor_compile_inside.
Qed.

Lemma inside_absolute n i offset :
  inside n 0 (absolute i offset) = inside n i offset.
Proof. destruct offset; reflexivity. Qed.

(** X14.  [__init__] of [composer.js] and [compile] of the [conductor] function
    make the same machine: for a composition whose payloads are there, are
    not [null] and have no truthy [type], [__init__] succeeds and gives as
    many states, each with the type and the payload of the state at the
    same index, and each of its jumps is the index of a state, namely that
    index added to the offset that the [conductor] function stores. *)
Theorem init_agrees_with_conductor (json : composition) :
  payloads linkable json = true ->
  exists states,
    Main.__init__ json = Ok states
    /\ List.length states = List.length (Conductor.compile json "")
    /\ forall i r a,
        nth_error (Conductor.compile json "") i = Some r ->
        nth_error states i = Some a ->
        same_state i r a /\ jumps_inside (List.length states) 0 a = true.
Proof.
  intros Hp. unfold Main.__init__.
  destruct (Main.compile json "" 0) as [objects n'] eqn:E. cbn [fst].
  destruct (@main_compile_fresh _ _ _ _ _ E) as (_ & _ & Hnodup & _).
  destruct (@compile_related (fun v => Main.link_value v = Ok v) linkable
              linked_undefined linked_string linked_boolean linked_linkable
              json Hp "" "" 0%nat objects n' E)
    as (R & L & _).
  destruct (@link_block _ _ Hnodup _ _ (conductor_compile_held json Hp "") R)
    as (states & Hstates & Hlen & Hnth).
  exists states. split; [exact Hstates|]. split; [exact Hlen|].
  intros i r a Hr Ha. pose proof (Hnth _ _ _ Hr Ha) as Hsame.
  split; [exact Hsame|].
  destruct (@block_ok_nth _ _ _ _ _ _ _ R Hr) as (o & _ & Ho).
  apply state_ok_inside in Ho. rewrite addresses_length, L, <- Hlen in Ho.
  destruct Hsame as (_ & _ & Hn & Hth & He & Hc).
  unfold jumps_inside in *. cbn [Nat.add] in Ho.
  now rewrite Hn, Hth, He, Hc, !inside_absolute.
Qed.

Lemma init_agrees_with_conductor_witness :
  exists states,
    Main.__init__ (Try (Sequence [Action "a" VUndef; while_literals])
                       (Let (VObj [("x", num 1)]) if_one) VUndef) = Ok states
    /\ List.length states = 20%nat.
Proof.
  destruct (@init_agrees_with_conductor
              (Try (Sequence [Action "a" VUndef; while_literals])
                   (Let (VObj [("x", num 1)]) if_one) VUndef) eq_refl)
    as (states & Hstates & Hlen & _).
  exists states. split; [exact Hstates|]. rewrite Hlen. reflexivity.
Defined.

(** ** Payloads that [__init__] takes for state objects *)

(** X15.  [__init__] takes a payload with a truthy [type] for a state object.  The
    value of a literal that has one is replaced by [-1], the index of an
    object that is in no place of the FSM, and [main] of [composer.js]
    answers with [{ value: -1 }] where the [conductor] function answers
    with the value; on the value [null], [__init__] throws. *)
Theorem literal_with_type_is_replaced :
  forall user_eval props options input fuel,
    truthy (lookup "type" props) = true ->
    is_json (VObj props) = true ->
    lookup "error" props = VUndef ->
    lookup "$resume" input = VUndef ->
    Main.__init__ (Literal (VObj props) options)
    = Ok [with_value (VNum (Int (-1))) (new_state "literal" "")]
    /\ Main.action user_eval (Literal (VObj props) options) (S (S fuel)) (VObj input)
       = Some (Resolved (VObj [("params", VObj [("value", VNum (Int (-1)))])]))
    /\ Conductor.conductor user_eval (Literal (VObj props) options) (S (S fuel))
         (VObj input)
       = Some (Resolved (VObj [("params", VObj props)]))
    /\ Main.__init__ (Literal VNull options)
       = Fail (Thrown (TypeError_property VNull "type")).
Proof.
  intros ue props options input fuel Htype Hjson Herror Hresume.
  assert (Hinit : Main.__init__ (Literal (VObj props) options)
                  = Ok [with_value (VNum (Int (-1))) (new_state "literal" "")]).
  { unfold Main.__init__. cbn [Main.compile fst Main.link_all].
    unfold Main.link, Main.link_value, Main.link_held.
    cbv [Main.content with_value new_state name exec value_ let_ field collect
         type path next then_ else_ catch].
    cbn [is_undefined bind getprop Main.link_ref option_map
         String.eqb Ascii.eqb Bool.eqb].
    rewrite Htype. reflexivity. }
  split; [exact Hinit|]. split; [|split; [|reflexivity]].
  - unfold Main.action. rewrite Hinit.
    unfold Main.main, Main.invoke, Main.resume.
    cbn [getprop bind]. rewrite Hresume. cbn [is_undefined negb].
    reflexivity.
  - unfold Conductor.conductor, Conductor.main, Conductor.invoke, Conductor.resume.
    cbn [getprop bind]. rewrite Hresume. cbn [is_undefined negb].
    cbn [Conductor.compile Conductor.loop Conductor.iteration state is_undefined
         Conductor.state_at Z.leb Z.to_nat nth_error option_map Z.compare].
    unfold Conductor.dispatch.
    cbn [type with_value new_state String.eqb Ascii.eqb Bool.eqb value_ next
         stack params state].
    rewrite (json_clone_json _ Hjson). cbn [bind].
    unfold inspect. cbn [params isObject getprop bind stack state].
    rewrite Herror. cbn [is_undefined negb bind].
    unfold Conductor.iteration. cbn [state is_undefined params].
    unfold final. cbn [getprop bind]. rewrite Herror. reflexivity.
Qed.

Lemma literal_with_type_is_replaced_witness :
  Main.action no_user_code (Literal (VObj [("type", VStr "point"); ("x", num 1)]) VUndef)
    2 (VObj [])
  = Some (Resolved (VObj [("params", VObj [("value", VNum (Int (-1)))])]))
  /\ Conductor.conductor no_user_code
       (Literal (VObj [("type", VStr "point"); ("x", num 1)]) VUndef) 2 (VObj [])
     = Some (Resolved (VObj [("params", VObj [("type", VStr "point"); ("x", num 1)])])).
Proof.
  destruct (@literal_with_type_is_replaced no_user_code
              [("type", VStr "point"); ("x", num 1)] VUndef [] 0%nat
              eq_refl eq_refl eq_refl eq_refl) as (_ & Hmain & Hconductor & _).
  split; [exact Hmain|exact Hconductor].
Defined.

(** ** The frame of a [try] *)

(** X16.  The frame of a [try] outlives its body in the [conductor] function.
    When the body, here a literal, ends without an error, the machine goes
    from the body to the [pass] that ends the block and from there to the
    state after the block, and the frame with the [catch] is still the
    first of the stack. *)
Theorem try_keeps_its_frame :
  forall user_eval props literal_options handler options path frames input,
    is_json (VObj props) = true ->
    lookup "error" props = VUndef ->
    let fsm := Conductor.compile
                 (Try (Literal (VObj props) literal_options) handler options) path in
    exists m1 m2,
      Conductor.iteration user_eval fsm (Machine (VNum (Int 0)) frames input)
      = Ok (Continue m1)
      /\ Conductor.iteration user_eval fsm m1 = Ok (Continue m2)
      /\ Conductor.iteration user_eval fsm m2
         = Ok (Continue (Machine VUndef
                           (VObj [("catch", VNum (Int 2))] :: frames)
                           (VObj props))).
Proof.
  intros ue props literal_options handler options path frames input Hjson Herror fsm.
  set (h := Conductor.compile handler (path ++ ".handler")).
  set (pass := new_state "pass" path).
  set (last := Z.of_nat (List.length h) + 2).
  assert (Hfsm : fsm
                 = with_next (Some 1) (with_catch (Some 2) (new_state "try" path))
                   :: with_next (Some (Conductor.len h + 1))
                        (with_value (VObj props)
                           (new_state "literal" (path ++ ".body")))
                   :: (Conductor.set_last_next 1 h ++ [pass])%list).
  { subst fsm. cbn [Conductor.compile]. fold h. unfold Conductor.chain at 2.
    fold pass. cbn [Conductor.reduce_chain fold_left Conductor.chain
                    Conductor.set_last_next app Conductor.set_first_catch
                    Conductor.len List.length Z.of_nat Pos.of_succ_nat Pos.succ].
    unfold Conductor.len. rewrite conductor_chain_length.
    cbn [List.length].
    now replace (Z.of_nat (List.length h + 1)) with (Z.of_nat (List.length h) + 1)
      by lia. }
  assert (Hpass : Conductor.state_at fsm (VNum (Int last)) = Some (last, pass)).
  { unfold Conductor.state_at. subst last.
    destruct (Z.leb_spec 0 (Z.of_nat (List.length h) + 2)) as [_|Hneg]; [|lia].
    replace (Z.to_nat (Z.of_nat (List.length h) + 2))
      with (S (S (List.length (Conductor.set_last_next 1 h) + 0)))
      by (rewrite conductor_set_last_next_length; lia).
    rewrite Hfsm. cbn [nth_error].
    rewrite nth_error_app2 by lia.
    replace (List.length (Conductor.set_last_next 1 h) + 0
             - List.length (Conductor.set_last_next 1 h))%nat with 0%nat by lia.
    reflexivity. }
  set (try_ := with_next (Some 1) (with_catch (Some 2) (new_state "try" path))) in *.
  set (literal := with_next (Some (Conductor.len h + 1))
                    (with_value (VObj props)
                       (new_state "literal" (path ++ ".body")))) in *.
  assert (H0 : Conductor.state_at fsm (VNum (Int 0)) = Some (0, try_))
    by (rewrite Hfsm; reflexivity).
  assert (H1 : Conductor.state_at fsm (VNum (Int 1)) = Some (1, literal))
    by (rewrite Hfsm; reflexivity).
  exists (Machine (VNum (Int 1)) (VObj [("catch", VNum (Int 2))] :: frames) input),
         (Machine (VNum (Int last)) (VObj [("catch", VNum (Int 2))] :: frames)
                  (VObj props)).
  split; [|split].
  - unfold Conductor.iteration. cbn [state is_undefined]. rewrite H0. reflexivity.
  - unfold Conductor.iteration. cbn [state is_undefined]. rewrite H1.
    change (next literal) with (Some (Conductor.len h + 1)).
    assert (Hty : type literal = "literal") by reflexivity.
    case_of Hty. change (value_ literal) with (VObj props).
    cbn [stack params state].
    rewrite (json_clone_json _ Hjson). cbn [bind].
    unfold inspect. cbn [params isObject getprop bind stack state].
    rewrite Herror. cbn [is_undefined negb bind].
    subst last. unfold Conductor.len.
    now replace (1 + (Z.of_nat (List.length h) + 1))
      with (Z.of_nat (List.length h) + 2) by lia.
  - unfold Conductor.iteration. cbn [state is_undefined]. rewrite Hpass.
    change (next pass) with (@None Z).
    assert (Hty : type pass = "pass") by reflexivity.
    case_of Hty.
    unfold inspect. cbn [params isObject getprop bind stack state].
    rewrite Herror. reflexivity.
Qed.

Lemma try_keeps_its_frame_witness :
  let fsm := Conductor.compile (Try (Literal (VObj [("x", num 1)]) VUndef)
                                    (Literal (VObj []) VUndef) VUndef) "" in
  exists m1 m2,
    Conductor.iteration no_user_code fsm (Machine (VNum (Int 0)) [] (VObj []))
    = Ok (Continue m1)
    /\ Conductor.iteration no_user_code fsm m1 = Ok (Continue m2)
    /\ Conductor.iteration no_user_code fsm m2
       = Ok (Continue (Machine VUndef [VObj [("catch", VNum (Int 2))]]
                               (VObj [("x", num 1)]))).
Proof.
  exact (@try_keeps_its_frame no_user_code [("x", num 1)] VUndef
           (Literal (VObj []) VUndef) VUndef "" [] (VObj []) eq_refl eq_refl).
Defined.

(** ** The machine stays inside the FSM *)

Lemma well_formed_with_next n s : well_formed (with_next n s) = well_formed s.
Proof. reflexivity. Qed.

Lemma well_formed_with_field f s : well_formed (with_field f s) = well_formed s.
Proof. reflexivity. Qed.

Lemma well_formed_set_last_next k fsm :
  Forall (fun s => well_formed s = true) fsm ->
  Forall (fun s => well_formed s = true) (Conductor.set_last_next k fsm).
Proof.
  induction fsm as [|s [|s' fsm] IH]; intros H; [exact H| |].
  - inversion H; subst. constructor; [|constructor].
    now rewrite well_formed_with_next.
  - inversion H; subst. constructor; [assumption|]. now apply IH.
Qed.

Lemma well_formed_chain front back :
  Forall (fun s => well_formed s = true) front ->
  Forall (fun s => well_formed s = true) back ->
  Forall (fun s => well_formed s = true) (Conductor.chain front back).
Proof.
  intros Hf Hb. unfold Conductor.chain. apply Forall_app. split; [|exact Hb].
  now apply well_formed_set_last_next.
Qed.

Lemma well_formed_fold_chain others :
  Forall (Forall (fun s => well_formed s = true)) others ->
  forall first,
    Forall (fun s => well_formed s = true) first ->
    Forall (fun s => well_formed s = true) (fold_left Conductor.chain others first).
Proof.
  induction 1 as [|fsm others Hfsm _ IH]; intros first Hfirst; cbn [fold_left];
    [exact Hfirst|].
  apply IH. now apply well_formed_chain.
Qed.

Lemma well_formed_set_first_field f fsm :
  Forall (fun s => well_formed s = true) fsm ->
  Forall (fun s => well_formed s = true) (Conductor.set_first_field f fsm).
Proof.
  destruct fsm as [|s fsm]; intros H; [exact H|].
  inversion H; subst. constructor; [|assumption].
  now rewrite well_formed_with_field.
Qed.

Ltac well_formed_states :=
  repeat first
    [ assumption
    | apply well_formed_chain
    | apply well_formed_set_last_next
    | apply well_formed_set_first_field
    | apply Forall_app; split
    | apply Forall_cons; [reflexivity|]
    | apply Forall_nil ].

Lemma conductor_map_well_formed path components :
  Forall (fun json => forall path,
              Forall (fun s => well_formed s = true) (Conductor.compile json path))
         components ->
  forall index,
    Forall (Forall (fun s => well_formed s = true))
           (conductor_map path components index).
Proof.
  induction 1 as [|json components Hjson _ IH]; intros index; cbn [conductor_map];
    constructor; [apply Hjson|apply IH].
Qed.

(** [compile] makes states of the known types only, a [choice] with both
    its branches and a [try] with its [catch]. *)
Lemma conductor_compile_well_formed json :
  forall path, Forall (fun s => well_formed s = true) (Conductor.compile json path).
Proof.
  induction json as [components IH|action_name options|code options|v options
                    |body finalizer options IHb IHf|declarations body IHb
                    |body options IHb|body handler options IHb IHh
                    |test consequent alternate options IHt IHc IHa
                    |test body options IHt IHb] using composition_ind_nested;
    intros path.
  - destruct components as [|json components]; [cbn; well_formed_states|].
    rewrite conductor_compile_sequence.
    pose proof (conductor_map_well_formed path IH 0) as Hall.
    cbn [conductor_map] in *. inversion Hall; subst.
    unfold Conductor.reduce_chain. now apply well_formed_fold_chain.
  - cbn. well_formed_states.
  - cbn. well_formed_states.
  - cbn. well_formed_states.
  - cbn [Conductor.compile Conductor.reduce_chain fold_left].
    pose proof (conductor_compile_not_nil body (path ++ ".body")).
    pose proof (IHb (path ++ ".body")). pose proof (IHf (path ++ ".finalizer")).
    rewrite !conductor_set_first_catch_chain by nonempty.
    cbn [Conductor.set_first_catch]. well_formed_states.
  - cbn [Conductor.compile Conductor.reduce_chain fold_left].
    pose proof (IHb (path ++ ".body")). well_formed_states.
  - cbn [Conductor.compile Conductor.reduce_chain fold_left].
    pose proof (IHb (path ++ ".body")).
    destruct (truthy (option_of options "field")); well_formed_states.
  - cbn [Conductor.compile Conductor.reduce_chain fold_left].
    pose proof (conductor_compile_not_nil body (path ++ ".body")).
    pose proof (IHb (path ++ ".body")). pose proof (IHh (path ++ ".handler")).
    rewrite !conductor_set_first_catch_chain by nonempty.
    cbn [Conductor.set_first_catch]. well_formed_states.
  - cbn [Conductor.compile].
    pose proof (IHt (path ++ ".test")). pose proof (IHc (path ++ ".consequent")).
    pose proof (IHa (path ++ ".alternate")).
    destruct (truthy (option_of options "nosave")); cbn [negb];
      well_formed_states.
  - cbn [Conductor.compile].
    pose proof (IHt (path ++ ":test")). pose proof (IHb (path ++ ".body")).
    destruct (truthy (option_of options "nosave")); cbn [negb];
      well_formed_states.
Qed.

Lemma machine_inside_intro n m :
  state_inside n (state m) = true ->
  forallb is_stack_frame (stack m) = true ->
  forallb (handler_inside n) (stack m) = true ->
  machine_inside n m = true.
Proof. intros H1 H2 H3. unfold machine_inside. now rewrite H1, H2, H3. Qed.

Lemma machine_inside_elim n m :
  machine_inside n m = true ->
  state_inside n (state m) = true
  /\ forallb is_stack_frame (stack m) = true
  /\ forallb (handler_inside n) (stack m) = true.
Proof.
  unfold machine_inside. intros H.
  apply andb_prop in H. destruct H as [H H3].
  apply andb_prop in H. destruct H as [H1 H2]. auto.
Qed.

Lemma stack_frames_are_frames frames :
  forallb is_stack_frame frames = true -> forallb is_frame frames = true.
Proof.
  induction frames as [|frame frames IH]; [reflexivity|]. cbn [forallb].
  intros H. apply andb_prop in H. destruct H as [Hf Hr].
  unfold is_stack_frame in Hf. apply andb_prop in Hf.
  now rewrite (proj1 Hf), (IH Hr).
Qed.

Lemma handler_of_inside n frames :
  forallb is_stack_frame frames = true ->
  forallb (handler_inside n) frames = true ->
  state_inside n (fst (handler_of frames)) = true
  /\ forallb is_stack_frame (snd (handler_of frames)) = true
  /\ forallb (handler_inside n) (snd (handler_of frames)) = true.
Proof.
  induction frames as [|frame frames IH]; [auto|]. cbn [forallb].
  intros Hf Hh. apply andb_prop in Hf. destruct Hf as [Hf Hfs].
  apply andb_prop in Hh. destruct Hh as [Hh Hhs].
  cbn [handler_of]. destruct frame as [| | | | | |props|]; try (now apply IH).
  unfold handler_inside in Hh. cbn [getprop] in Hh.
  destruct (lookup "catch" props); try (now apply IH).
  cbn [fst snd]. auto.
Qed.

Lemma inspect_inside n m m' :
  state_inside n (state m) = true ->
  forallb is_stack_frame (stack m) = true ->
  forallb (handler_inside n) (stack m) = true ->
  inspect m = Ok m' ->
  machine_inside n m' = true.
Proof.
  intros Hst Hf Hh H. unfold inspect in H.
  destruct (getprop (if isObject (params m) then params m
                     else VObj [("value", params m)]) "error") as [e|];
    [|discriminate].
  cbn [bind] in H. destruct (negb (is_undefined e)).
  - rewrite (@unwind_undefined _ (@stack_frames_are_frames _ Hf)) in H.
    cbn [bind] in H. injection H as <-.
    destruct (@handler_of_inside n _ Hf Hh) as (H1 & H2 & H3).
    now apply machine_inside_intro.
  - injection H as <-. now apply machine_inside_intro.
Qed.

Lemma same_handlers n frames frames' :
  Forall2 same_but_let frames frames' ->
  forallb (handler_inside n) frames = true ->
  forallb (handler_inside n) frames' = true.
Proof.
  induction 1 as [|frame frame' frames frames' [Hc _] _ IH]; [auto|].
  cbn [forallb]. intros H. apply andb_prop in H. destruct H as [Hh Hhs].
  unfold handler_inside in *. rewrite <- Hc, Hh. now apply IH.
Qed.

Lemma jump_inside n i k offset d :
  Z.of_nat i = k -> inside n i offset = true -> offset = Some d ->
  state_inside n (VNum (Int (k + d))) = true.
Proof. intros <- H ->. exact H. Qed.

Lemma next_inside n i k offset :
  Z.of_nat i = k -> inside n i offset = true ->
  state_inside n match offset with
                 | None => VUndef
                 | Some d => VNum (Int (k + d))
                 end = true.
Proof. intros <- H. destruct offset; [exact H|reflexivity]. Qed.

Lemma conductor_iteration_inside user_eval fsm m :
  Forall declares_object fsm ->
  Forall (fun s => well_formed s = true) fsm ->
  (forall i s, nth_error fsm i = Some s ->
               jumps_inside (List.length fsm) i s = true) ->
  machine_inside (List.length fsm) m = true ->
  (is_undefined (state m) = false ->
   exists current json,
     Conductor.state_at fsm (state m) = Some (current, json)
     /\ known_type json = true)
  /\ forall m',
      Conductor.iteration user_eval fsm m = Ok (Continue m') ->
      machine_inside (List.length fsm) m' = true.
Proof.
  intros Hdecl Hwf Hin Hm.
  destruct (@machine_inside_elim _ _ Hm) as (Hst & Hf & Hh).
  unfold Conductor.iteration.
  destruct (state m) as [| | |[k|]| | | |] eqn:Estate; try discriminate Hst.
  { split; [discriminate|]. intros m' H. cbn [is_undefined] in H.
    destruct (final (params m)); discriminate. }
  cbn [state_inside] in Hst. apply andb_prop in Hst. destruct Hst as [H0 Hn].
  apply Z.leb_le in H0. apply Z.ltb_lt in Hn.
  assert (Hi : Z.of_nat (Z.to_nat k) = k) by lia.
  destruct (nth_error fsm (Z.to_nat k)) as [json|] eqn:Hnth;
    [|apply nth_error_None in Hnth; lia].
  assert (Hat : Conductor.state_at fsm (VNum (Int k)) = Some (k, json)).
  { unfold Conductor.state_at. destruct (Z.leb_spec 0 k); [|lia].
    now rewrite Hnth. }
  rewrite Forall_forall in Hdecl, Hwf.
  pose proof (Hdecl _ (nth_error_In _ _ Hnth)) as Hjson.
  pose proof (Hwf _ (nth_error_In _ _ Hnth)) as Hwell.
  pose proof (Hin _ _ Hnth) as Hjumps.
  unfold well_formed in Hwell.
  apply andb_prop in Hwell. destruct Hwell as [Hwell Htry].
  apply andb_prop in Hwell. destruct Hwell as [Hknown Hchoice].
  unfold jumps_inside in Hjumps.
  apply andb_prop in Hjumps. destruct Hjumps as [Hjumps Hcatch].
  apply andb_prop in Hjumps. destruct Hjumps as [Hjumps Helse].
  apply andb_prop in Hjumps. destruct Hjumps as [Hnext Hthen].
  split; [intros _; exists k, json; split; assumption|].
  intros m' H. cbn [is_undefined] in H. rewrite Hat in H.
  pose proof (@next_inside _ _ _ _ Hi Hnext) as Hstate.
  set (next' := match next json with
                | Some d => VNum (Int (k + d))
                | None => VUndef
                end) in *.
  unfold Conductor.dispatch in H. cbn [params stack state] in H.
  by_type H json.
  - destruct (getprop (params m) "value") as [v|]; [|discriminate].
    injection H as <-. apply andb_prop in Hchoice. destruct Hchoice as [Ht He].
    destruct (then_ json) as [t|] eqn:Et; [|discriminate].
    destruct (else_ json) as [e|] eqn:Ee; [|discriminate].
    apply machine_inside_intro; cbn [state stack]; try assumption.
    destruct (truthy v); cbn [Conductor.jump].
    + exact (@jump_inside _ _ _ _ _ Hi Hthen eq_refl).
    + exact (@jump_inside _ _ _ _ _ Hi Helse eq_refl).
  - injection H as <-. destruct (catch json) as [c|] eqn:Ec; [|discriminate].
    apply machine_inside_intro; cbn [state stack forallb];
      rewrite ?Hf, ?Hh, ?andb_true_r; try assumption; try reflexivity.
    unfold handler_inside.
    cbn [getprop lookup String.eqb Ascii.eqb Bool.eqb Conductor.jump].
    exact (@jump_inside _ _ _ _ _ Hi Hcatch eq_refl).
  - destruct (Hjson ltac:(apply String.eqb_eq; assumption)) as (l & Hl & Hu).
    rewrite Hl in H.
    destruct (json_copy_object l) as (l' & Hl' & _ & Hu').
    unfold json_clone in H. cbn [unserializable] in H. rewrite Hl' in H.
    injection H as <-.
    apply machine_inside_intro; cbn [state stack forallb];
      rewrite ?Hf, ?Hh, ?andb_true_r; try assumption; try reflexivity.
    unfold is_stack_frame. cbn. now rewrite (Hu' Hu).
  - destruct (stack m) as [|frame rest]; [discriminate|]. injection H as <-.
    cbn [forallb] in Hf, Hh.
    apply andb_prop in Hf. apply andb_prop in Hh.
    apply machine_inside_intro; cbn [state stack]; tauto.
  - destruct (if truthy (field json)
              then getprop (params m) (to_string (field json))
              else Ok (params m)) as [saved|]; [|discriminate].
    cbn [bind] in H. unfold json_clone in H. cbn [unserializable json_copy] in H.
    injection H as <-.
    apply machine_inside_intro; cbn [state stack forallb];
      rewrite ?Hf, ?Hh, ?andb_true_r; try assumption;
      now destruct (unserializable saved).
  - destruct (stack m) as [|frame rest]; [discriminate|].
    destruct (getprop frame "params"); [|discriminate]. injection H as <-.
    cbn [forallb] in Hf, Hh.
    apply andb_prop in Hf. apply andb_prop in Hh.
    apply machine_inside_intro; cbn [state stack]; tauto.
  - discriminate.
  - destruct (json_clone (value_ json)) as [p|]; [|discriminate]. cbn [bind] in H.
    destruct (inspect (Machine next' (stack m) p)) as [m1|] eqn:Hinspect;
      [|discriminate].
    injection H as <-.
    exact (@inspect_inside _ (Machine next' (stack m) _) _ Hstate Hf Hh Hinspect).
  - destruct (Conductor.try_run user_eval json (Machine next' (stack m) (params m)))
      as [c stack'] eqn:Hrun.
    destruct (Conductor.function_params k c (params m)) as [p|]; [|discriminate].
    cbn [bind] in H.
    destruct (inspect (Machine next' stack' p)) as [m1|] eqn:Hinspect;
      [|discriminate].
    injection H as <-.
    assert (Hkept : forallb is_stack_frame stack' = true
                    /\ forallb (handler_inside (List.length fsm)) stack' = true).
    { unfold Conductor.try_run in Hrun.
      destruct (getprop (exec json) "exec") as [f|].
      - destruct (run_keeps_frames user_eval f
                    (Machine next' (stack m) (params m)) Hf) as [Hk Hsame].
        rewrite Hrun in Hk, Hsame. cbn [snd stack] in Hk, Hsame.
        split; [exact Hk|exact (@same_handlers _ _ _ Hsame Hh)].
      - injection Hrun as _ <-. now split. }
    exact (@inspect_inside _ (Machine next' stack' p) _ Hstate (proj1 Hkept)
             (proj2 Hkept) Hinspect).
  - destruct (inspect (Machine next' (stack m) (params m))) as [m1|] eqn:Hinspect;
      [|discriminate].
    injection H as <-.
    exact (@inspect_inside _ (Machine next' (stack m) _) _ Hstate Hf Hh Hinspect).
  - discriminate.
Qed.

(** X17.  The [conductor] function never leaves the FSM that it compiled.  While
    the state is the index of a state or [undefined], and the frames have
    for [catch] the index of a state, the state that [invoke] reads is
    there and has one of the types of the [switch], and a turn of the loop
    that goes on leaves the machine so.  The machine starts so.  The [let]
    states declare an object that has each key once. *)
Theorem conductor_stays_inside :
  forall user_eval json path (m : machine),
    Forall declares_object (Conductor.compile json path) ->
    machine_inside (List.length (Conductor.compile json path)) m = true ->
    (is_undefined (state m) = false ->
     exists current s,
       Conductor.state_at (Conductor.compile json path) (state m) = Some (current, s)
       /\ known_type s = true)
    /\ (forall m',
           Conductor.iteration user_eval (Conductor.compile json path) m
           = Ok (Continue m') ->
           machine_inside (List.length (Conductor.compile json path)) m' = true)
    /\ (forall input,
           machine_inside (List.length (Conductor.compile json path))
                          (Machine (VNum (Int 0)) [] input) = true).
Proof.
  intros ue json path m Hdecl Hm.
  destruct (@conductor_iteration_inside ue (Conductor.compile json path) m Hdecl
              (conductor_compile_well_formed json path)
              (@conductor_compile_inside json path) Hm) as [Hthere Hstep].
  split; [exact Hthere|]. split; [exact Hstep|].
  intros input. unfold machine_inside. cbn [state stack forallb state_inside].
  pose proof (conductor_compile_not_nil json path) as Hpos.
  rewrite !andb_true_r. apply Z.ltb_lt. lia.
Qed.

Lemma conductor_stays_inside_witness :
  machine_inside 3 (Machine (VNum (Int 1)) [VObj [("let", VObj [])]] (VObj [])) = true.
Proof.
  assert (Hdecl : Forall declares_object (Conductor.compile let_action "")).
  { repeat constructor; intros Htype; try discriminate Htype.
    exists []. split; reflexivity. }
  destruct (@conductor_stays_inside no_user_code let_action ""
              (Machine (VNum (Int 0)) [] (VObj [])) Hdecl eq_refl)
    as (_ & Hstep & _).
  exact (Hstep _ eq_refl).
Defined.

(** ** The machine of [composer.js] stays inside the FSM *)

(** The property key of a number that is an index. *)
Lemma nat_to_lu n :
  DecimalNat.Unsigned.to_lu n = DecimalPos.Unsigned.to_lu (N.of_nat n).
Proof.
  induction n as [|n IH]; [reflexivity|].
  rewrite Nnat.Nat2N.inj_succ, DecimalPos.Unsigned.to_lu_succ, <- IH. reflexivity.
Qed.

Lemma index_key_number i : to_string (VNum (Int (Z.of_nat i))) = index_key i.
Proof.
  unfold index_key. cbn [to_string number_to_string].
  rewrite DecimalNat.Unsigned.to_uint_alt, nat_to_lu.
  destruct i; reflexivity.
Qed.

Lemma to_uint_not_nil n : Nat.to_uint n <> Decimal.Nil.
Proof.
  rewrite <- (DecimalNat.Unsigned.of_to n) at 1.
  rewrite DecimalNat.Unsigned.to_of. apply DecimalFacts.unorm_nonnil.
Qed.

Lemma index_key_inj i j : index_key i = index_key j -> i = j.
Proof.
  unfold index_key. intros H.
  apply (f_equal NilZero.uint_of_string) in H.
  rewrite !NilZero.usu in H by apply to_uint_not_nil.
  injection H as H. now apply DecimalNat.Unsigned.to_uint_inj.
Qed.

Lemma find_only (f : nat -> bool) x l :
  In x l -> f x = true -> (forall y, f y = true -> y = x) ->
  find f l = Some x.
Proof.
  intros Hin Hx Honly. induction l as [|y l IH]; [destruct Hin|].
  cbn [find]. destruct (f y) eqn:Hy.
  - now rewrite (Honly _ Hy).
  - destruct Hin as [->|Hin]; [congruence|now apply IH].
Qed.

(** [states[state]] for a state that is an index. *)
Lemma main_state_at_index states i :
  (i < List.length states)%nat ->
  Main.state_at states (VNum (Int (Z.of_nat i))) = nth_error states i.
Proof.
  intros Hi. unfold Main.state_at. rewrite index_key_number.
  rewrite (@find_only (fun j => String.eqb (index_key i) (index_key j)) i).
  - reflexivity.
  - apply in_seq. lia.
  - apply String.eqb_refl.
  - intros j Hj. apply String.eqb_eq in Hj. symmetry. now apply index_key_inj.
Qed.

Lemma main_state_at_in states st json :
  Main.state_at states st = Some json -> In json states.
Proof.
  unfold Main.state_at.
  destruct (find _ _) as [i|]; [|discriminate]. apply nth_error_In.
Qed.

Lemma target_inside n offset :
  inside n 0 offset = true -> state_inside n (Main.target offset) = true.
Proof. destruct offset; [exact (fun H => H)|reflexivity]. Qed.

Lemma main_iteration_inside user_eval states m :
  Forall declares_object states ->
  Forall (fun s => well_formed s = true) states ->
  Forall (fun s => jumps_inside (List.length states) 0 s = true) states ->
  machine_inside (List.length states) m = true ->
  (is_undefined (state m) = false ->
   exists json,
     Main.state_at states (state m) = Some json /\ known_type json = true)
  /\ forall m',
      Main.iteration user_eval states m = Ok (Continue m') ->
      machine_inside (List.length states) m' = true.
Proof.
  intros Hdecl Hwf Hin Hm.
  destruct (@machine_inside_elim _ _ Hm) as (Hst & Hf & Hh).
  rewrite Forall_forall in Hdecl, Hwf, Hin.
  split.
  - intros Hdefined.
    destruct (state m) as [| | |[k|]| | | |]; try discriminate.
    cbn [state_inside] in Hst. apply andb_prop in Hst. destruct Hst as [H0 Hn].
    apply Z.leb_le in H0. apply Z.ltb_lt in Hn.
    rewrite <- (Z2Nat.id k H0), main_state_at_index by lia.
    destruct (nth_error states (Z.to_nat k)) as [json|] eqn:Hnth;
      [|apply nth_error_None in Hnth; lia].
    exists json. split; [reflexivity|].
    pose proof (Hwf _ (nth_error_In _ _ Hnth)) as Hwell.
    unfold well_formed in Hwell.
    apply andb_prop in Hwell. destruct Hwell as [Hwell _].
    apply andb_prop in Hwell. exact (proj1 Hwell).
  - intros m' H. unfold Main.iteration in H.
    destruct (is_undefined (state m)).
    { destruct (final (params m)); discriminate. }
    destruct (Main.state_at states (state m)) as [json|] eqn:Hat; [|discriminate].
    apply main_state_at_in in Hat.
    pose proof (Hdecl _ Hat) as Hjson.
    pose proof (Hwf _ Hat) as Hwell.
    pose proof (Hin _ Hat) as Hjumps.
    unfold well_formed in Hwell.
    apply andb_prop in Hwell. destruct Hwell as [Hwell Htry].
    apply andb_prop in Hwell. destruct Hwell as [Hknown Hchoice].
    unfold jumps_inside in Hjumps.
    apply andb_prop in Hjumps. destruct Hjumps as [Hjumps Hcatch].
    apply andb_prop in Hjumps. destruct Hjumps as [Hjumps Helse].
    apply andb_prop in Hjumps. destruct Hjumps as [Hnext Hthen].
    pose proof (target_inside _ _ Hnext) as Hstate.
    unfold Main.dispatch in H. cbn [params stack state] in H.
    by_type H json.
    + destruct (getprop (params m) "value") as [v|]; [|discriminate].
      injection H as <-.
      apply machine_inside_intro; cbn [state stack]; try assumption.
      destruct (strict_true v); now apply target_inside.
    + injection H as <-. destruct (catch json) as [c|] eqn:Ec; [|discriminate].
      apply machine_inside_intro; cbn [state stack forallb];
        rewrite ?Hf, ?Hh, ?andb_true_r; try assumption; try reflexivity;
        exact Hcatch.
    + destruct (Hjson ltac:(apply String.eqb_eq; assumption)) as (l & Hl & Hu).
      rewrite Hl in H. injection H as <-.
      apply machine_inside_intro; cbn [state stack forallb];
        rewrite ?Hf, ?Hh, ?andb_true_r; try assumption; try reflexivity.
    + destruct (stack m) as [|frame rest]; [discriminate|]. injection H as <-.
      cbn [forallb] in Hf, Hh.
      apply andb_prop in Hf. apply andb_prop in Hh.
      apply machine_inside_intro; cbn [state stack]; tauto.
    + destruct (negb (is_undefined (field json))
                && negb (String.eqb (typeof (field json)) "string"));
        [discriminate|].
      destruct (if truthy (field json)
                then getprop (params m) (to_string (field json))
                else Ok (params m)) as [saved|]; [|discriminate].
      cbn [bind] in H. unfold json_clone in H. cbn [unserializable json_copy] in H.
      injection H as <-.
      apply machine_inside_intro; cbn [state stack forallb];
        rewrite ?Hf, ?Hh, ?andb_true_r; try assumption;
        now destruct (unserializable saved).
    + destruct (stack m) as [|frame rest]; [discriminate|].
      destruct (negb (is_undefined (collect json))
                && negb (String.eqb (typeof (collect json)) "boolean"));
        [discriminate|].
      destruct (getprop frame "params"); [|discriminate]. injection H as <-.
      cbn [forallb] in Hf, Hh.
      apply andb_prop in Hf. apply andb_prop in Hh.
      apply machine_inside_intro; cbn [state stack]; tauto.
    + destruct (negb (String.eqb (typeof (name json)) "string")); discriminate.
    + destruct (is_undefined (value_ json)); [discriminate|].
      destruct (inspect (Machine (Main.target (next json)) (stack m) (value_ json)))
        as [m1|] eqn:Hinspect; [|discriminate].
      injection H as <-.
      exact (@inspect_inside _ (Machine (Main.target (next json)) (stack m) _) _
               Hstate Hf Hh Hinspect).
    + destruct (getprop (exec json) "exec") as [f|]; [|discriminate].
      cbn [bind] in H.
      destruct (negb (String.eqb (typeof f) "string")); [discriminate|].
      destruct (run user_eval f (Machine (Main.target (next json)) (stack m) (params m)))
        as [c stack'] eqn:Hrun.
      destruct (Main.function_params (state m) c (params m)) as [p|]; [|discriminate].
      cbn [bind] in H.
      destruct (inspect (Machine (Main.target (next json)) stack' p))
        as [m1|] eqn:Hinspect; [|discriminate].
      injection H as <-.
      destruct (run_keeps_frames user_eval f
                  (Machine (Main.target (next json)) (stack m) (params m)) Hf)
        as [Hk Hsame].
      rewrite Hrun in Hk, Hsame. cbn [snd stack] in Hk, Hsame.
      exact (@inspect_inside _ (Machine (Main.target (next json)) stack' p) _
               Hstate Hk (@same_handlers _ _ _ Hsame Hh) Hinspect).
    + destruct (inspect (Machine (Main.target (next json)) (stack m) (params m)))
        as [m1|] eqn:Hinspect; [|discriminate].
      injection H as <-.
      exact (@inspect_inside _ (Machine (Main.target (next json)) (stack m) _) _
               Hstate Hf Hh Hinspect).
    + discriminate.
Qed.

Lemma same_state_well_formed i r a :
  same_state i r a -> well_formed r = true -> well_formed a = true.
Proof.
  intros (Ht & _ & _ & Hth & He & Hc). unfold well_formed, known_type.
  rewrite Ht, Hth, He, Hc.
  destruct (then_ r), (else_ r), (catch r); exact (fun H => H).
Qed.

Lemma init_states_inside json states :
  payloads linkable json = true ->
  Main.__init__ json = Ok states ->
  Forall (fun s => well_formed s = true) states
  /\ Forall (fun s => jumps_inside (List.length states) 0 s = true) states.
Proof.
  intros Hp Hinit. unfold Main.__init__ in Hinit.
  destruct (Main.compile json "" 0) as [objects n'] eqn:E. cbn [fst] in Hinit.
  destruct (@main_compile_fresh _ _ _ _ _ E) as (_ & _ & Hnodup & _).
  destruct (@compile_related (fun v => Main.link_value v = Ok v) linkable
              linked_undefined linked_string linked_boolean linked_linkable
              json Hp "" "" 0%nat objects n' E)
    as (R & L & _).
  destruct (@link_block _ _ Hnodup _ _ (conductor_compile_held json Hp "") R)
    as (states' & Hstates & Hlen & Hnth).
  rewrite Hinit in Hstates. injection Hstates as <-.
  assert (Hall : forall a, In a states ->
                   well_formed a = true
                   /\ jumps_inside (List.length states) 0 a = true).
  { intros a Ha. apply In_nth_error in Ha. destruct Ha as [i Hi].
    assert (Hlt : (i < List.length states)%nat)
      by (apply nth_error_Some; congruence).
    destruct (nth_error (Conductor.compile json "") i) as [r|] eqn:Hr;
      [|apply nth_error_None in Hr; lia].
    pose proof (Hnth _ _ _ Hr Hi) as Hsame. cbn [Nat.add] in Hsame.
    split.
    - apply (same_state_well_formed Hsame).
      pose proof (conductor_compile_well_formed json "") as Hwf.
      rewrite Forall_forall in Hwf. exact (Hwf _ (nth_error_In _ _ Hr)).
    - destruct (@block_ok_nth _ _ _ _ _ _ _ R Hr) as (o & _ & Ho).
      apply state_ok_inside in Ho. rewrite addresses_length, L, <- Hlen in Ho.
      destruct Hsame as (_ & _ & Hn & Hth & He & Hc).
      unfold jumps_inside in *. cbn [Nat.add] in Ho.
      now rewrite Hn, Hth, He, Hc, !inside_absolute. }
  split; apply Forall_forall; intros a Ha; now apply Hall.
Qed.

(** X18.  [main] of [composer.js] never leaves the FSM that [__init__] made.
    For a composition whose payloads [__init__] leaves as they are and whose
    [let] states declare an object that has each key once: while the state
    is the index of a state or [undefined], and the frames have for [catch]
    the index of a state, the state that [invoke] reads is there and has one
    of the types of the [switch], and a turn of the loop that goes on leaves
    the machine so.  The machine starts so. *)
Theorem main_stays_inside :
  forall user_eval json states (m : machine),
    payloads linkable json = true ->
    Main.__init__ json = Ok states ->
    Forall declares_object states ->
    machine_inside (List.length states) m = true ->
    (is_undefined (state m) = false ->
     exists s, Main.state_at states (state m) = Some s /\ known_type s = true)
    /\ (forall m',
           Main.iteration user_eval states m = Ok (Continue m') ->
           machine_inside (List.length states) m' = true)
    /\ (forall input,
           machine_inside (List.length states) (Machine (VNum (Int 0)) [] input)
           = true).
Proof.
  intros ue json states m Hp Hinit Hdecl Hm.
  destruct (init_states_inside json Hp Hinit) as [Hwf Hin].
  destruct (@main_iteration_inside ue states m Hdecl Hwf Hin Hm) as [Hthere Hstep].
  split; [exact Hthere|]. split; [exact Hstep|].
  intros input. unfold machine_inside. cbn [state stack forallb state_inside].
  rewrite !andb_true_r. apply Z.ltb_lt.
  destruct states as [|s states]; [|cbn [List.length]; lia].
  unfold Main.__init__ in Hinit.
  destruct (Main.compile json "" 0) as [objects n'] eqn:E. cbn [fst] in Hinit.
  destruct (@main_compile_fresh _ _ _ _ _ E) as (_ & Hne & _).
  destruct objects as [|o objects]; [congruence|].
  cbn [Main.link_all] in Hinit.
  destruct (Main.link (o :: objects) o); [|discriminate]. cbn [bind] in Hinit.
  destruct (Main.link_all (o :: objects) objects); discriminate.
Qed.

Lemma main_stays_inside_witness :
  machine_inside 3 (Machine (VNum (Int 1)) [VObj [("let", VObj [])]] (VObj [])) = true.
Proof.
  assert (Hdecl : Forall declares_object
                    [with_next (Some 1) (with_let (VObj []) (new_state "let" ""));
                     with_next (Some 2)
                       (with_name (VStr "a") (new_state "action" ":1"));
                     new_state "exit" ""]).
  { repeat constructor; intros Htype; try discriminate Htype.
    exists []. split; reflexivity. }
  destruct (@main_stays_inside no_user_code let_action _
              (Machine (VNum (Int 0)) [] (VObj [])) eq_refl eq_refl Hdecl eq_refl)
    as (_ & Hstep & _).
  exact (Hstep _ eq_refl).
Defined.

(** ** The successors of the compiled states *)

Lemma conductor_set_last_next_app k front last :
  Conductor.set_last_next k (front ++ [last])
  = (front ++ [with_next (Some k) last])%list.
Proof.
  induction front as [|s front IH]; [reflexivity|].
  destruct front as [|s' front]; [reflexivity|].
  cbn [app] in *.
  change (s :: Conductor.set_last_next k (s' :: (front ++ [last])%list)
          = s :: s' :: (front ++ [with_next (Some k) last])%list).
  now rewrite IH.
Qed.

Lemma set_last_next_successors k fsm :
  ends_at_last fsm ->
  forallb has_successor (Conductor.set_last_next k fsm) = true.
Proof.
  intros (front & last & -> & Hfront & _ & Htype).
  rewrite conductor_set_last_next_app, forallb_app, Hfront.
  cbn [forallb]. unfold has_successor.
  change (type (with_next (Some k) last)) with (type last).
  now rewrite Htype.
Qed.

Lemma app_ends_at_last front back :
  forallb has_successor front = true -> ends_at_last back ->
  ends_at_last (front ++ back).
Proof.
  intros Hfront (front' & last & -> & Hfront' & Hnext & Htype).
  exists (front ++ front')%list, last. rewrite app_assoc, forallb_app, Hfront, Hfront'.
  repeat split; assumption.
Qed.

Lemma app_successors front back :
  forallb has_successor front = true -> forallb has_successor back = true ->
  forallb has_successor (front ++ back) = true.
Proof. intros Hf Hb. now rewrite forallb_app, Hf, Hb. Qed.

Lemma chain_ends_at_last front back :
  ends_at_last front -> ends_at_last back ->
  ends_at_last (Conductor.chain front back).
Proof.
  intros Hf Hb. unfold Conductor.chain.
  apply app_ends_at_last; [now apply set_last_next_successors|exact Hb].
Qed.

Lemma chain_successors front back :
  ends_at_last front -> forallb has_successor back = true ->
  forallb has_successor (Conductor.chain front back) = true.
Proof.
  intros Hf Hb. unfold Conductor.chain.
  apply app_successors; [now apply set_last_next_successors|exact Hb].
Qed.

Lemma single_ends_at_last s :
  next s = None -> String.eqb (type s) "choice" = false -> ends_at_last [s].
Proof. intros Hnext Htype. exists [], s. repeat split; assumption. Qed.

Lemma fold_chain_ends_at_last others :
  Forall ends_at_last others ->
  forall first,
    ends_at_last first -> ends_at_last (fold_left Conductor.chain others first).
Proof.
  induction 1 as [|fsm others Hfsm _ IH]; intros first Hfirst; cbn [fold_left];
    [exact Hfirst|].
  apply IH. now apply chain_ends_at_last.
Qed.

Lemma conductor_set_first_field_chain f front back :
  front <> [] ->
  Conductor.set_first_field f (Conductor.chain front back)
  = Conductor.chain (Conductor.set_first_field f front) back.
Proof.
  unfold Conductor.chain.
  destruct front as [|s [|s' front]]; [congruence|reflexivity|reflexivity].
Qed.

Ltac successors :=
  repeat first
    [ assumption
    | apply chain_ends_at_last
    | apply chain_successors
    | apply set_last_next_successors
    | apply app_ends_at_last
    | apply app_successors
    | apply single_ends_at_last; reflexivity
    | reflexivity ].

Lemma conductor_map_ends_at_last path components :
  Forall (fun json => forall path, ends_at_last (Conductor.compile json path))
         components ->
  forall index, Forall ends_at_last (conductor_map path components index).
Proof.
  induction 1 as [|json components Hjson _ IH]; intros index; cbn [conductor_map];
    constructor; [apply Hjson|apply IH].
Qed.

Lemma conductor_compile_ends_at_last json :
  forall path, ends_at_last (Conductor.compile json path).
Proof.
  induction json as [components IH|action_name options|code options|v options
                    |body finalizer options IHb IHf|declarations body IHb
                    |body options IHb|body handler options IHb IHh
                    |test consequent alternate options IHt IHc IHa
                    |test body options IHt IHb] using composition_ind_nested;
    intros path.
  - destruct components as [|json components]; [cbn; successors|].
    rewrite conductor_compile_sequence.
    pose proof (conductor_map_ends_at_last path IH 0) as Hall.
    cbn [conductor_map] in *. inversion Hall; subst.
    unfold Conductor.reduce_chain. now apply fold_chain_ends_at_last.
  - cbn. successors.
  - cbn. successors.
  - cbn. successors.
  - cbn [Conductor.compile Conductor.reduce_chain fold_left].
    pose proof (conductor_compile_not_nil body (path ++ ".body")).
    pose proof (IHb (path ++ ".body")). pose proof (IHf (path ++ ".finalizer")).
    rewrite !conductor_set_first_catch_chain by nonempty.
    cbn [Conductor.set_first_catch]. successors.
  - cbn [Conductor.compile Conductor.reduce_chain fold_left].
    pose proof (IHb (path ++ ".body")). successors.
  - cbn [Conductor.compile Conductor.reduce_chain fold_left].
    pose proof (conductor_compile_not_nil body (path ++ ".body")).
    pose proof (IHb (path ++ ".body")).
    destruct (truthy (option_of options "field")).
    + rewrite !conductor_set_first_field_chain by nonempty.
      cbn [Conductor.set_first_field]. successors.
    + successors.
  - cbn [Conductor.compile Conductor.reduce_chain fold_left].
    pose proof (conductor_compile_not_nil body (path ++ ".body")).
    pose proof (IHb (path ++ ".body")). pose proof (IHh (path ++ ".handler")).
    rewrite !conductor_set_first_catch_chain by nonempty.
    cbn [Conductor.set_first_catch]. successors.
  - cbn [Conductor.compile].
    pose proof (IHt (path ++ ".test")). pose proof (IHc (path ++ ".consequent")).
    pose proof (IHa (path ++ ".alternate")).
    destruct (truthy (option_of options "nosave")); cbn [negb]; successors.
  - cbn [Conductor.compile].
    pose proof (IHt (path ++ ":test")). pose proof (IHb (path ++ ".body")).
    destruct (truthy (option_of options "nosave")); cbn [negb]; successors.
Qed.

Lemma defined_absolute i offset : defined (absolute i offset) = defined offset.
Proof. destruct offset; reflexivity. Qed.

Lemma same_state_successor i r a :
  same_state i r a -> has_successor a = has_successor r.
Proof.
  intros (Ht & _ & Hn & Hth & He & _). unfold has_successor.
  now rewrite Ht, Hn, Hth, He, !defined_absolute.
Qed.

Lemma ends_at_last_same fsm states :
  List.length states = List.length fsm ->
  (forall i r a,
      nth_error fsm i = Some r -> nth_error states i = Some a ->
      same_state i r a) ->
  ends_at_last fsm -> ends_at_last states.
Proof.
  intros Hlen Hsame (front & last & -> & Hfront & Hnext & Htype).
  rewrite length_app in Hlen. cbn [List.length] in Hlen.
  destruct (@exists_last _ states) as (front' & last' & ->).
  { intros ->. cbn in Hlen. lia. }
  rewrite length_app in Hlen. cbn [List.length] in Hlen.
  assert (Hfronts : List.length front' = List.length front) by lia.
  exists front', last'. split; [reflexivity|]. split; [|split].
  - apply forallb_forall. intros a Ha. apply In_nth_error in Ha.
    destruct Ha as [i Hi].
    assert (Hlt : (i < List.length front)%nat)
      by (rewrite <- Hfronts; apply nth_error_Some; congruence).
    destruct (nth_error front i) as [r|] eqn:Hr;
      [|apply nth_error_None in Hr; lia].
    rewrite (same_state_successor
               (Hsame i r a
                  ltac:(rewrite nth_error_app1 by lia; exact Hr)
                  ltac:(rewrite nth_error_app1 by lia; exact Hi))).
    rewrite forallb_forall in Hfront. exact (Hfront _ (nth_error_In _ _ Hr)).
  - destruct (Hsame (List.length front) last last') as (_ & _ & Hn & _).
    + rewrite nth_error_app2, Nat.sub_diag by lia. reflexivity.
    + rewrite nth_error_app2 by lia. rewrite Hfronts, Nat.sub_diag. reflexivity.
    + now rewrite Hn, Hnext.
  - destruct (Hsame (List.length front) last last') as (Ht & _).
    + rewrite nth_error_app2, Nat.sub_diag by lia. reflexivity.
    + rewrite nth_error_app2 by lia. rewrite Hfronts, Nat.sub_diag. reflexivity.
    + now rewrite Ht.
Qed.

(** X19.  In a compiled FSM every state but the last names its successor, a
    [choice] by its [then] and its [else] and any other state by its
    [next]; the last state has no [next] and is no [choice].  This holds
    for the FSM of the [conductor] function and, for a composition whose
    payloads [__init__] leaves as they are, for the FSM that [__init__]
    makes. *)
Theorem compiled_successors (json : composition) (path : string) :
  ends_at_last (Conductor.compile json path)
  /\ (payloads linkable json = true ->
      exists states, Main.__init__ json = Ok states /\ ends_at_last states).
Proof.
  split; [apply conductor_compile_ends_at_last|].
  intros Hp. unfold Main.__init__.
  destruct (Main.compile json "" 0) as [objects n'] eqn:E. cbn [fst].
  destruct (@main_compile_fresh _ _ _ _ _ E) as (_ & _ & Hnodup & _).
  destruct (@compile_related (fun v => Main.link_value v = Ok v) linkable
              linked_undefined linked_string linked_boolean linked_linkable
              json Hp "" "" 0%nat objects n' E)
    as (R & L & _).
  destruct (@link_block _ _ Hnodup _ _ (conductor_compile_held json Hp "") R)
    as (states & Hstates & Hlen & Hnth).
  exists states. split; [exact Hstates|].
  apply (@ends_at_last_same (Conductor.compile json "") states Hlen).
  - intros i r a Hr Ha. exact (Hnth i r a Hr Ha).
  - apply conductor_compile_ends_at_last.
Qed.

Lemma compiled_successors_witness :
  exists states, Main.__init__ while_literals = Ok states /\ ends_at_last states.
Proof.
  destruct (compiled_successors while_literals "") as [_ Hmain].
  exact (Hmain eq_refl).
Defined.
